(** * HiPart interactive visualization: the split-point editing core

    A shallow embedding of [recalculate_after_spchange], [partial_predict]
    and the input check of [main] from
    [src/HiPart/inteactive_visualization.py], together with the part of
    [treelib.Tree] these functions call; of [next_free_port]; and of the
    two callbacks of the server, [display_menu] and
    [Splitpoint_Manipulation_Callback], as far as the temporary files and
    the slider values go.

    Python objects that are mutated in place (the tree, the clustering
    object) are threaded through a state-and-exception monad: a raised
    exception keeps the state reached so far, as in Python.  The two
    methods of the clustering classes that the loop calls, [select_kid]
    and [split_function], are parameters of the embedding; the theorems
    name the part of their contract they rely on.

    Contents: the Python and treelib layer; the two functions; the
    invariants of HiPart trees; [main]; [next_free_port]; the callbacks;
    reference readings of the specification; concrete trees and a
    concrete server; then the proofs, from list lemmas up to the
    statements about pruning, the split index, the loop, the frame of
    an edit, node ids over a session, [main], and repeated edits,
    followed by further properties of the pruning steps, of the split
    index and the loop, of [next_free_port] and of the callbacks. *)

From Stdlib Require Import ZArith List Bool Lia.
From Stdlib Require String DecimalString.
Import ListNotations.
Local Open Scope Z_scope.

(** ** Python: exceptions, outcomes, list indexing, ranges *)

Inductive exn : Type :=
| IndexError
| AttributeError
| TypeError
| NodeIDAbsentError
| DuplicatedNodeIdError
| MultipleRootError.

(** [OutOfFuel] is not a Python exception: it marks a run of the
    [while] loop of [partial_predict] that was cut by the fuel bound of
    the model. *)
Inductive outcome (A : Type) : Type :=
| Ok (a : A)
| Raise (e : exn)
| OutOfFuel.

Arguments Ok {A} a.
Arguments Raise {A} e.
Arguments OutOfFuel {A}.

Definition M (S A : Type) : Type := S -> outcome A * S.

Definition ret {S A : Type} (a : A) : M S A := fun s => (Ok a, s).

Definition raise {S A : Type} (e : exn) : M S A := fun s => (Raise e, s).

Definition bind {S A B : Type} (m : M S A) (k : A -> M S B) : M S B :=
  fun s =>
    match m s with
    | (Ok a, s') => k a s'
    | (Raise e, s') => (Raise e, s')
    | (OutOfFuel, s') => (OutOfFuel, s')
    end.

Definition get {S : Type} : M S S := fun s => (Ok s, s).

Definition modify {S : Type} (f : S -> S) : M S unit := fun s => (Ok tt, f s).

Declare Scope py_scope.
Delimit Scope py_scope with py.
Notation "x <- c ;; k" := (bind c (fun x => k))
  (at level 61, c at next level, right associativity) : py_scope.
Notation "c ;;; k" := (bind c (fun _ => k))
  (at level 61, right associativity) : py_scope.

(** [for x in l: body x], left to right, stopping at the first raise. *)
Fixpoint for_each {S A : Type} (l : list A) (body : A -> M S unit) : M S unit :=
  match l with
  | [] => ret tt
  | x :: l' => bind (body x) (fun _ => for_each l' body)
  end.

(** [l[i]] for a Python list: negative indices count from the end. *)
Definition py_index {A : Type} (l : list A) (i : Z) : option A :=
  let n := Z.of_nat (length l) in
  if 0 <=? i then nth_error l (Z.to_nat i)
  else if - n <=? i then nth_error l (Z.to_nat (n + i))
  else None.

(** [l[i]] as a computation: [IndexError] out of range. *)
Definition index {S A : Type} (l : list A) (i : Z) : M S A :=
  match py_index l i with
  | Some a => ret a
  | None => raise IndexError
  end.

(** Attribute access on a value that may be [None]. *)
Definition getattr {S A : Type} (o : option A) : M S A :=
  match o with
  | Some a => ret a
  | None => raise AttributeError
  end.

(** [range(n)] *)
Definition py_range (n : nat) : list Z := map Z.of_nat (seq 0 n).

(** [range(hi, 0, -1)]: hi, hi-1, ..., 1 (empty when [hi <= 0]). *)
Definition py_range_down (hi : Z) : list Z :=
  rev (map Z.of_nat (seq 1 (Z.to_nat hi))).

Definition memZ (x : Z) (l : list Z) : bool := existsb (Z.eqb x) l.

Definition is_none {A : Type} (o : option A) : bool :=
  match o with None => true | Some _ => false end.

Definition opt_eqb (a b : option Z) : bool :=
  match a, b with
  | Some x, Some y => x =? y
  | None, None => true
  | _, _ => false
  end.

(** [l.remove(x)]: drops the first occurrence. *)
Fixpoint remove_first (x : Z) (l : list Z) : list Z :=
  match l with
  | [] => []
  | y :: l' => if y =? x then l' else y :: remove_first x l'
  end.

(** ** The clustering tree (treelib.Tree with HiPart's node data) *)

Section Model.

(** [value] stands for the Python floats kept in the node data (split
    point, split criterion); this module stores them and never computes
    with them.  [payload] is the rest of the node's [data] dictionary
    (sample indices, projections, colour key ...). *)
Variable value : Type.
Variable payload : Type.

Record NodeData : Type := mkData {
  split_criterion : option value;
  split_permition : bool;
  splitpoint : option value;
  other_data : payload
}.

Record Node : Type := mkNode {
  identifier : Z;
  predecessor : option Z;
  successors : list Z;
  data : NodeData
}.

(** [nodes] is the dictionary [tree.nodes] in insertion order; an entry's
    key is the [identifier] of its node. *)
Record Tree : Type := mkTree {
  nodes : list Node;
  root : option Z
}.

Record HiPart : Type := mkHiPart {
  tree : Tree;
  node_ids : Z;
  cluster_color : Z;
  max_clusters_number : Z
}.

Definition has_id (k : Z) (n : Node) : bool := identifier n =? k.

Definition keys (t : Tree) : list Z := map identifier (nodes t).

Definition contains (t : Tree) (k : Z) : bool := existsb (has_id k) (nodes t).

Definition get_node (t : Tree) (k : Z) : option Node := find (has_id k) (nodes t).

Definition is_leaf (n : Node) : bool := (length (successors n) =? 0)%nat.

Definition is_root (n : Node) : bool := is_none (predecessor n).

Definition leaves (t : Tree) : list Node := filter is_leaf (nodes t).

(** [tree.parent(k)] *)
Definition parent (k : Z) : M Tree (option Node) :=
  fun t =>
    match get_node t k with
    | None => (Raise NodeIDAbsentError, t)
    | Some n =>
        match predecessor n with
        | None => (Ok None, t)
        | Some pid => (Ok (get_node t pid), t)
        end
    end.

Definition successors_of (t : Tree) (k : Z) : list Z :=
  match get_node t k with
  | Some n => successors n
  | None => []
  end.

(** [tree.expand_tree(k)], depth first along the successor lists.  The
    library orders siblings by tag; [remove_node] only uses the set of the
    yielded ids.  One unit of fuel per yielded id. *)
Fixpoint expand_queue (fuel : nat) (t : Tree) (queue : list Z) : list Z :=
  match fuel with
  | O => []
  | S fuel' =>
      match queue with
      | [] => []
      | k :: rest => k :: expand_queue fuel' t (successors_of t k ++ rest)
      end
  end.

Definition expand_tree (t : Tree) (k : Z) : list Z :=
  expand_queue (length (nodes t)) t [k].

Definition update_node (k : Z) (f : Node -> Node) (ns : list Node) : list Node :=
  map (fun n => if has_id k n then f n else n) ns.

Definition drop_successor (c : Z) (n : Node) : Node :=
  mkNode (identifier n) (predecessor n) (remove_first c (successors n)) (data n).

Definition add_successor (c : Z) (n : Node) : Node :=
  mkNode (identifier n) (predecessor n) (successors n ++ [c]) (data n).

(** [tree.remove_node(k)]: the node and its whole subtree leave the
    dictionary, and [k] leaves the successor list of its parent.  In a
    treelib tree the parent link of a node points into the tree; a
    dangling link, on which the library raises, is outside this model. *)
Definition remove_node (k : Z) : M Tree unit :=
  fun t =>
    match get_node t k with
    | None => (Raise NodeIDAbsentError, t)
    | Some n =>
        let removed := expand_tree t k in
        let detached :=
          match predecessor n with
          | Some pid => update_node pid (drop_successor k) (nodes t)
          | None => nodes t
          end in
        (Ok tt,
         mkTree (filter (fun m => negb (memZ (identifier m) removed)) detached)
                (match root t with
                 | Some r => if memZ r removed then None else Some r
                 | None => None
                 end))
    end.

(** [tree.create_node(identifier=k, parent=pid, data=d)] *)
Definition create_node (k : Z) (pid : option Z) (d : NodeData) : M Tree unit :=
  fun t =>
    if contains t k then (Raise DuplicatedNodeIdError, t)
    else
      match pid with
      | None =>
          match root t with
          | Some _ => (Raise MultipleRootError, t)
          | None => (Ok tt, mkTree (nodes t ++ [mkNode k None [] d]) (Some k))
          end
      | Some p =>
          if contains t p
          then (Ok tt,
                mkTree (update_node p (add_successor k) (nodes t)
                          ++ [mkNode k (Some p) [] d])
                       (root t))
          else (Raise NodeIDAbsentError, t)
      end.

(** ** [recalculate_after_spchange] and [partial_predict] *)

(** [sorted(clusters, key=lambda x: x.identifier)]: a stable sort. *)
Fixpoint insert_by_identifier (n : Node) (l : list Node) : list Node :=
  match l with
  | [] => [n]
  | m :: l' =>
      if identifier n <=? identifier m then n :: l
      else m :: insert_by_identifier n l'
  end.

Definition sorted_by_identifier (l : list Node) : list Node :=
  fold_right insert_by_identifier [] l.

(** Lines 978-990: the ids below [number_of_nodes] that are not ids of
    leaves, or [[0]] when there is none. *)
Definition internal_nodes_of (t : Tree) : list Z :=
  let clusters := sorted_by_identifier (leaves t) in
  let number_of_nodes := length (keys t) in
  let leaf_node_list := map identifier clusters in
  let internal_nodes :=
    filter (fun i => negb (memZ i leaf_node_list)) (py_range number_of_nodes) in
  if (length internal_nodes =? 0)%nat then [0] else internal_nodes.

(** Lines 996-1005: the body of the pruning loop for the key
    [k = node_keys[i]]. *)
Definition prune_key (internal_nodes : list Z) (split : Z) (k : Z)
    : M Tree unit :=
  (e <- index internal_nodes split ;;
   if k >? e then
     t <- get ;;
     if is_none (get_node t k) then ret tt
     else
       ne <- getattr (get_node t e) ;;
       if negb (is_root ne) then
         pe <- (p <- parent e ;; getattr p) ;;
         pk <- (p <- parent k ;; getattr p) ;;
         if negb (identifier pe =? identifier pk) then remove_node k
         else ret tt
       else remove_node k
   else ret tt)%py.

Definition prune_step (internal_nodes : list Z) (split : Z)
    (node_keys : list Z) (i : Z) : M Tree unit :=
  (k <- index node_keys i ;; prune_key internal_nodes split k)%py.

(** Lines 994-1005. *)
Definition prune_loop (internal_nodes : list Z) (split : Z) : M Tree unit :=
  (t <- get ;;
   let node_keys := keys t in
   for_each (py_range_down (Z.of_nat (length node_keys) - 1))
            (prune_step internal_nodes split node_keys))%py.

Definition set_split_permition (b : bool) (n : Node) : Node :=
  mkNode (identifier n) (predecessor n) (successors n)
    (mkData (split_criterion (data n)) b (splitpoint (data n))
            (other_data (data n))).

Definition set_splitpoint (v : value) (n : Node) : Node :=
  mkNode (identifier n) (predecessor n) (successors n)
    (mkData (split_criterion (data n)) (split_permition (data n)) (Some v)
            (other_data (data n))).

(** Lines 1010-1013: every entry of the dictionary is visited once. *)
Definition reopen_leaf (n : Node) : Node :=
  if is_leaf n then
    if negb (is_none (split_criterion (data n)))
    then set_split_permition true n
    else n
  else n.

Definition reopen_leaves (t : Tree) : Tree :=
  mkTree (map reopen_leaf (nodes t)) (root t).

Definition with_tree (o : HiPart) (t : Tree) : HiPart :=
  mkHiPart t (node_ids o) (cluster_color o) (max_clusters_number o).

(** Runs a computation on the tree of the clustering object, which is
    one shared Python object: its mutations are those of the object. *)
Definition on_tree {A : Type} (m : M Tree A) : M HiPart A :=
  fun o => let (r, t) := m (tree o) in (r, with_tree o t).

(** Lines 975-1021: everything before the call of [partial_predict]. *)
Definition prune_phase (split : Z) (splitpoint_value : value) : M HiPart unit :=
  (internal_nodes <- on_tree (t <- get ;; ret (internal_nodes_of t)) ;;
   on_tree (prune_loop internal_nodes split) ;;;
   on_tree (modify reopen_leaves) ;;;
   modify (fun o =>
     mkHiPart (tree o) (Z.of_nat (length (keys (tree o))) - 1)
              (cluster_color o) (max_clusters_number o)) ;;;
   modify (fun o =>
     mkHiPart (tree o) (node_ids o)
              (Z.of_nat (length (leaves (tree o))) + 1)
              (max_clusters_number o)) ;;;
   e <- index internal_nodes split ;;
   on_tree (t <- get ;;
            getattr (get_node t e) ;;;
            modify (fun t =>
              mkTree (update_node e (set_splitpoint splitpoint_value) (nodes t))
                     (root t))))%py.

(** The two methods of the clustering classes that the loop calls; they
    live in [HiPart.clustering]. *)
Variable select_kid : list Node -> option Z.
Variable split_function : Z -> M HiPart unit.

(** What the loop did, in order: a ghost record of its calls. *)
Inductive event : Type :=
| EvSelect (chosen : option Z)
| EvSplit (node : Z).

(** Lines 1049-1057: the [while] loop, entered with the current
    [selected_node] and [found_clusters]. *)
Fixpoint predict_loop (fuel : nat) (selected_node : option Z)
    (found_clusters : Z) (o : HiPart) : (outcome unit * HiPart) * list event :=
  match selected_node with
  | None => ((Ok tt, o), [])
  | Some k =>
      if found_clusters <? max_clusters_number o then
        match fuel with
        | O => ((OutOfFuel, o), [])
        | S fuel' =>
            match split_function k o with
            | (Ok _, o1) =>
                let selected_node' := select_kid (leaves (tree o1)) in
                let (r, tr) :=
                  predict_loop fuel' selected_node' (found_clusters + 1) o1 in
                (r, EvSplit k :: EvSelect selected_node' :: tr)
            | (Raise x, o1) => ((Raise x, o1), [EvSplit k])
            | (OutOfFuel, o1) => ((OutOfFuel, o1), [EvSplit k])
            end
        end
      else ((Ok tt, o), [])
  end.

(** Lines 1044-1059. *)
Definition partial_predict (fuel : nat) (o : HiPart)
    : (outcome unit * HiPart) * list event :=
  let found_clusters := Z.of_nat (length (leaves (tree o))) in
  let selected_node := select_kid (leaves (tree o)) in
  let (r, tr) := predict_loop fuel selected_node found_clusters o in
  (r, EvSelect selected_node :: tr).

(** Lines 952-1024. *)
Definition recalculate_after_spchange (fuel : nat) (o : HiPart) (split : Z)
    (splitpoint_value : value) : (outcome unit * HiPart) * list event :=
  match prune_phase split splitpoint_value o with
  | (Ok _, o1) => partial_predict fuel o1
  | (Raise x, o1) => ((Raise x, o1), [])
  | (OutOfFuel, o1) => ((OutOfFuel, o1), [])
  end.

End Model.

Arguments mkData {value payload} _ _ _ _.
Arguments split_criterion {value payload} _.
Arguments split_permition {value payload} _.
Arguments splitpoint {value payload} _.
Arguments other_data {value payload} _.
Arguments mkNode {value payload} _ _ _ _.
Arguments identifier {value payload} _.
Arguments predecessor {value payload} _.
Arguments successors {value payload} _.
Arguments data {value payload} _.
Arguments mkTree {value payload} _ _.
Arguments nodes {value payload} _.
Arguments root {value payload} _.
Arguments mkHiPart {value payload} _ _ _ _.
Arguments tree {value payload} _.
Arguments node_ids {value payload} _.
Arguments cluster_color {value payload} _.
Arguments max_clusters_number {value payload} _.
Arguments has_id {value payload} _ _.
Arguments keys {value payload} _.
Arguments contains {value payload} _ _.
Arguments get_node {value payload} _ _.
Arguments is_leaf {value payload} _.
Arguments is_root {value payload} _.
Arguments leaves {value payload} _.
Arguments parent {value payload} _ _.
Arguments successors_of {value payload} _ _.
Arguments expand_queue {value payload} _ _ _.
Arguments expand_tree {value payload} _ _.
Arguments update_node {value payload} _ _ _.
Arguments drop_successor {value payload} _ _.
Arguments add_successor {value payload} _ _.
Arguments remove_node {value payload} _ _.
Arguments create_node {value payload} _ _ _ _.
Arguments insert_by_identifier {value payload} _ _.
Arguments sorted_by_identifier {value payload} _.
Arguments internal_nodes_of {value payload} _.
Arguments prune_key {value payload} _ _ _ _.
Arguments prune_step {value payload} _ _ _ _ _.
Arguments prune_loop {value payload} _ _ _.
Arguments set_split_permition {value payload} _ _.
Arguments set_splitpoint {value payload} _ _.
Arguments reopen_leaf {value payload} _.
Arguments reopen_leaves {value payload} _.
Arguments with_tree {value payload} _ _.
Arguments on_tree {value payload A} _ _.
Arguments prune_phase {value payload} _ _ _.
Arguments predict_loop {value payload} _ _ _ _ _ _.
Arguments partial_predict {value payload} _ _ _ _.
Arguments recalculate_after_spchange {value payload} _ _ _ _ _ _.

(** ** Invariants of the trees built by HiPart *)

Section Invariants.

Context {value payload : Type}.
Local Abbreviation Node := (Node value payload).
Local Abbreviation Tree := (Tree value payload).
Local Abbreviation HiPart := (HiPart value payload).

Definition has_parent (k : Z) (n : Node) : bool :=
  opt_eqb (predecessor n) (Some k).

(** The ids of the nodes whose parent is [k], in creation order. *)
Definition children_ids (ns : list Node) (k : Z) : list Z :=
  map identifier (filter (has_parent k) ns).

Fixpoint list_eqb (a b : list Z) : bool :=
  match a, b with
  | [], [] => true
  | x :: a', y :: b' => (x =? y) && list_eqb a' b'
  | _, _ => false
  end.

Fixpoint ascending (l : list Z) : bool :=
  match l with
  | [] => true
  | x :: l' => forallb (fun y => x <? y) l' && ascending l'
  end.

(** A node other than the first was created by a split of an older node
    of the tree. *)
Definition child_ok (t : Tree) (n : Node) : bool :=
  match predecessor n with
  | Some p => (p <? identifier n) && contains t p
  | None => false
  end.

Definition root_ok (t : Tree) : bool :=
  match nodes t with
  | [] => false
  | n0 :: rest =>
      is_none (predecessor n0)
      && opt_eqb (root t) (Some (identifier n0))
      && forallb (child_ok t) rest
  end.

Definition succ_ok (t : Tree) (n : Node) : bool :=
  list_eqb (successors n) (children_ids (nodes t) (identifier n)).

(** The tree is a treelib tree whose dictionary is in creation order:
    the root comes first, ids increase, every other node hangs under an
    older node of the tree, and the successor lists are the children. *)
Definition wf_tree (t : Tree) : bool :=
  root_ok t && ascending (keys t) && forallb (succ_ok t) (nodes t).

(** Ids are [0 .. n-1]. *)
Definition contiguous (t : Tree) : bool :=
  list_eqb (keys t) (py_range (length (nodes t))).

(** The two children of a split carry consecutive ids. *)
Definition siblings_ok (t : Tree) : bool :=
  forallb (fun n =>
    forallb (fun m =>
      negb (opt_eqb (predecessor n) (predecessor m))
      || (Z.abs (identifier n - identifier m) <=? 1))
      (nodes t)) (nodes t).

Definition hipart_tree (t : Tree) : bool :=
  wf_tree t && contiguous t && siblings_ok t.

(** The clustering object between two operations: [node_ids] is the last
    id handed out. *)
Definition hipart_ok (o : HiPart) : bool :=
  hipart_tree (tree o) && (node_ids o =? Z.of_nat (length (nodes (tree o))) - 1).

(** [wf_tree] spelled out. *)
Definition WF (t : Tree) : Prop :=
  (exists n0 rest,
      nodes t = n0 :: rest
      /\ predecessor n0 = None
      /\ root t = Some (identifier n0)
      /\ forall n, In n rest ->
           exists p, predecessor n = Some p /\ p < identifier n
                     /\ In p (keys t))
  /\ ascending (keys t) = true
  /\ forall n, In n (nodes t) ->
       successors n = children_ids (nodes t) (identifier n).

(** A leaf that [select_kid] may return. *)
Definition eligible (n : Node) : bool :=
  negb (is_none (split_criterion (data n))) && split_permition (data n).



(** The ids of the non-leaf nodes of the tree. *)
Definition non_leaf_ids (t : Tree) : list Z :=
  map identifier (filter (fun n => negb (is_leaf n)) (nodes t)).

(** The node without its successor list. *)
Definition bare (n : Node) : Node :=
  mkNode (identifier n) (predecessor n) [] (data n).

(** Whether the pruning loop, editing node [e] whose parent link is
    [pe], removes [n] when it reaches it. *)
Definition doomed (e : Z) (pe : option Z) (n : Node) : bool :=
  (identifier n >? e)
  && (is_none pe || negb (opt_eqb (predecessor n) pe)).

(** Modelled from the spec: the Split Selector of section 4.2, whose code
    is in [HiPart.clustering].  Among the leaves with
    [split_criterion is not None] and the permission flag set, it takes
    the one ranked first by [better]; [None] when no leaf qualifies. *)
Definition select_kid_spec (better : Node -> Node -> bool)
    (leaves : list Node) : option Z :=
  match filter eligible leaves with
  | [] => None
  | n :: rest =>
      Some (identifier
              (fold_left (fun best m => if better m best then m else best)
                         rest n))
  end.

(** Modelled from the spec: the Splitter of section 4.3, whose code is
    in [HiPart.clustering].  It turns the node into an internal node
    with two new leaf children; their ids are [node_ids + 1] and
    [node_ids + 2], the reading of "next id to allocate, kept in sync
    with tree size minus one" under which the ids are fresh, and both
    counters advance by two.  The node's permission flag is closed (the
    flag that line 1013 re-opens).  [calculate_node_data parent_data
    right colour] is the data of a child. *)
Definition split_function_spec
    (calculate_node_data : NodeData value payload -> bool -> Z
                           -> NodeData value payload)
    (k : Z) : M HiPart unit :=
  (node <- on_tree (t <- get ;; getattr (get_node t k)) ;;
   on_tree (modify (fun t =>
     mkTree (update_node k (set_split_permition false) (nodes t)) (root t))) ;;;
   let d := data (set_split_permition false node) in
   o <- get ;;
   on_tree (create_node (node_ids o + 1) (Some k)
              (calculate_node_data d false (cluster_color o))) ;;;
   on_tree (create_node (node_ids o + 2) (Some k)
              (calculate_node_data d true (cluster_color o + 1))) ;;;
   modify (fun o =>
     mkHiPart (tree o) (node_ids o + 2) (cluster_color o + 2)
              (max_clusters_number o)))%py.

End Invariants.

(** ** The entry point [main] *)

Module Entry.

Import String.
Local Open Scope string_scope.
Local Open Scope list_scope.

(** A Python object as far as [isinstance] sees it: the names of the
    classes in the method resolution order of its type. *)
Record PyObject : Type := mkPyObject {
  mro : list String.string;
  pickled : String.string
}.

Definition isinstance (o : PyObject) (cls : String.string) : bool :=
  existsb (String.eqb cls) (mro o).

(** What [main] does to the outside world, in order. *)
Inductive effect : Type :=
| NamedTemporaryFile (suffix : String.string)
| PickleDump (file : String.string) (content : String.string)
| AppLayout
| NextFreePort
| OpenBrowser
| RunServer
| PickleLoad (file : String.string)
| CloseFile (file : String.string)
| Unlink (file : String.string).

Definition emit (e : effect) : M (list effect) unit :=
  modify (fun log => log ++ [e]).

(** Lines 58-68. *)
Definition supported (inputData : PyObject) : bool :=
  isinstance inputData "dePDDP"
  || isinstance inputData "iPDDP"
  || isinstance inputData "kM_PDDP"
  || isinstance inputData "PDDP".

(** Lines 40-112.  [served] is the object found in the second temporary
    file once the server has stopped. *)
Definition main (served : PyObject) (inputData : PyObject)
    : M (list effect) PyObject :=
  (if negb (supported inputData) then raise TypeError
   else
     emit (NamedTemporaryFile ".inv") ;;;
     emit (NamedTemporaryFile ".inv") ;;;
     emit (NamedTemporaryFile ".png") ;;;
     emit (PickleDump "input_object" (pickled inputData)) ;;;
     emit (PickleDump "new_input_object" (pickled inputData)) ;;;
     emit AppLayout ;;;
     emit NextFreePort ;;;
     emit OpenBrowser ;;;
     emit RunServer ;;;
     emit (PickleLoad "new_input_object") ;;;
     emit (CloseFile "input_object") ;;;
     emit (CloseFile "new_input_object") ;;;
     emit (CloseFile "figure_path") ;;;
     emit (Unlink "input_object") ;;;
     emit (Unlink "new_input_object") ;;;
     emit (Unlink "figure_path") ;;;
     ret served)%py.

End Entry.
(** ** [next_free_port] *)

Module Port.

(** What [sock.bind(("", port))] does: it returns, it raises [OSError]
    (the port is taken, or may not be bound), or it raises something
    else.  One call of [next_free_port] binds each port at most once, so
    the answers of the operating system during the call are a function
    of the port. *)
Inductive bind_outcome : Type :=
| Bound
| BindOSError
| BindOtherError.

(** What happens to the socket, in order. *)
Inductive sock_event : Type :=
| SocketCreated
| BindTried (port : Z)
| SocketClosed.

(** How the call ends.  [Propagated] is an exception of [bind] that the
    [except OSError] clause does not catch; [PortOutOfFuel] marks a run of
    the [while] loop cut by the fuel bound of the model. *)
Inductive port_result : Type :=
| Returned (port : Z)
| IOErrorNoFreePorts
| Propagated
| PortOutOfFuel.

Section NextFreePort.

Variable sock_bind : Z -> bind_outcome.

(** Lines 139-146: the [while] loop and the [raise] after it.
    [sock.close()] is taken not to raise. *)
Fixpoint port_loop (fuel : nat) (port max_port : Z)
    : port_result * list sock_event :=
  if port <=? max_port then
    match fuel with
    | O => (PortOutOfFuel, [])
    | S fuel' =>
        match sock_bind port with
        | Bound => (Returned port, [BindTried port; SocketClosed])
        | BindOSError =>
            let (r, tr) := port_loop fuel' (port + 1) max_port in
            (r, BindTried port :: tr)
        | BindOtherError => (Propagated, [BindTried port])
        end
    end
  else (IOErrorNoFreePorts, []).

(** Lines 115-146. *)
Definition next_free_port (fuel : nat) (port max_port : Z)
    : port_result * list sock_event :=
  let (r, tr) := port_loop fuel port max_port in
  (r, SocketCreated :: tr).

End NextFreePort.

(** The default of the parameter [max_port]. *)
Definition default_max_port : Z := 65535.

(** The ports [port, port + 1, ...], [n] of them. *)
Definition ports_from (port : Z) (n : nat) : list Z :=
  map (fun i => port + Z.of_nat i) (seq 0 n).

(** The passes of the loop that the range [port .. max_port] allows. *)
Definition port_span (port max_port : Z) : nat :=
  Z.to_nat (max_port + 1 - port).

(** An operating system on which the ports 8050 and 8051 are taken and
    every other port can be bound. *)
Definition two_taken (p : Z) : bind_outcome :=
  if (p =? 8050) || (p =? 8051) then BindOSError else Bound.

End Port.

(** ** The callbacks of the server *)

Module Server.

Import Ascii String.
Local Open Scope string_scope.
Local Open Scope list_scope.

(** [s.split(".")[0]]: the part of [s] before its first dot. *)
Fixpoint before_dot (s : string) : string :=
  match s with
  | EmptyString => EmptyString
  | String c s' =>
      if Ascii.eqb c "."%char then EmptyString else String c (before_dot s')
  end.

(** [str(i)] for an int. *)
Definition py_str (i : Z) : string :=
  DecimalString.NilZero.string_of_int (Z.to_int i).

(** A dictionary with string keys, as [json.loads] returns it. *)
Definition Dict : Type := list (string * string).

Fixpoint dict_get (key : string) (d : Dict) : option string :=
  match d with
  | [] => None
  | (k, x) :: d' => if String.eqb k key then Some x else dict_get key d'
  end.

(** [{str(i): str(i) for i in range(len(internal_nodes))}] *)
Definition split_marks_of (internal_nodes : list Z) : Dict :=
  map (fun i => (py_str i, py_str i)) (py_range (List.length internal_nodes)).

(** What a callback can raise.  [EditRaised] carries an exception of
    [recalculate_after_spchange]; [LibraryError] stands for an exception
    raised inside [HiPart.__utility_functions] or the plotting code. *)
Inductive failure : Type :=
| EditRaised (e : exn)
| KeyError (key : string)
| JSONDecodeError
| FileError (path : string)
| LibraryError.

(** [Cut] is not a Python outcome: the loop of [partial_predict] ran out
    of the fuel of the model. *)
Inductive result (A : Type) : Type :=
| Done (a : A)
| Failed (f : failure)
| Cut.

Arguments Done {A} a.
Arguments Failed {A} f.
Arguments Cut {A}.

Section Store.

Variable value payload : Type.

(** A clustering object as the callbacks see it: the classes of its type,
    the attribute that only [dePDDP] objects are asked for, and the
    state that [recalculate_after_spchange] works on. *)
Record Stored : Type := mkStored {
  class_mro : list string;
  split_data_bandwidth_scale : value;
  model : HiPart value payload
}.

Definition isinstance (ob : Stored) (cls : string) : bool :=
  existsb (String.eqb cls) (class_mro ob).

Definition with_model (ob : Stored) (o : HiPart value payload) : Stored :=
  mkStored (class_mro ob) (split_data_bandwidth_scale ob) o.

(** The temporary files: the object that each path holds in pickled
    form.  [pickle.load] gives back the object that [pickle.dump]
    wrote. *)
Definition Files : Type := string -> option Stored.

Definition SM (A : Type) : Type := Files -> result A * Files.

Definition sret {A : Type} (a : A) : SM A := fun fs => (Done a, fs).

Definition fail {A : Type} (f : failure) : SM A := fun fs => (Failed f, fs).

Definition sbind {A B : Type} (m : SM A) (k : A -> SM B) : SM B :=
  fun fs =>
    match m fs with
    | (Done a, fs') => k a fs'
    | (Failed f, fs') => (Failed f, fs')
    | (Cut, fs') => (Cut, fs')
    end.

Definition or_fail {A : Type} (f : failure) (o : option A) : SM A :=
  match o with
  | Some a => sret a
  | None => fail f
  end.

(** [data[key]] *)
Definition item (d : Dict) (key : string) : SM string :=
  or_fail (KeyError key) (dict_get key d).

(** [with open(path, "rb") as f: pickle.load(f)] *)
Definition pickle_load (path : string) : SM Stored :=
  fun fs => or_fail (FileError path) (fs path) fs.

(** [with open(path, "wb") as f: pickle.dump(ob, f)] *)
Definition pickle_dump (path : string) (ob : Stored) : SM unit :=
  fun fs => (Done tt, fun p => if String.eqb p path then Some ob else fs p).

(** A computation that writes no file. *)
Definition reads_only {A : Type} (m : SM A) : Prop :=
  forall fs, snd (m fs) = fs.

(** A computation that writes no file other than [path]. *)
Definition writes_only {A : Type} (path : string) (m : SM A) : Prop :=
  forall fs p, p <> path -> snd (m fs) p = fs p.

End Store.

Arguments mkStored {value payload} _ _ _.
Arguments class_mro {value payload} _.
Arguments split_data_bandwidth_scale {value payload} _.
Arguments model {value payload} _.
Arguments isinstance {value payload} _ _.
Arguments with_model {value payload} _ _.
Arguments sret {value payload A} _ _.
Arguments fail {value payload A} _ _.
Arguments sbind {value payload A B} _ _ _.
Arguments or_fail {value payload A} _ _ _.
Arguments item {value payload} _ _ _.
Arguments pickle_load {value payload} _ _.
Arguments pickle_dump {value payload} _ _ _.
Arguments reads_only {value payload A} _.
Arguments writes_only {value payload A} _ _.

Declare Scope srv_scope.
Delimit Scope srv_scope with srv.
Notation "x <- c ;; k" := (sbind c (fun x => k))
  (at level 61, c at next level, right associativity) : srv_scope.
Notation "c ;;; k" := (sbind c (fun _ => k))
  (at level 61, right associativity) : srv_scope.

(** The parts of the callbacks that are calls into json, numpy, pandas,
    matplotlib, plotly and [HiPart.__utility_functions], and the two
    figure builders of lines 691-948, which are sequences of plotly
    calls.  They compute values from their arguments; those that can
    raise return [None] then.  [data_preparation] and [message_center]
    are given the object that their path argument holds: they read that
    file and write none.  [below] and [above] are [x - 0.001] and
    [x + 0.001].  [shutdown] is [shutdown()], lines 487-495: a signal to
    the server's own process, whose effect depends on the platform. *)
Class Library (value payload : Type) : Type := {
  DataMatrix : Type;
  Figure : Type;
  Description : Type;
  Order : Type;
  Colours : Type;
  json_loads : string -> option Dict;
  data_preparation :
    Stored value payload -> Z -> option (DataMatrix * value * list Z * Z);
  message_center : string -> Stored value payload -> option Description;
  pc1_min : DataMatrix -> value;
  pc1_max : DataMatrix -> value;
  below : value -> value;
  above : value -> value;
  order_by_count : DataMatrix -> Order;
  order_by_value : DataMatrix -> Order;
  colour_list : Z -> Colours;
  scatter_figure : DataMatrix -> Order -> Colours -> option Figure;
  make_scatter_n_hist :
    DataMatrix -> value -> value -> Order -> Colours -> option Figure;
  make_scatter_n_marginal_scatter :
    DataMatrix -> value -> Order -> Colours -> option Figure;
  figure_from_dict : Figure -> Figure;
  update_shapes : value -> Figure -> Figure;
  shutdown : SM value payload unit
}.

(** The six outputs of the split-point callback. *)
Record Outputs {value payload : Type} {lib : Library value payload}
    : Type := mkOutputs {
  figure : Figure;
  splitMax : Z;
  splitMarks : Dict;
  splitpoint_out : value;
  splitPMin : value;
  splitPMax : value
}.

(** What the menu callback returns. *)
Inductive Page {value payload : Type} {lib : Library value payload}
    : Type :=
| ClusterPage (description : Description) (fig : Figure)
| SplitPage (description : Description)
    (splitView_max : Z) (splitView_marks : Dict) (fig : Figure)
    (slider_min slider_max slider_value : value)
| ShutdownPage.

(** One request to the server: the browser went to a path, or an input
    of the split-point callback changed. *)
Inductive request {value payload : Type} {lib : Library value payload}
    : Type :=
| Visit (pathname : string)
| Trigger (prop_id : string) (curent_figure : Figure)
    (split_number maximum_number_splits : Z) (split_marks : Dict)
    (splitpoint_position splitpoint_minimum splitpoint_max : value)
    (apply_button : Z).

Arguments mkOutputs {value payload lib} _ _ _ _ _ _.
Arguments ClusterPage {value payload lib} _ _.
Arguments SplitPage {value payload lib} _ _ _ _ _ _ _.
Arguments ShutdownPage {value payload lib}.
Arguments Visit {value payload lib} _.
Arguments Trigger {value payload lib} _ _ _ _ _ _ _ _ _.

Section Callbacks.

Context {value payload : Type} {lib : Library value payload}.
Local Abbreviation Stored := (Stored value payload).
Local Abbreviation Files := (Files value payload).
Local Abbreviation SM := (SM value payload).

(** The methods of the clustering classes that [partial_predict] calls. *)
Variable select_kid : list (Node value payload) -> option Z.
Variable split_function : Z -> M (HiPart value payload) unit.

Definition data_preparation_at (object_path : string) (splitVal : Z)
    : SM (DataMatrix * value * list Z * Z) :=
  (ob <- pickle_load object_path ;;
   or_fail LibraryError (data_preparation ob splitVal))%srv.

Definition message_center_at (message_id object_path : string)
    : SM Description :=
  (ob <- pickle_load object_path ;;
   or_fail LibraryError (message_center message_id ob))%srv.

(** Lines 318-327, 386-395 and 605-614: the figure of a split, by the
    class of the object. *)
Definition split_figure (ob : Stored) (data_matrix : DataMatrix)
    (splitpoint : value) (category_order : Order) (colList : Colours)
    : SM Figure :=
  if isinstance ob "dePDDP"
  then or_fail LibraryError
         (make_scatter_n_hist data_matrix splitpoint
            (split_data_bandwidth_scale ob) category_order colList)
  else or_fail LibraryError
         (make_scatter_n_marginal_scatter data_matrix splitpoint
            category_order colList).

(** [recalculate_after_spchange(obj, split, value)] on an unpickled
    object. *)
Definition edit (fuel : nat) (ob : Stored) (split : Z)
    (splitpoint_value : value) : SM Stored :=
  fun fs =>
    match fst (recalculate_after_spchange select_kid split_function fuel
                 (model ob) split splitpoint_value) with
    | (Ok _, o') => (Done (with_model ob o'), fs)
    | (Raise e, _) => (Failed (EditRaised e), fs)
    | (OutOfFuel, _) => (Cut, fs)
    end.

(** Lines 219-423.  [prop_id] is
    [dash.callback_context.triggered[0]["prop_id"]]; [apply_button], the
    number of clicks, is not used. *)
Definition Splitpoint_Manipulation_Callback (fuel : nat) (prop_id : string)
    (data : string) (curent_figure : Figure) (split_number : Z)
    (maximum_number_splits : Z) (split_marks : Dict)
    (splitpoint_position splitpoint_minimum splitpoint_max : value)
    (apply_button : Z) : SM Outputs :=
  (let callback_ID := before_dot prop_id in
   data <- or_fail JSONDecodeError (json_loads data) ;;
   if String.eqb callback_ID "splitView" then
     path <- item data "new_input_object" ;;
     prepared <- data_preparation_at path split_number ;;
     let '(data_matrix, splitpoint, internal_nodes, number_of_nodes) :=
       prepared in
     path <- item data "new_input_object" ;;
     obj <- pickle_load path ;;
     fig <- split_figure obj data_matrix splitpoint
              (order_by_count data_matrix) (colour_list number_of_nodes) ;;
     sret (mkOutputs fig maximum_number_splits split_marks splitpoint
             (pc1_min data_matrix) (pc1_max data_matrix))
   else if String.eqb callback_ID "splitpoint_Manipulation" then
     sret (mkOutputs
             (update_shapes splitpoint_position (figure_from_dict curent_figure))
             maximum_number_splits split_marks splitpoint_position
             splitpoint_minimum splitpoint_max)
   else if String.eqb callback_ID "splitpoint_Man_apply" then
     path <- item data "new_input_object" ;;
     obj <- pickle_load path ;;
     obj <- edit fuel obj split_number splitpoint_position ;;
     path <- item data "new_input_object" ;;
     pickle_dump path obj ;;;
     path <- item data "new_input_object" ;;
     prepared <- data_preparation_at path split_number ;;
     let '(data_matrix, splitpoint, internal_nodes, number_of_nodes) :=
       prepared in
     path <- item data "new_input_object" ;;
     obj <- pickle_load path ;;
     fig <- split_figure obj data_matrix splitpoint
              (order_by_count data_matrix) (colour_list number_of_nodes) ;;
     sret (mkOutputs fig (Z.of_nat (List.length internal_nodes) - 1)
             (split_marks_of internal_nodes) splitpoint
             (pc1_min data_matrix) (pc1_max data_matrix))
   else
     sret (mkOutputs (figure_from_dict curent_figure)
             maximum_number_splits split_marks splitpoint_position
             splitpoint_minimum splitpoint_max))%srv.

(** Lines 499-571. *)
Definition Cluster_Scatter_Plot (object_path : string) : SM Page :=
  (prepared <- data_preparation_at object_path 0 ;;
   let '(data_matrix, _, _, number_of_nodes) := prepared in
   fig <- or_fail LibraryError
            (scatter_figure data_matrix (order_by_count data_matrix)
               (colour_list number_of_nodes)) ;;
   description <- message_center_at "des:main_cluser" object_path ;;
   sret (ClusterPage description fig))%srv.

(** Lines 575-688. *)
Definition Splitpoint_Manipulation (object_path : string) : SM Page :=
  (prepared <- data_preparation_at object_path 0 ;;
   let '(data_matrix, splitpoint, internal_nodes, number_of_nodes) :=
     prepared in
   obj <- pickle_load object_path ;;
   fig <- split_figure obj data_matrix splitpoint
            (order_by_value data_matrix) (colour_list number_of_nodes) ;;
   description <- message_center_at "des:splitpoitn_man" object_path ;;
   sret (SplitPage description
           (Z.of_nat (List.length internal_nodes) - 1)
           (split_marks_of internal_nodes) fig
           (below (pc1_min data_matrix)) (above (pc1_max data_matrix))
           splitpoint))%srv.

(** Lines 155-198. *)
Definition display_menu (pathname : string) (data : string) : SM Page :=
  (data <- or_fail JSONDecodeError (json_loads data) ;;
   if String.eqb pathname "/clustering_results" then
     path <- item data "new_input_object" ;;
     Cluster_Scatter_Plot path
   else if String.eqb pathname "/splitpoint_manipulation" then
     path <- item data "new_input_object" ;;
     Splitpoint_Manipulation path
   else if String.eqb pathname "/shutdown" then
     shutdown ;;;
     sret ShutdownPage
   else
     path <- item data "input_object" ;;
     div <- Cluster_Scatter_Plot path ;;
     path <- item data "input_object" ;;
     obj <- pickle_load path ;;
     path <- item data "new_input_object" ;;
     pickle_dump path obj ;;;
     sret div)%srv.

(** The files after the server has answered one request; the answer
    itself, or the exception, goes to the browser. *)
Definition serve (fuel : nat) (data : string) (r : request) (fs : Files)
    : Files :=
  match r with
  | Visit pathname => snd (display_menu pathname data fs)
  | Trigger prop_id curent_figure split_number maximum_number_splits
      split_marks splitpoint_position splitpoint_minimum splitpoint_max
      apply_button =>
      snd (Splitpoint_Manipulation_Callback fuel prop_id data curent_figure
             split_number maximum_number_splits split_marks
             splitpoint_position splitpoint_minimum splitpoint_max
             apply_button fs)
  end.

Definition session (fuel : nat) (data : string) (rs : list request)
    (fs : Files) : Files :=
  fold_left (fun fs' r => serve fuel data r fs') rs fs.

Definition is_shutdown (r : request) : bool :=
  match r with
  | Visit pathname => String.eqb pathname "/shutdown"
  | Trigger _ _ _ _ _ _ _ _ _ => false
  end.

End Callbacks.

End Server.


(** ** Reference readings of the specification and measures on traces *)

Section Readings.

Context {value payload : Type}.
Local Abbreviation Node := (Node value payload).
Local Abbreviation Tree := (Tree value payload).
Local Abbreviation HiPart := (HiPart value payload).

Fixpoint insert_id (x : Z) (l : list Z) : list Z :=
  match l with
  | [] => [x]
  | y :: l' => if x <=? y then x :: l else y :: insert_id x l'
  end.

Definition sort_ids (l : list Z) : list Z := fold_right insert_id [] l.

(** The specification's step 1 of section 4.4, word for word: the ids of
    all current non-leaf nodes, sorted ascending; [[0]] if there is none. *)
Definition internal_nodes_spec (t : Tree) : list Z :=
  match sort_ids (non_leaf_ids t) with
  | [] => [0]
  | l => l
  end.

Definition is_split (ev : event) : bool :=
  match ev with EvSplit _ => true | EvSelect _ => false end.

(** Number of calls of [split_function] in a trace. *)
Definition count_splits (tr : list event) : nat :=
  length (filter is_split tr).

(** After the opening selection, every split is followed by one selection
    before anything else happens: select (split select)*, possibly cut
    after a split that raised. *)
Fixpoint split_then_select (tr : list event) : bool :=
  match tr with
  | [] => true
  | EvSplit _ :: [] => true
  | EvSplit _ :: EvSelect _ :: tr' => split_then_select tr'
  | _ => false
  end.

Definition well_sequenced (tr : list event) : bool :=
  match tr with
  | EvSelect _ :: tr' => split_then_select tr'
  | _ => false
  end.

(** The contracts of the two external methods that the theorems below
    assume. *)

(** [select_kid] returns the id of one of the leaves it was given, and
    that leaf is eligible. *)
Definition selector_picks_eligible (select_kid : list Node -> option Z) : Prop :=
  forall ls k, select_kid ls = Some k ->
    exists n, In n ls /\ identifier n = k /\ eligible n = true.

(** [select_kid] returns [None] only when no leaf is eligible. *)
Definition selector_finds_eligible (select_kid : list Node -> option Z) : Prop :=
  forall ls, select_kid ls = None -> forall n, In n ls -> eligible n = false.

(** [split_function] leaves the cluster budget alone. *)
Definition splitter_keeps_budget (split_function : Z -> M HiPart unit) : Prop :=
  forall k o r o', split_function k o = (r, o') ->
    max_clusters_number o' = max_clusters_number o.

(** [split_function] returns or raises. *)
Definition splitter_terminates (split_function : Z -> M HiPart unit) : Prop :=
  forall k o, fst (split_function k o) <> OutOfFuel.

(** [split_function] raises no [IndexError] of its own. *)
Definition splitter_no_index_error (split_function : Z -> M HiPart unit) : Prop :=
  forall k o, fst (split_function k o) <> Raise IndexError.

(** Section 4.3 (b), (c): on an eligible leaf [k] of a tree whose ids do
    not exceed [node_ids], [split_function k] returns normally, appends
    two new leaves [c1 < c2] under [k] and records them as the children of
    [k]; nothing else changes in the dictionary except the data of [k]. *)
Definition splitter_makes_two_leaves (split_function : Z -> M HiPart unit) : Prop :=
  forall k o n,
    get_node (tree o) k = Some n -> is_leaf n = true -> eligible n = true ->
    (forall j, In j (keys (tree o)) -> j <= node_ids o) ->
    exists o' c1 c2 n1 n2 (g : Node -> Node),
      split_function k o = (Ok tt, o')
      /\ nodes (tree o') = update_node k g (nodes (tree o)) ++ [n1; n2]
      /\ root (tree o') = root (tree o)
      /\ (forall m, identifier (g m) = identifier m
                    /\ predecessor (g m) = predecessor m
                    /\ successors (g m) = successors m ++ [c1; c2])
      /\ n1 = mkNode c1 (Some k) [] (data n1)
      /\ n2 = mkNode c2 (Some k) [] (data n2)
      /\ c1 < c2
      /\ contains (tree o) c1 = false
      /\ contains (tree o) c2 = false.



(** The state in which the steps after the pruning loop leave the object,
    when the loop ended in tree [t1] and the edited node is [e]. *)
Definition after_prune (o : HiPart) (t1 : Tree) (e : Z) (v : value) : HiPart :=
  mkHiPart
    (mkTree (update_node e (set_splitpoint v) (nodes (reopen_leaves t1)))
            (root t1))
    (Z.of_nat (length (keys (reopen_leaves t1))) - 1)
    (Z.of_nat (length (leaves (reopen_leaves t1))) + 1)
    (max_clusters_number o).

(** The state when the index is found out of range only at line 1018:
    flags and counters are already written. *)
Definition before_write (o : HiPart) (t1 : Tree) : HiPart :=
  mkHiPart (reopen_leaves t1)
    (Z.of_nat (length (keys (reopen_leaves t1))) - 1)
    (Z.of_nat (length (leaves (reopen_leaves t1))) + 1)
    (max_clusters_number o).

(** A map over the dictionary that touches only the node data keeps the
    shape of the tree. *)
Definition same_shape (f : Node -> Node) : Prop :=
  forall n, identifier (f n) = identifier n
            /\ predecessor (f n) = predecessor n
            /\ successors (f n) = successors n.

(** The node [m] once the loop has split the nodes with ids in [S]: the
    splitter closed the permission flag of each of them. *)
Definition close_split (S : list Z) (m : Node) : Node :=
  if memZ (identifier m) S then set_split_permition false m else m.

(** The loop, started from the pruned object [P0], has reached [o]: the
    nodes of [P0] are all there, those with ids in [S] were split, and
    the nodes [extra] were added under them or under one another. *)
Definition grown_from (P0 : HiPart) (S : list Z) (extra : list Node)
    (o : HiPart) : Prop :=
  hipart_ok o = true
  /\ map bare (nodes (tree o)) =
     map bare (map (close_split S) (nodes (tree P0))) ++ map bare extra
  /\ (forall k, In k S ->
        exists m, In m (nodes (tree P0)) /\ identifier m = k
                  /\ is_leaf m = true /\ eligible m = true)
  /\ (forall x, In x extra ->
        Z.of_nat (length (nodes (tree P0))) <= identifier x
        /\ exists q, predecessor x = Some q
                     /\ (In q S \/ Z.of_nat (length (nodes (tree P0))) <= q))
  /\ max_clusters_number o = max_clusters_number P0
  /\ root (tree o) = root (tree P0).

(** A session: the edits are applied one after the other to the same
    object, whatever the outcome of each. *)
Definition apply_edits (select_kid : list Node -> option Z)
    (split_function : Z -> M HiPart unit) (fuel : nat)
    (edits : list (Z * value)) (o : HiPart) : HiPart :=
  fold_left
    (fun o' ed =>
       snd (fst (recalculate_after_spchange select_kid split_function fuel
                   o' (fst ed) (snd ed))))
    edits o.

End Readings.

(** ** Concrete trees *)

Module Examples.

(** Split points and criteria as integers, the remaining node data as the
    list of sample indices of the node. *)
Definition D : Type := NodeData Z (list Z).
Definition N : Type := Node Z (list Z).
Definition T : Type := Tree Z (list Z).
Definition H : Type := HiPart Z (list Z).

Definition leaf_data (crit : Z) (samples : list Z) : D :=
  mkData (Some crit) true None samples.

Definition inner_data (crit sp : Z) (samples : list Z) : D :=
  mkData (Some crit) false (Some sp) samples.

(** Root 0 split into the leaves 1 and 2. *)
Definition tree_012 : T :=
  mkTree [ mkNode 0 None [1; 2] (inner_data 9 50 [10; 20; 30; 40]);
           mkNode 1 (Some 0) [] (leaf_data 3 [10; 20]);
           mkNode 2 (Some 0) [] (leaf_data 4 [30; 40]) ]
         (Some 0).

Definition obj_012 (budget : Z) : H := mkHiPart tree_012 2 3 budget.

(** A root that was never split. *)
Definition tree_0 : T :=
  mkTree [ mkNode 0 None [] (mkData (Some 9) false None [10; 20; 30; 40]) ]
         (Some 0).

Definition obj_0 : H := mkHiPart tree_0 7 5 4.

(** Ids that are not [0 .. n-1]: root 0 with the leaves 3 and 4. *)
Definition tree_034 : T :=
  mkTree [ mkNode 0 None [3; 4] (inner_data 9 50 [10; 20; 30; 40]);
           mkNode 3 (Some 0) [] (leaf_data 3 [10; 20]);
           mkNode 4 (Some 0) [] (leaf_data 4 [30; 40]) ]
         (Some 0).

(** Root 0 split into 1 and 2, both split again: 1 into 3, 4 and
    2 into 5, 6. *)
Definition tree_7 : T :=
  mkTree [ mkNode 0 None [1; 2] (inner_data 9 50 [10; 20; 30; 40]);
           mkNode 1 (Some 0) [3; 4] (inner_data 3 15 [10; 20]);
           mkNode 2 (Some 0) [5; 6] (inner_data 4 35 [30; 40]);
           mkNode 3 (Some 1) [] (leaf_data 1 [10]);
           mkNode 4 (Some 1) [] (leaf_data 1 [20]);
           mkNode 5 (Some 2) [] (leaf_data 1 [30]);
           mkNode 6 (Some 2) [] (leaf_data 1 [40]) ]
         (Some 0).

Definition obj_7 (budget : Z) : H := mkHiPart tree_7 6 7 budget.

(** A ranking for [select_kid_spec]: the larger split criterion wins. *)
Definition better (m best : N) : bool :=
  match split_criterion (data m), split_criterion (data best) with
  | Some a, Some b => b <? a
  | _, _ => false
  end.

Definition select_kid : list N -> option Z := select_kid_spec better.

(** A child's data: the samples below (left) or not below (right) the
    parent's split point; its criterion is the number of its samples,
    and it cannot be split when it holds fewer than two. *)
Definition calculate_node_data (d : D) (right : bool) (colour : Z) : D :=
  let sp := match splitpoint d with Some s => s | None => 0 end in
  let mine := filter (fun x => if right then sp <=? x else x <? sp)
                     (other_data d) in
  let n := Z.of_nat (length mine) in
  mkData (if n <? 2 then None else Some n) true
         (match mine with x :: y :: _ => Some y | _ => None end) mine.

Definition split_function : Z -> M H unit :=
  split_function_spec calculate_node_data.

(** The root alone, before any split, with a budget of four clusters. *)
Definition obj_root : H :=
  mkHiPart
    (mkTree [ mkNode 0 None []
                (mkData (Some 7) true (Some 28) [10; 20; 25; 30; 40; 50; 60]) ]
            (Some 0))
    0 1 4.

(** The clustering that the loop builds from [obj_root]. *)
Definition obj_built : H :=
  snd (fst (partial_predict select_kid split_function 4 obj_root)).

End Examples.
(** ** Readings used by the further statements on pruning *)

Section MoreReadings.

Context {value payload : Type}.
Local Abbreviation Node := (Node value payload).
Local Abbreviation Tree := (Tree value payload).

(** Whether node [e + 1] is the sibling of the edited node [e]: on a
    HiPart tree it is the one node above [e] that the pruning loop can
    keep. *)
Definition later_sibling (t : Tree) (e : Z) (ne : Node) : bool :=
  match get_node t (e + 1) with
  | Some n =>
      negb (is_none (predecessor ne))
      && opt_eqb (predecessor n) (predecessor ne)
  | None => false
  end.

(** The value of [selected_node] when the loop of [partial_predict] was
    left: the last selection recorded in the trace. *)
Fixpoint last_selection (tr : list event) (current : option Z) : option Z :=
  match tr with
  | [] => current
  | EvSelect s :: tr' => last_selection tr' s
  | EvSplit _ :: tr' => last_selection tr' current
  end.

(** A computation on the tree that adds no key to the dictionary,
    whatever its outcome. *)
Definition shrinks {A : Type} (m : M Tree A) : Prop :=
  forall t r t', m t = (r, t') -> incl (keys t') (keys t).

End MoreReadings.

(** ** A server for the examples *)

Module ServerExamples.

Import Ascii String.
Import Server.
Local Open Scope string_scope.
Local Open Scope list_scope.

(** A library for the examples: the data matrix of a split is the list
    of the samples of its node, a figure is a data matrix with the
    position of the split line, and the temporary files are [in.inv],
    [new.inv] and [fig.png]. *)
Definition paths : Dict :=
  [ ("input_object", "in.inv");
    ("new_input_object", "new.inv");
    ("figure_path", "fig.png") ].

Definition preparation (ob : Stored Z (list Z)) (split : Z)
    : option (list Z * Z * list Z * Z) :=
  let t := tree (model ob) in
  match py_index (internal_nodes_of t) split with
  | Some e =>
      match get_node t e with
      | Some n =>
          Some (other_data (data n),
                match splitpoint (data n) with Some v => v | None => 0%Z end,
                internal_nodes_of t,
                Z.of_nat (List.length (nodes t)))
      | None => None
      end
  | None => None
  end.

Definition library : Library Z (list Z) := {|
  DataMatrix := list Z;
  Figure := list Z * Z;
  Description := string;
  Order := nat;
  Colours := Z;
  json_loads := fun s => if String.eqb s "tmp" then Some paths else None;
  data_preparation := preparation;
  message_center := fun message_id _ => Some message_id;
  pc1_min := fun dm => fold_right Z.min (hd 0%Z dm) dm;
  pc1_max := fun dm => fold_right Z.max (hd 0%Z dm) dm;
  below := Z.pred;
  above := Z.succ;
  order_by_count := fun dm => List.length dm;
  order_by_value := fun dm => List.length dm;
  colour_list := fun n => n;
  scatter_figure := fun dm _ _ => Some (dm, 0%Z);
  make_scatter_n_hist := fun dm sp _ _ _ => Some (dm, sp);
  make_scatter_n_marginal_scatter := fun dm sp _ _ => Some (dm, sp);
  figure_from_dict := fun f => f;
  update_shapes := fun v f => (fst f, v);
  shutdown := fun fs => (Failed LibraryError, fs)
|}.

(** The seven-node clustering, as a [dePDDP] object, in both files. *)
Definition object : Stored Z (list Z) :=
  mkStored ["dePDDP"; "object"] 1%Z (Examples.obj_7 4).

Definition files : Files Z (list Z) :=
  fun p =>
    if String.eqb p "in.inv" || String.eqb p "new.inv"
    then Some object else None.

End ServerExamples.


(** * Proofs *)

(** ** Lists, indices and the monad *)

Lemma list_eqb_eq (a b : list Z) : list_eqb a b = true <-> a = b.
Proof.
  revert b; induction a as [|x a IH]; intros [|y b]; simpl; split;
    try congruence; try reflexivity.
  - rewrite andb_true_iff, Z.eqb_eq, IH. intros [-> ->]; reflexivity.
  - intros E; injection E as -> ->.
    rewrite andb_true_iff, Z.eqb_eq, IH; auto.
Qed.

Lemma memZ_In (x : Z) (l : list Z) : memZ x l = true <-> In x l.
Proof.
  unfold memZ. rewrite existsb_exists. split.
  - intros (y & Hy & E). apply Z.eqb_eq in E. subst; assumption.
  - intros H. exists x. split; [assumption | apply Z.eqb_refl].
Qed.

Lemma memZ_false (x : Z) (l : list Z) : memZ x l = false <-> ~ In x l.
Proof.
  rewrite <- memZ_In. destruct (memZ x l); split; congruence.
Qed.

Lemma ascending_cons (x : Z) (l : list Z) :
  ascending (x :: l) = true <->
  (forall y, In y l -> x < y) /\ ascending l = true.
Proof.
  simpl. rewrite andb_true_iff, forallb_forall.
  split; intros [H1 H2]; split; auto; intros y Hy.
  - apply Z.ltb_lt; auto.
  - apply Z.ltb_lt; auto.
Qed.

Lemma ascending_NoDup (l : list Z) : ascending l = true -> NoDup l.
Proof.
  induction l as [|x l IH]; intros H; [constructor|].
  apply ascending_cons in H as [H1 H2].
  constructor; auto. intros Hin. specialize (H1 x Hin). lia.
Qed.

Lemma ascending_app (a b : list Z) :
  ascending (a ++ b) = true <->
  ascending a = true /\ ascending b = true
  /\ (forall x y, In x a -> In y b -> x < y).
Proof.
  induction a as [|x a IH].
  - simpl. split; [intros H; repeat split; auto; intros ? ? []|tauto].
  - change ((x :: a) ++ b) with (x :: (a ++ b)).
    rewrite !ascending_cons, IH. split.
    + intros (H1 & H2 & H3 & H4). repeat split; auto.
      * intros y Hy; apply H1, in_or_app; auto.
      * intros u v [<-|Hu] Hv; [apply H1, in_or_app; auto | auto].
    + intros ((H1 & H2) & H3 & H4). repeat split; auto.
      * intros y Hy; apply in_app_or in Hy as [Hy|Hy]; [auto|].
        apply H4; simpl; auto.
      * intros u v Hu Hv; apply H4; simpl; auto.
Qed.

Lemma ascending_seq (a n : nat) : ascending (map Z.of_nat (seq a n)) = true.
Proof.
  revert a; induction n as [|n IH]; intros a; [reflexivity|].
  cbn [seq map]. apply ascending_cons. split; [|apply IH].
  intros y Hy. apply in_map_iff in Hy as (i & <- & Hi).
  apply in_seq in Hi. lia.
Qed.

Lemma ascending_range (n : nat) : ascending (py_range n) = true.
Proof. apply ascending_seq. Qed.

Lemma py_index_Some_range {A : Type} (l : list A) (i : Z) :
  (exists a, py_index l i = Some a) <->
  - Z.of_nat (length l) <= i < Z.of_nat (length l).
Proof.
  unfold py_index. split.
  - intros [v H].
    destruct (0 <=? i) eqn:E0.
    + apply Z.leb_le in E0.
      assert (Hn : nth_error l (Z.to_nat i) <> None) by congruence.
      apply nth_error_Some in Hn. lia.
    + apply Z.leb_gt in E0.
      destruct (- Z.of_nat (length l) <=? i) eqn:E1; [|discriminate].
      apply Z.leb_le in E1. lia.
  - intros H.
    destruct (0 <=? i) eqn:E0.
    + apply Z.leb_le in E0.
      destruct (nth_error l (Z.to_nat i)) eqn:E; [eauto|].
      apply nth_error_None in E. lia.
    + apply Z.leb_gt in E0.
      destruct (- Z.of_nat (length l) <=? i) eqn:E1.
      * destruct (nth_error l (Z.to_nat (Z.of_nat (length l) + i))) eqn:E;
          [eauto|]. apply nth_error_None in E. lia.
      * apply Z.leb_gt in E1. lia.
Qed.

Lemma py_index_None_range {A : Type} (l : list A) (i : Z) :
  py_index l i = None <->
  ~ (- Z.of_nat (length l) <= i < Z.of_nat (length l)).
Proof.
  rewrite <- py_index_Some_range.
  destruct (py_index l i) as [v|]; split; intros H.
  - discriminate.
  - exfalso; apply H; eauto.
  - intros [v Hv]; discriminate.
  - reflexivity.
Qed.

Lemma py_index_nat {A : Type} (l : list A) (i : nat) :
  py_index l (Z.of_nat i) = nth_error l i.
Proof.
  unfold py_index.
  destruct (0 <=? Z.of_nat i) eqn:E; [|apply Z.leb_gt in E; lia].
  now rewrite Nat2Z.id.
Qed.

Lemma for_each_app {S A : Type} (l1 l2 : list A) (body : A -> M S unit) s :
  for_each (l1 ++ l2) body s =
  bind (for_each l1 body) (fun _ => for_each l2 body) s.
Proof.
  revert s; induction l1 as [|x l1 IH]; intros s; simpl.
  - reflexivity.
  - unfold bind in *. destruct (body x s) as [[[]| |] s']; try reflexivity.
    apply IH.
Qed.

Lemma for_each_ext {S A : Type} (l : list A) (f g : A -> M S unit) :
  (forall x s, In x l -> f x s = g x s) ->
  forall s, for_each l f s = for_each l g s.
Proof.
  induction l as [|x l IH]; intros H s; simpl; [reflexivity|].
  unfold bind. rewrite H by (simpl; auto).
  destruct (g x s) as [[[]| |] s']; try reflexivity.
  apply IH. intros; apply H; simpl; auto.
Qed.

Lemma for_each_map {S A B : Type} (h : A -> B) (l : list A)
    (body : B -> M S unit) s :
  for_each (map h l) body s = for_each l (fun x => body (h x)) s.
Proof.
  revert s; induction l as [|x l IH]; intros s; simpl; [reflexivity|].
  unfold bind. destruct (body (h x) s) as [[[]| |] s']; try reflexivity.
  apply IH.
Qed.

(** ** Lookups in the node dictionary *)

Section TreeFacts.

Context {value payload : Type}.
Local Abbreviation Node := (Node value payload).
Local Abbreviation Tree := (Tree value payload).
Local Abbreviation HiPart := (HiPart value payload).

Lemma find_id_In (ns : list Node) (k : Z) (n : Node) :
  find (has_id k) ns = Some n -> In n ns /\ identifier n = k.
Proof.
  intros H. apply find_some in H as [H1 H2]. split; [assumption|].
  now apply Z.eqb_eq in H2.
Qed.

Lemma get_node_In (t : Tree) (k : Z) (n : Node) :
  get_node t k = Some n -> In n (nodes t) /\ identifier n = k.
Proof. apply find_id_In. Qed.

Lemma existsb_id_In (ns : list Node) (k : Z) :
  existsb (has_id k) ns = true <-> In k (map identifier ns).
Proof.
  rewrite existsb_exists, in_map_iff. unfold has_id.
  split; intros (n & H1 & H2).
  - exists n. apply Z.eqb_eq in H2. auto.
  - exists n. split; [assumption|]. now apply Z.eqb_eq.
Qed.

Lemma contains_In (t : Tree) (k : Z) :
  contains t k = true <-> In k (keys t).
Proof. apply existsb_id_In. Qed.

Lemma find_id_None (ns : list Node) (k : Z) :
  find (has_id k) ns = None <-> ~ In k (map identifier ns).
Proof.
  rewrite <- existsb_id_In. induction ns as [|n ns IH]; simpl.
  - split; congruence.
  - destruct (has_id k n); simpl; [split; congruence | exact IH].
Qed.

Lemma get_node_None (t : Tree) (k : Z) :
  get_node t k = None <-> contains t k = false.
Proof.
  unfold get_node, contains. rewrite find_id_None, <- existsb_id_In.
  destruct (existsb (has_id k) (nodes t)); split; congruence.
Qed.

Lemma get_node_contains (t : Tree) (k : Z) (n : Node) :
  get_node t k = Some n -> contains t k = true.
Proof.
  intros H. destruct (contains t k) eqn:E; [reflexivity|].
  apply get_node_None in E. congruence.
Qed.

Lemma contains_get_node (t : Tree) (k : Z) :
  contains t k = true -> exists n, get_node t k = Some n.
Proof.
  intros H. destruct (get_node t k) eqn:E; [eauto|].
  apply get_node_None in E. congruence.
Qed.

Lemma find_id_unique (ns : list Node) (n : Node) :
  NoDup (map identifier ns) -> In n ns ->
  find (has_id (identifier n)) ns = Some n.
Proof.
  induction ns as [|m ns IH]; intros Hnd Hin; [destruct Hin|].
  simpl in *. inversion Hnd as [|? ? Hm Hnd']; subst.
  destruct Hin as [->|Hin].
  - unfold has_id. now rewrite Z.eqb_refl.
  - unfold has_id at 1. destruct (identifier m =? identifier n) eqn:E.
    + apply Z.eqb_eq in E. exfalso. apply Hm. rewrite E.
      now apply in_map.
    + auto.
Qed.

Lemma same_id_same_node (ns : list Node) (n m : Node) :
  NoDup (map identifier ns) -> In n ns -> In m ns ->
  identifier n = identifier m -> n = m.
Proof.
  intros Hnd Hn Hm E.
  pose proof (find_id_unique ns n Hnd Hn) as F1.
  pose proof (find_id_unique ns m Hnd Hm) as F2.
  rewrite E in F1. congruence.
Qed.

Lemma insert_by_identifier_In (n m : Node) (l : list Node) :
  In m (insert_by_identifier n l) <-> m = n \/ In m l.
Proof.
  induction l as [|x l IH]; simpl.
  - intuition congruence.
  - destruct (identifier n <=? identifier x); simpl.
    + intuition congruence.
    + rewrite IH. intuition congruence.
Qed.

Lemma sorted_by_identifier_In (m : Node) (l : list Node) :
  In m (sorted_by_identifier l) <-> In m l.
Proof.
  induction l as [|x l IH]; simpl; [tauto|].
  rewrite insert_by_identifier_In, IH. intuition congruence.
Qed.

Lemma insert_id_sorted (x : Z) (l : list Z) :
  ascending (x :: l) = true -> insert_id x l = x :: l.
Proof.
  destruct l as [|y l]; [reflexivity|].
  intros H. apply ascending_cons in H as [H _].
  simpl. specialize (H y (or_introl eq_refl)).
  destruct (x <=? y) eqn:E; [reflexivity|]. apply Z.leb_gt in E. lia.
Qed.

Lemma sort_ids_sorted (l : list Z) : ascending l = true -> sort_ids l = l.
Proof.
  induction l as [|x l IH]; intros H; [reflexivity|].
  simpl. pose proof H as H'. apply ascending_cons in H' as [_ H2].
  rewrite IH by assumption. now apply insert_id_sorted.
Qed.

Lemma ascending_filter_ids (P : Node -> bool) (ns : list Node) :
  ascending (map identifier ns) = true ->
  ascending (map identifier (filter P ns)) = true.
Proof.
  induction ns as [|n ns IH]; intros H; [reflexivity|].
  simpl in H. change (ascending (identifier n :: map identifier ns) = true) in H.
  apply ascending_cons in H as [H1 H2].
  simpl. destruct (P n); [|auto].
  change (ascending (identifier n :: map identifier (filter P ns)) = true).
  apply ascending_cons. split; [|auto].
  intros y Hy. apply H1.
  apply in_map_iff in Hy as (m & <- & Hm).
  apply filter_In in Hm as [Hm _]. now apply in_map.
Qed.

Lemma filter_map_ids (P : Z -> bool) (ns : list Node) :
  filter P (map identifier ns) =
  map identifier (filter (fun n => P (identifier n)) ns).
Proof.
  induction ns as [|n ns IH]; simpl; [reflexivity|].
  destruct (P (identifier n)); simpl; now rewrite IH.
Qed.

Lemma contiguous_keys (t : Tree) :
  contiguous t = true -> keys t = py_range (length (nodes t)).
Proof. intros H. now apply list_eqb_eq. Qed.

Lemma contiguous_ascending (t : Tree) :
  contiguous t = true -> ascending (keys t) = true.
Proof.
  intros H. rewrite (contiguous_keys t H). apply ascending_range.
Qed.

(** With unique ids, an id is the id of a leaf exactly when its node is a
    leaf. *)
Lemma leaf_id_is_leaf (t : Tree) (n : Node) :
  NoDup (keys t) -> In n (nodes t) ->
  memZ (identifier n)
       (map identifier (sorted_by_identifier (leaves t))) = is_leaf n.
Proof.
  intros Hnd Hn. destruct (is_leaf n) eqn:E.
  - apply memZ_In, in_map, sorted_by_identifier_In, filter_In. auto.
  - apply memZ_false. intros Hin.
    apply in_map_iff in Hin as (m & Hid & Hm).
    apply sorted_by_identifier_In, filter_In in Hm as [Hm Hl].
    assert (m = n) by (eapply same_id_same_node; eauto).
    subst m. congruence.
Qed.

Lemma internal_nodes_of_contiguous (t : Tree) :
  contiguous t = true ->
  filter (fun i =>
      negb (memZ i (map identifier (sorted_by_identifier (leaves t)))))
    (py_range (length (keys t)))
  = non_leaf_ids t.
Proof.
  intros H. pose proof (contiguous_keys t H) as K.
  unfold keys at 1. rewrite length_map, <- K. unfold keys.
  rewrite filter_map_ids. unfold non_leaf_ids. f_equal.
  apply filter_ext_in. intros n Hn. f_equal.
  apply leaf_id_is_leaf; [|assumption].
  apply ascending_NoDup, contiguous_ascending, H.
Qed.

End TreeFacts.

(** ** The steps of [recalculate_after_spchange] before the loop *)

Section PrunePhase.

Context {value payload : Type}.
Local Abbreviation Node := (Node value payload).
Local Abbreviation Tree := (Tree value payload).
Local Abbreviation HiPart := (HiPart value payload).

Lemma prune_phase_unfold (split : Z) (v : value) (o : HiPart) :
  prune_phase split v o =
  match prune_loop (internal_nodes_of (tree o)) split (tree o) with
  | (Ok _, t1) =>
      match py_index (internal_nodes_of (tree o)) split with
      | None => (Raise IndexError, before_write o t1)
      | Some e =>
          match get_node (reopen_leaves t1) e with
          | None => (Raise AttributeError, before_write o t1)
          | Some _ => (Ok tt, after_prune o t1 e v)
          end
      end
  | (Raise x, t1) => (Raise x, with_tree o t1)
  | (OutOfFuel, t1) => (OutOfFuel, with_tree o t1)
  end.
Proof.
  unfold prune_phase, bind, on_tree, get, ret, modify. simpl.
  destruct (prune_loop (internal_nodes_of (tree o)) split (tree o))
    as [[[]| |] t1]; try reflexivity.
  simpl. unfold index.
  destruct (py_index (internal_nodes_of (tree o)) split) as [e|];
    [|reflexivity].
  unfold ret, getattr. simpl.
  destruct (get_node (reopen_leaves t1) e); reflexivity.
Qed.

Lemma prune_phase_Ok (split : Z) (v : value) (o o' : HiPart) :
  prune_phase split v o = (Ok tt, o') ->
  exists e t1 ne,
    py_index (internal_nodes_of (tree o)) split = Some e
    /\ prune_loop (internal_nodes_of (tree o)) split (tree o) = (Ok tt, t1)
    /\ get_node (reopen_leaves t1) e = Some ne
    /\ o' = after_prune o t1 e v.
Proof.
  rewrite prune_phase_unfold.
  destruct (prune_loop (internal_nodes_of (tree o)) split (tree o))
    as [[[]| |] t1]; try discriminate.
  destruct (py_index (internal_nodes_of (tree o)) split) as [e|];
    [|discriminate].
  destruct (get_node (reopen_leaves t1) e) as [ne|] eqn:G; [|discriminate].
  intros E. injection E as <-. exists e, t1, ne. auto.
Qed.

Lemma find_update_node (k : Z) (f : Node -> Node) (ns : list Node) (j : Z) :
  (forall n, identifier (f n) = identifier n) ->
  find (has_id j) (update_node k f ns) =
  option_map (fun n => if has_id k n then f n else n) (find (has_id j) ns).
Proof.
  intros Hf. induction ns as [|n ns IH]; simpl; [reflexivity|].
  assert (E : has_id j (if has_id k n then f n else n) = has_id j n).
  { unfold has_id at 1 3. destruct (has_id k n); [now rewrite Hf | reflexivity]. }
  rewrite E. destruct (has_id j n); [reflexivity | exact IH].
Qed.

Lemma keys_update_node (k : Z) (f : Node -> Node) (ns : list Node) :
  (forall n, identifier (f n) = identifier n) ->
  map identifier (update_node k f ns) = map identifier ns.
Proof.
  intros Hf. unfold update_node. rewrite map_map. apply map_ext.
  intros n. destruct (has_id k n); [apply Hf | reflexivity].
Qed.

Lemma filter_map_pres {A : Type} (P : A -> bool) (f : A -> A) (l : list A) :
  (forall x, P (f x) = P x) ->
  filter P (map f l) = map f (filter P l).
Proof.
  intros H. induction l as [|x l IH]; simpl; [reflexivity|].
  rewrite H. destruct (P x); simpl; now rewrite IH.
Qed.

Lemma is_leaf_reopen (n : Node) : is_leaf (reopen_leaf n) = is_leaf n.
Proof.
  unfold reopen_leaf. destruct (is_leaf n) eqn:E; [|assumption].
  destruct (negb (is_none (split_criterion (data n)))); assumption.
Qed.

Lemma is_leaf_update (k : Z) (f : Node -> Node) (n : Node) :
  (forall m, successors (f m) = successors m) ->
  is_leaf (if has_id k n then f n else n) = is_leaf n.
Proof.
  intros Hf. destruct (has_id k n); [|reflexivity].
  unfold is_leaf. now rewrite Hf.
Qed.

Lemma reopen_leaf_open (n : Node) :
  is_leaf n = true -> split_criterion (data n) <> None ->
  split_permition (data (reopen_leaf n)) = true.
Proof.
  intros L C. unfold reopen_leaf. rewrite L.
  destruct (split_criterion (data n)); [reflexivity | congruence].
Qed.

Lemma split_criterion_reopen (n : Node) :
  split_criterion (data (reopen_leaf n)) = split_criterion (data n).
Proof.
  unfold reopen_leaf. destruct (is_leaf n); [|reflexivity].
  destruct (negb (is_none (split_criterion (data n)))); reflexivity.
Qed.

(** What holds of the object when the steps before the loop ended
    normally. *)
Lemma after_prune_facts (o : HiPart) (t1 : Tree) (e : Z) (v : value) (ne : Node) :
  get_node (reopen_leaves t1) e = Some ne ->
  let o' := after_prune o t1 e v in
  (forall n, In n (leaves (tree o')) ->
     split_criterion (data n) <> None -> split_permition (data n) = true)
  /\ node_ids o' = Z.of_nat (length (nodes (tree o'))) - 1
  /\ cluster_color o' = Z.of_nat (length (leaves (tree o'))) + 1
  /\ (exists n, get_node (tree o') e = Some n /\ splitpoint (data n) = Some v)
  /\ max_clusters_number o' = max_clusters_number o.
Proof.
  intros G o'. unfold o', after_prune. cbn [tree node_ids cluster_color
    max_clusters_number nodes]. repeat split.
  - intros n Hn Hc. unfold leaves in Hn. cbn [nodes] in Hn.
    apply filter_In in Hn as [Hn L].
    unfold update_node, reopen_leaves in Hn. cbn [nodes] in Hn.
    apply in_map_iff in Hn as (m & <- & Hm).
    apply in_map_iff in Hm as (m0 & <- & Hm0).
    assert (L0 : is_leaf m0 = true).
    { rewrite is_leaf_update in L by reflexivity.
      now rewrite is_leaf_reopen in L. }
    destruct (has_id e (reopen_leaf m0)); cbn.
    + apply reopen_leaf_open; [assumption|].
      cbn in Hc. now rewrite split_criterion_reopen in Hc.
    + apply reopen_leaf_open; [assumption|].
      now rewrite split_criterion_reopen in Hc.
  - unfold keys, update_node, reopen_leaves. cbn [nodes].
    now rewrite !length_map.
  - unfold leaves. cbn [nodes]. unfold update_node.
    rewrite filter_map_pres, length_map; [reflexivity|].
    intros n. now apply is_leaf_update.
  - unfold get_node in *. cbn [nodes].
    rewrite find_update_node by reflexivity. rewrite G. cbn.
    apply find_id_In in G as [_ G]. unfold has_id. rewrite G, Z.eqb_refl.
    eexists; split; reflexivity.
Qed.

End PrunePhase.

(** ** Well-formed trees *)

Section WellFormed.

Context {value payload : Type}.
Local Abbreviation Node := (Node value payload).
Local Abbreviation Tree := (Tree value payload).
Local Abbreviation HiPart := (HiPart value payload).

Lemma opt_eqb_eq (a b : option Z) : opt_eqb a b = true <-> a = b.
Proof.
  destruct a as [x|], b as [y|]; simpl; split; try congruence.
  - intros H; apply Z.eqb_eq in H; congruence.
  - intros H; injection H as ->; apply Z.eqb_refl.
Qed.

Lemma opt_eqb_neq (a b : option Z) : opt_eqb a b = false <-> a <> b.
Proof.
  rewrite <- opt_eqb_eq. destruct (opt_eqb a b); split; congruence.
Qed.

Lemma is_none_true {A : Type} (o : option A) : is_none o = true <-> o = None.
Proof. destruct o; simpl; split; congruence. Qed.

Lemma child_ok_iff (t : Tree) (n : Node) :
  child_ok t n = true <->
  exists p, predecessor n = Some p /\ p < identifier n /\ In p (keys t).
Proof.
  unfold child_ok. destruct (predecessor n) as [p|].
  - rewrite andb_true_iff, Z.ltb_lt, contains_In. split.
    + intros [H1 H2]. exists p. auto.
    + intros (q & E & H1 & H2). injection E as <-. auto.
  - split; [discriminate | intros (q & E & _); discriminate].
Qed.

Lemma wf_tree_WF (t : Tree) : wf_tree t = true <-> WF t.
Proof.
  unfold wf_tree, WF, root_ok.
  rewrite !andb_true_iff, forallb_forall.
  split.
  - intros [[H1 H2] H3]. repeat split; [| assumption |].
    + destruct (nodes t) as [|n0 rest] eqn:E; [discriminate|].
      rewrite !andb_true_iff, forallb_forall in H1.
      destruct H1 as [[Ha Hb] Hc].
      exists n0, rest. repeat split.
      * now apply is_none_true.
      * now apply opt_eqb_eq.
      * intros n Hn. apply child_ok_iff. auto.
    + intros n Hn. apply list_eqb_eq. now apply H3.
  - intros [(n0 & rest & E & Ha & Hb & Hc) [H2 H3]].
    repeat split; [| assumption |].
    + rewrite E, !andb_true_iff, forallb_forall. repeat split.
      * now apply is_none_true.
      * now apply opt_eqb_eq.
      * intros n Hn. apply child_ok_iff. auto.
    + intros n Hn. apply list_eqb_eq. now apply H3.
Qed.

Lemma WF_NoDup (t : Tree) : WF t -> NoDup (keys t).
Proof. intros (_ & H & _). now apply ascending_NoDup. Qed.

Lemma WF_get_node (t : Tree) (n : Node) :
  WF t -> In n (nodes t) -> get_node t (identifier n) = Some n.
Proof.
  intros W Hn. apply find_id_unique; [|assumption]. now apply WF_NoDup.
Qed.

(** In a well-formed tree a node with a parent link is not the first
    entry, and its parent is an older node of the tree. *)
Lemma WF_parent (t : Tree) (n : Node) (p : Z) :
  WF t -> In n (nodes t) -> predecessor n = Some p ->
  p < identifier n /\ exists np, get_node t p = Some np /\ identifier np = p.
Proof.
  intros ((n0 & rest & E & Ha & Hb & Hc) & H2 & H3) Hn Hp.
  rewrite E in Hn. destruct Hn as [<-|Hn]; [congruence|].
  destruct (Hc n Hn) as (q & Hq & Hlt & Hin).
  assert (q = p) by congruence. subst q. split; [assumption|].
  apply contains_In, contains_get_node in Hin as [np Hnp].
  exists np. split; [assumption|]. now apply get_node_In in Hnp.
Qed.

Lemma WF_first_least (t : Tree) (n0 : Node) (rest : list Node) (k : Z) :
  WF t -> nodes t = n0 :: rest -> In k (keys t) -> identifier n0 <= k.
Proof.
  intros (_ & H2 & _) E Hk. unfold keys in *. rewrite E in *.
  change (ascending (identifier n0 :: map identifier rest) = true) in H2.
  apply ascending_cons in H2 as [H2 _].
  destruct Hk as [<-|Hk]; [lia|]. specialize (H2 k Hk). lia.
Qed.

Lemma keys_bare (ns : list Node) :
  map identifier (map bare ns) = map identifier ns.
Proof. rewrite map_map. reflexivity. Qed.

Lemma children_ids_bare (ns : list Node) (k : Z) :
  children_ids (map bare ns) k = children_ids ns k.
Proof.
  unfold children_ids. induction ns as [|n ns IH]; simpl; [reflexivity|].
  change (has_parent k (bare n)) with (has_parent k n).
  destruct (has_parent k n); simpl; now rewrite IH.
Qed.

Lemma find_bare (ns : list Node) (k : Z) :
  find (has_id k) (map bare ns) = option_map bare (find (has_id k) ns).
Proof.
  induction ns as [|n ns IH]; simpl; [reflexivity|].
  change (has_id k (bare n)) with (has_id k n).
  destruct (has_id k n); [reflexivity | exact IH].
Qed.

Lemma bare_eq_fields (n m : Node) :
  bare n = bare m ->
  identifier n = identifier m /\ predecessor n = predecessor m
  /\ data n = data m.
Proof. unfold bare. intros E. injection E. auto. Qed.

Lemma node_eq (n m : Node) :
  bare n = bare m -> successors n = successors m -> n = m.
Proof.
  destruct n, m. unfold bare. simpl. intros E ->. injection E as -> -> ->.
  reflexivity.
Qed.

Lemma doomed_bare (e : Z) (pe : option Z) (n : Node) :
  doomed e pe (bare n) = doomed e pe n.
Proof. reflexivity. Qed.

Lemma children_ids_nil (ns : list Node) (k : Z) :
  children_ids ns k = [] <->
  forall m, In m ns -> predecessor m <> Some k.
Proof.
  unfold children_ids. split.
  - intros H m Hm Hp. apply map_eq_nil in H.
    assert (Hin : In m (filter (has_parent k) ns)).
    { apply filter_In. split; [assumption|]. now apply opt_eqb_eq. }
    rewrite H in Hin. destruct Hin.
  - intros H. destruct (filter (has_parent k) ns) as [|m l] eqn:E;
      [reflexivity|].
    assert (Hin : In m (filter (has_parent k) ns)) by (rewrite E; simpl; auto).
    apply filter_In in Hin as [Hm Hp]. apply opt_eqb_eq in Hp.
    now destruct (H m Hm).
Qed.

Lemma children_ids_filter (P : Node -> bool) (ns : list Node) (k : Z) :
  children_ids (filter P ns) k =
  map identifier (filter P (filter (has_parent k) ns)).
Proof.
  unfold children_ids. f_equal.
  induction ns as [|n ns IH]; simpl; [reflexivity|].
  destruct (P n) eqn:EP, (has_parent k n) eqn:EH; simpl;
    rewrite ?EP, ?EH, IH; reflexivity.
Qed.

Lemma filter_neq_notin (x : Z) (l : list Z) :
  ~ In x l -> filter (fun y => negb (y =? x)) l = l.
Proof.
  induction l as [|y l IH]; intros H; simpl; [reflexivity|].
  destruct (y =? x) eqn:E; simpl.
  - apply Z.eqb_eq in E. exfalso. apply H. simpl. auto.
  - f_equal. apply IH. intros Hin. apply H. simpl. auto.
Qed.

Lemma remove_first_filter (x : Z) (l : list Z) :
  NoDup l -> remove_first x l = filter (fun y => negb (y =? x)) l.
Proof.
  induction l as [|y l IH]; intros H; simpl; [reflexivity|].
  inversion H as [|? ? Hy Hl]; subst.
  destruct (y =? x) eqn:E; simpl.
  - apply Z.eqb_eq in E. subst y. symmetry. now apply filter_neq_notin.
  - f_equal. auto.
Qed.

End WellFormed.

(** ** Removing a leaf from a well-formed tree *)

Section RemoveLeaf.

Context {value payload : Type}.
Local Abbreviation Node := (Node value payload).
Local Abbreviation Tree := (Tree value payload).
Local Abbreviation HiPart := (HiPart value payload).

Lemma expand_queue_nil (fuel : nat) (t : Tree) : expand_queue fuel t [] = [].
Proof. destruct fuel; reflexivity. Qed.

Lemma expand_tree_leaf (t : Tree) (k : Z) (n : Node) :
  get_node t k = Some n -> successors n = [] -> expand_tree t k = [k].
Proof.
  intros G S. unfold expand_tree.
  destruct (nodes t) as [|m ns] eqn:E.
  - unfold get_node in G. rewrite E in G. discriminate.
  - simpl. unfold successors_of. rewrite G, S. simpl.
    now rewrite expand_queue_nil.
Qed.

Lemma map_bare_update (k : Z) (f : Node -> Node) (ns : list Node) :
  (forall n, bare (f n) = bare n) ->
  map bare (update_node k f ns) = map bare ns.
Proof.
  intros Hf. unfold update_node. rewrite map_map. apply map_ext.
  intros n. destruct (has_id k n); [apply Hf | reflexivity].
Qed.

Lemma children_ids_drop (ns : list Node) (k j : Z) :
  children_ids (filter (fun m => negb (has_id k m)) ns) j =
  filter (fun c => negb (c =? k)) (children_ids ns j).
Proof.
  rewrite children_ids_filter. unfold children_ids.
  now rewrite filter_map_ids.
Qed.

Lemma children_ids_ascending (ns : list Node) (j : Z) :
  ascending (map identifier ns) = true ->
  ascending (children_ids ns j) = true.
Proof. apply ascending_filter_ids. Qed.

Lemma remove_leaf (t : Tree) (k p : Z) (n : Node) :
  WF t -> get_node t k = Some n -> predecessor n = Some p ->
  children_ids (nodes t) k = [] ->
  exists t',
    remove_node k t = (Ok tt, t')
    /\ WF t'
    /\ root t' = root t
    /\ map bare (nodes t') =
       filter (fun m => negb (has_id k m)) (map bare (nodes t)).
Proof.
  intros W G Hp Hc.
  pose proof W as ((n0 & rest & E & Ha & Hb & Hrest) & Hasc & Hsucc).
  destruct (get_node_In t k n G) as [Hn Hid].
  assert (Sn : successors n = []) by (rewrite (Hsucc n Hn), Hid; exact Hc).
  assert (Hk0 : identifier n0 <> k).
  { intros E0. assert (get_node t k = Some n0) as G0.
    { unfold get_node. rewrite E. simpl. unfold has_id.
      rewrite E0, Z.eqb_refl. reflexivity. }
    congruence. }
  set (P := fun m : Node => negb (has_id k m)).
  set (upd := fun m : Node => if has_id p m then drop_successor k m else m).
  assert (Hupd_id : forall m, identifier (upd m) = identifier m).
  { intros m. unfold upd. destruct (has_id p m); reflexivity. }
  assert (Hupd_pred : forall m, predecessor (upd m) = predecessor m).
  { intros m. unfold upd. destruct (has_id p m); reflexivity. }
  assert (Hrun : remove_node k t =
                 (Ok tt, mkTree (filter P (map upd (nodes t))) (root t))).
  { unfold remove_node. rewrite G, Hp, (expand_tree_leaf t k n G Sn).
    f_equal. f_equal.
    - apply filter_ext. intros m. unfold P, has_id. simpl.
      now rewrite orb_false_r.
    - rewrite Hb. simpl. rewrite orb_false_r.
      destruct (identifier n0 =? k) eqn:E0; [|reflexivity].
      apply Z.eqb_eq in E0. contradiction. }
  assert (Hbare : map bare (filter P (map upd (nodes t))) =
                  filter P (map bare (nodes t))).
  { rewrite <- (map_bare_update p (drop_successor k) (nodes t)) by reflexivity.
    unfold update_node. fold upd.
    symmetry. apply filter_map_pres. reflexivity. }
  assert (Hnokid : forall m, In m (nodes t) -> predecessor m <> Some k).
  { now apply children_ids_nil. }
  assert (Hkeys : map identifier (filter P (map upd (nodes t))) =
                  filter (fun c => negb (c =? k)) (keys t)).
  { rewrite <- keys_bare, Hbare. unfold keys.
    rewrite <- (keys_bare (nodes t)), filter_map_ids. reflexivity. }
  eexists. split; [exact Hrun|]. split; [|split; [reflexivity | exact Hbare]].
  unfold WF. cbn [nodes root]. unfold keys. cbn [nodes]. rewrite Hkeys.
  repeat split.
  - exists (upd n0), (filter P (map upd rest)). repeat split.
    + rewrite E. simpl. unfold P at 1, has_id. rewrite Hupd_id.
      destruct (identifier n0 =? k) eqn:E0; [|reflexivity].
      apply Z.eqb_eq in E0. contradiction.
    + now rewrite Hupd_pred.
    + now rewrite Hupd_id.
    + intros m' Hm'. apply filter_In in Hm' as [Hm' HP].
      apply in_map_iff in Hm' as (m & <- & Hm).
      destruct (Hrest m Hm) as (q & Hq & Hlt & Hin).
      exists q. rewrite Hupd_pred, Hupd_id. repeat split; auto.
      apply filter_In. split; [assumption|].
      destruct (q =? k) eqn:Eq; [|reflexivity].
      apply Z.eqb_eq in Eq. subst q.
      exfalso. apply (Hnokid m); [rewrite E; simpl; auto | assumption].
  - rewrite <- Hkeys. apply ascending_filter_ids.
    rewrite map_map. erewrite map_ext; [exact Hasc|]. intros; apply Hupd_id.
  - intros m' Hm'. apply filter_In in Hm' as [Hm' HP].
    apply in_map_iff in Hm' as (m & <- & Hm).
    rewrite <- children_ids_bare, Hbare. unfold P at 1.
    rewrite children_ids_drop, children_ids_bare, Hupd_id.
    unfold upd. destruct (has_id p m) eqn:Epm; cbn [successors drop_successor].
    + rewrite (Hsucc m Hm). apply remove_first_filter.
      apply ascending_NoDup, children_ids_ascending. exact Hasc.
    + rewrite (Hsucc m Hm). symmetry. apply filter_neq_notin.
      intros Hin. unfold children_ids in Hin.
      apply in_map_iff in Hin as (c & Hc1 & Hc2).
      apply filter_In in Hc2 as [Hc2 Hc3]. apply opt_eqb_eq in Hc3.
      assert (c = n).
      { pose proof (WF_get_node t c W Hc2) as Gc. rewrite Hc1 in Gc.
        congruence. }
      subst c. rewrite Hp in Hc3. injection Hc3 as Hc3.
      unfold has_id in Epm. rewrite Hc3, Z.eqb_refl in Epm. discriminate.
Qed.

End RemoveLeaf.

(** ** The pruning loop on a well-formed tree *)

Section Scan.

Context {value payload : Type}.
Local Abbreviation Node := (Node value payload).
Local Abbreviation Tree := (Tree value payload).
Local Abbreviation HiPart := (HiPart value payload).

(** One pass of the loop body, when the key is a node with a parent. *)
Lemma prune_key_run (inodes : list Z) (split e k : Z) (t : Tree)
    (n ne : Node) :
  WF t -> py_index inodes split = Some e ->
  get_node t e = Some ne -> get_node t k = Some n ->
  predecessor n <> None ->
  prune_key inodes split k t =
  if doomed e (predecessor ne) n then remove_node k t else (Ok tt, t).
Proof.
  intros W Hi Ge Gk Hroot.
  destruct (get_node_In t k n Gk) as [Hn Hid].
  destruct (get_node_In t e ne Ge) as [Hne Hide].
  unfold prune_key, bind, index, get, ret. rewrite Hi. cbn.
  unfold doomed. rewrite Hid.
  destruct (k >? e); [|reflexivity]. cbn.
  rewrite Gk, Ge. cbn. unfold is_root.
  destruct (predecessor ne) as [p|] eqn:Epe; cbn; [|reflexivity].
  destruct (WF_parent t ne p W Hne Epe) as [_ (np & Gp & Hidp)].
  unfold parent. rewrite Ge, Epe, Gp. cbn.
  destruct (predecessor n) as [q|] eqn:Eq; [|congruence].
  destruct (WF_parent t n q W Hn Eq) as [_ (nq & Gq & Hidq)].
  rewrite Gk, Eq, Gq. cbn. rewrite Hidp, Hidq, (Z.eqb_sym p q).
  destruct (q =? p); reflexivity.
Qed.

Lemma for_each_single {S A : Type} (x : A) (body : A -> M S unit) s s' :
  body x s = (Ok tt, s') -> for_each [x] body s = (Ok tt, s').
Proof. intros H. simpl. unfold bind. now rewrite H. Qed.

Lemma filter_has_id_notin (k : Z) (l : list Node) :
  ~ In k (map identifier l) ->
  filter (fun m => negb (has_id k m)) (map bare l) = map bare l.
Proof.
  induction l as [|m l IH]; intros H; simpl; [reflexivity|].
  change (has_id k (bare m)) with (has_id k m).
  unfold has_id at 1. destruct (identifier m =? k) eqn:E.
  - apply Z.eqb_eq in E. exfalso. apply H. simpl. auto.
  - simpl. f_equal. apply IH. intros Hin. apply H. simpl. auto.
Qed.

Lemma In_bare (m : Node) (l l' : list Node) :
  map bare l = map bare l' -> In m l -> exists m', In m' l' /\ bare m' = bare m.
Proof.
  intros E Hm. apply (in_map bare) in Hm. rewrite E in Hm.
  apply in_map_iff in Hm as (m' & H1 & H2). eauto.
Qed.

Lemma get_node_of_bare (t : Tree) (l : list Node) (m : Node) :
  map bare (nodes t) = map bare l ->
  NoDup (map identifier l) -> In m l ->
  exists m', get_node t (identifier m) = Some m' /\ bare m' = bare m.
Proof.
  intros E Hnd Hm.
  pose proof (find_bare (nodes t) (identifier m)) as F.
  rewrite E, find_bare, (find_id_unique l m Hnd Hm) in F.
  unfold get_node. destruct (find (has_id (identifier m)) (nodes t)) as [m'|];
    [|discriminate].
  cbn in F. exists m'. split; [reflexivity | congruence].
Qed.

(** The loop over the keys of [suf], last key first, on a tree whose
    dictionary is [n0 :: pre ++ suf]. *)
Lemma prune_scan (inodes : list Z) (split e : Z) (t0 : Tree)
    (ne0 n0 : Node) (rest0 : list Node) :
  WF t0 -> py_index inodes split = Some e ->
  get_node t0 e = Some ne0 -> nodes t0 = n0 :: rest0 ->
  forall suf pre, rest0 = pre ++ suf ->
  exists t1,
    for_each (rev (map identifier suf)) (prune_key inodes split) t0
      = (Ok tt, t1)
    /\ WF t1
    /\ root t1 = root t0
    /\ map bare (nodes t1) =
       map bare (n0 :: pre ++
                 filter (fun n => negb (doomed e (predecessor ne0) n)) suf).
Proof.
  intros W0 Hi Ge0 E0.
  set (keep := fun n : Node => negb (doomed e (predecessor ne0) n)).
  destruct (get_node_In t0 e ne0 Ge0) as [Hne0 Hide0].
  assert (Hkeep_e : keep ne0 = true).
  { unfold keep, doomed. rewrite Hide0.
    destruct (e >? e) eqn:E; [|reflexivity].
    apply Z.gtb_lt in E. lia. }
  pose proof W0 as ((n0' & rest' & E0' & Ha & Hb & Hrest) & Hasc & Hsucc).
  rewrite E0 in E0'. injection E0' as <- <-.
  induction suf as [|n suf IH]; intros pre Epre.
  - exists t0. cbn. rewrite app_nil_r, E0. subst rest0. rewrite app_nil_r.
    auto.
  - assert (Epre' : rest0 = (pre ++ [n]) ++ suf)
      by (rewrite <- app_assoc; exact Epre).
    destruct (IH (pre ++ [n]) Epre') as (t1 & Hrun & W1 & Hr1 & Hb1).
    set (L := n0 :: (pre ++ [n]) ++ filter keep suf) in *.
    assert (Hkeys0 : keys t0 =
              identifier n0 :: map identifier pre ++
              identifier n :: map identifier suf).
    { unfold keys. rewrite E0, Epre. cbn. now rewrite map_app. }
    rewrite Hkeys0 in Hasc.
    apply ascending_cons in Hasc as [Hlt0 Hasc].
    apply ascending_app in Hasc as (Hasc_pre & Hasc_suf & Hlt_pre).
    apply ascending_cons in Hasc_suf as [Hlt_n Hasc_suf].
    assert (HinL : forall m, In m L -> In m (nodes t0)).
    { intros m [<-|Hm]; rewrite E0; [simpl; auto|]. right.
      rewrite Epre'. apply in_app_or in Hm as [Hm|Hm];
        apply in_or_app; [auto|]. right.
      now apply filter_In in Hm as [Hm _]. }
    assert (HndL : NoDup (map identifier L)).
    { apply ascending_NoDup. unfold L. cbn.
      apply ascending_cons. split.
      - intros y Hy. apply Hlt0. rewrite <- app_assoc, map_app in Hy.
        apply in_app_or in Hy as [Hy|Hy]; apply in_or_app; [auto|].
        right. cbn in Hy. destruct Hy as [<-|Hy]; [simpl; auto|].
        right. apply in_map_iff in Hy as (m & <- & Hm).
        apply filter_In in Hm as [Hm _]. now apply in_map.
      - rewrite <- app_assoc, map_app. apply ascending_app. repeat split.
        + exact Hasc_pre.
        + cbn. apply ascending_cons. split.
          * intros y Hy. apply Hlt_n.
            apply in_map_iff in Hy as (m & <- & Hm).
            apply filter_In in Hm as [Hm _]. now apply in_map.
          * now apply ascending_filter_ids.
        + intros x y Hx Hy. apply Hlt_pre; [assumption|].
          cbn in Hy. destruct Hy as [<-|Hy]; [simpl; auto|].
          right. apply in_map_iff in Hy as (m & <- & Hm).
          apply filter_In in Hm as [Hm _]. now apply in_map. }
    assert (HnL : In n L).
    { unfold L. right. apply in_or_app. left. apply in_or_app.
      right. simpl. auto. }
    assert (Hne0L : In ne0 L).
    { rewrite E0 in Hne0. destruct Hne0 as [<-|Hne0]; [left; reflexivity|].
      right. rewrite Epre' in Hne0.
      apply in_app_or in Hne0 as [H|H]; apply in_or_app; [auto|].
      right. apply filter_In. auto. }
    destruct (get_node_of_bare t1 L n Hb1 HndL HnL) as (n1 & Gn1 & Bn1).
    destruct (get_node_of_bare t1 L ne0 Hb1 HndL Hne0L) as (ne1 & Ge1 & Be1).
    rewrite Hide0 in Ge1.
    destruct (bare_eq_fields _ _ Bn1) as (Bid & Bpred & _).
    destruct (bare_eq_fields _ _ Be1) as (_ & Bepred & _).
    assert (Hn_rest : In n rest0)
      by (rewrite Epre; apply in_or_app; right; simpl; auto).
    destruct (Hrest n Hn_rest) as (q & Hq & Hqlt & _).
    assert (Hstep : prune_key inodes split (identifier n) t1 =
                    if doomed e (predecessor ne0) n
                    then remove_node (identifier n) t1 else (Ok tt, t1)).
    { rewrite (prune_key_run inodes split e (identifier n) t1 n1 ne1 W1 Hi Ge1 Gn1)
        by congruence.
      rewrite Bepred. unfold doomed. now rewrite Bid, Bpred. }
    cbn [map rev]. 
    destruct (doomed e (predecessor ne0) n) eqn:Ed.
    + (* the node goes: it is a leaf by now *)
      assert (Hgt : identifier n > e).
      { unfold doomed in Ed. apply andb_true_iff in Ed as [Ed _].
        apply Z.gtb_lt in Ed. lia. }
      assert (Hleaf : children_ids (nodes t1) (identifier n) = []).
      { apply children_ids_nil. intros m Hm Hpm.
        destruct (In_bare m (nodes t1) L Hb1 Hm) as (m0 & Hm0 & Bm0).
        destruct (bare_eq_fields _ _ Bm0) as (_ & Bm0p & _).
        rewrite <- Bm0p in Hpm.
        destruct (WF_parent t0 m0 (identifier n) W0 (HinL m0 Hm0) Hpm)
          as [Hlt _].
        destruct Hm0 as [<-|Hm0]; [congruence|].
        apply in_app_or in Hm0 as [Hm0|Hm0].
        - apply in_app_or in Hm0 as [Hm0|Hm0].
          + specialize (Hlt_pre (identifier m0) (identifier n)
                          (in_map identifier _ _ Hm0) (or_introl eq_refl)).
            lia.
          + destruct Hm0 as [<-|[]]. lia.
        - apply filter_In in Hm0 as [Hm0 Hk].
          unfold keep, doomed in Hk.
          assert (Hgt0 : (identifier m0 >? e) = true) by (apply Z.gtb_lt; lia).
          rewrite Hgt0 in Hk. cbn in Hk.
          apply negb_true_iff, orb_false_iff in Hk as [Hk1 Hk2].
          apply negb_false_iff, opt_eqb_eq in Hk2.
          rewrite Hpm in Hk2. symmetry in Hk2.
          destruct (WF_parent t0 ne0 (identifier n) W0 Hne0 Hk2) as [Hlt' _].
          lia. }
      destruct (remove_leaf t1 (identifier n) q n1 W1 Gn1
                  ltac:(congruence) Hleaf)
        as (t2 & Hrm & W2 & Hr2 & Hb2).
      exists t2. split; [|split; [assumption|split; [congruence|]]].
      * rewrite for_each_app. unfold bind at 1. rewrite Hrun.
        apply for_each_single. now rewrite Hstep.
      * rewrite Hb2, Hb1. unfold L. cbn [filter].
        fold keep. unfold keep at 2. rewrite Ed. cbn [negb].
        cbn [map]. cbn [filter].
        change (has_id (identifier n) (bare n0)) with (has_id (identifier n) n0).
        unfold has_id at 1.
        assert (Hn0 : (identifier n0 =? identifier n) = false).
        { apply Z.eqb_neq.
          specialize (Hlt0 (identifier n)
            ltac:(apply in_or_app; right; simpl; auto)). lia. }
        rewrite Hn0. cbn [negb]. f_equal.
        rewrite <- app_assoc, !map_app, !filter_app. cbn [map filter app].
        change (has_id (identifier n) (bare n)) with (has_id (identifier n) n).
        unfold has_id at 2. rewrite Z.eqb_refl. cbn [negb app].
        rewrite !filter_has_id_notin; [reflexivity| |].
        -- intros Hin. apply in_map_iff in Hin as (m & Hmid & Hm).
           apply filter_In in Hm as [Hm _].
           specialize (Hlt_n (identifier m) (in_map identifier _ _ Hm)). lia.
        -- intros Hin.
           specialize (Hlt_pre (identifier n) (identifier n) Hin
                         (or_introl eq_refl)). lia.
    + exists t1. split; [|split; [assumption|split; [assumption|]]].
      * rewrite for_each_app. unfold bind at 1. rewrite Hrun.
        apply for_each_single. now rewrite Hstep.
      * rewrite Hb1. unfold L. cbn [filter]. fold keep.
        unfold keep at 2. rewrite Ed. cbn [negb].
        now rewrite <- app_assoc.
Qed.

End Scan.

(** ** The pruning loop as a whole *)

Section PruneLoop.

Context {value payload : Type}.
Local Abbreviation Node := (Node value payload).
Local Abbreviation Tree := (Tree value payload).
Local Abbreviation HiPart := (HiPart value payload).

Lemma map_nth_seq0 (l : list Z) :
  map (fun j => nth j l 0) (seq 0 (length l)) = l.
Proof.
  induction l as [|x l IH]; [reflexivity|].
  cbn [length seq map nth]. f_equal.
  rewrite <- seq_shift, map_map. exact IH.
Qed.

Lemma map_nth_seq1 (x : Z) (l : list Z) :
  map (fun j => nth j (x :: l) 0) (seq 1 (length l)) = l.
Proof.
  rewrite <- seq_shift, map_map. apply map_nth_seq0.
Qed.

(** The indices [len-1, ..., 1] visit the keys after the first one, last
    key first. *)
Lemma range_down_keys (ks : list Z) :
  map (fun i => nth (Z.to_nat i) ks 0)
      (py_range_down (Z.of_nat (length ks) - 1))
  = rev (tl ks).
Proof.
  unfold py_range_down. rewrite map_rev, map_map. f_equal.
  destruct ks as [|x l]; [reflexivity|].
  cbn [length tl].
  replace (Z.to_nat (Z.of_nat (S (length l)) - 1)) with (length l) by lia.
  transitivity (map (fun j => nth j (x :: l) 0) (seq 1 (length l)));
    [|apply map_nth_seq1].
  apply map_ext. intros j. now rewrite Nat2Z.id.
Qed.

Lemma In_range_down (i hi : Z) :
  In i (py_range_down hi) -> 1 <= i <= hi.
Proof.
  unfold py_range_down. rewrite <- in_rev, in_map_iff.
  intros (j & <- & Hj). apply in_seq in Hj. lia.
Qed.

Lemma prune_loop_keys (inodes : list Z) (split : Z) (t : Tree) :
  prune_loop inodes split t =
  for_each (rev (tl (keys t))) (prune_key inodes split) t.
Proof.
  unfold prune_loop, bind, get. cbn.
  rewrite <- range_down_keys, for_each_map.
  apply for_each_ext. intros i s Hi. apply In_range_down in Hi.
  unfold prune_step, bind, index.
  assert (Hpi : py_index (keys t) i = nth_error (keys t) (Z.to_nat i))
    by (rewrite <- py_index_nat; f_equal; lia).
  rewrite Hpi.
  destruct (nth_error (keys t) (Z.to_nat i)) as [k|] eqn:E.
  - cbn. now rewrite (nth_error_nth _ _ 0 E).
  - apply nth_error_None in E. lia.
Qed.

Lemma keys_tl (t : Tree) : tl (keys t) = map identifier (tl (nodes t)).
Proof. unfold keys. destruct (nodes t); reflexivity. Qed.

(** On a well-formed tree the loop ends normally, in a well-formed tree
    that holds exactly the nodes that are not doomed. *)
Lemma prune_loop_wf (inodes : list Z) (split e : Z) (t : Tree) (ne : Node) :
  WF t -> py_index inodes split = Some e -> get_node t e = Some ne ->
  exists t1,
    prune_loop inodes split t = (Ok tt, t1)
    /\ WF t1
    /\ root t1 = root t
    /\ map bare (nodes t1) =
       map bare (filter (fun n => negb (doomed e (predecessor ne) n))
                        (nodes t)).
Proof.
  intros W Hi Ge.
  pose proof W as ((n0 & rest & E & _) & _).
  destruct (prune_scan inodes split e t ne n0 rest W Hi Ge E rest []
              eq_refl) as (t1 & Hrun & W1 & Hr & Hb).
  exists t1. split; [|split; [assumption|split; [assumption|]]].
  - rewrite prune_loop_keys, keys_tl, E. exact Hrun.
  - rewrite Hb, E. cbn [app filter].
    assert (Hle : identifier n0 <= e).
    { apply (WF_first_least t n0 rest e W E).
      apply contains_In. eapply get_node_contains; eauto. }
    unfold doomed at 2.
    destruct (identifier n0 >? e) eqn:Eg; [|reflexivity].
    apply Z.gtb_lt in Eg. lia.
Qed.

(** Membership in the pruned tree. *)
Lemma pruned_contains (e : Z) (pe : option Z) (t t1 : Tree) (k : Z) (nk : Node) :
  WF t ->
  map bare (nodes t1) =
    map bare (filter (fun n => negb (doomed e pe n)) (nodes t)) ->
  get_node t k = Some nk ->
  contains t1 k = negb (doomed e pe nk).
Proof.
  intros W Hb Gk.
  destruct (get_node_In t k nk Gk) as [Hn Hid].
  assert (Hkeys : keys t1 =
    map identifier (filter (fun n => negb (doomed e pe n)) (nodes t))).
  { unfold keys. now rewrite <- keys_bare, Hb, keys_bare. }
  destruct (negb (doomed e pe nk)) eqn:Ed.
  - apply contains_In. rewrite Hkeys, <- Hid. apply in_map, filter_In. auto.
  - destruct (contains t1 k) eqn:Ec; [|reflexivity].
    apply contains_In in Ec. rewrite Hkeys in Ec.
    apply in_map_iff in Ec as (m & Hm1 & Hm2).
    apply filter_In in Hm2 as [Hm2 Hm3].
    assert (m = nk).
    { pose proof (WF_get_node t m W Hm2). congruence. }
    subst m. congruence.
Qed.

End PruneLoop.

(** ** The recompute loop *)

Section PredictLoop.

Context {value payload : Type}.
Local Abbreviation Node := (Node value payload).
Local Abbreviation Tree := (Tree value payload).
Local Abbreviation HiPart := (HiPart value payload).

Variable select_kid : list Node -> option Z.
Variable split_function : Z -> M HiPart unit.

Lemma predict_loop_step (fuel : nat) (k found : Z) (o o1 : HiPart) :
  (found <? max_clusters_number o) = true ->
  split_function k o = (Ok tt, o1) ->
  predict_loop select_kid split_function (S fuel) (Some k) found o =
  let s := select_kid (leaves (tree o1)) in
  let (r, tr) := predict_loop select_kid split_function fuel s (found + 1) o1 in
  (r, EvSplit k :: EvSelect s :: tr).
Proof. intros H1 H2. cbn [predict_loop]. now rewrite H1, H2. Qed.

Lemma predict_loop_stop (fuel : nat) (selected : option Z) (found : Z)
    (o : HiPart) :
  (found <? max_clusters_number o) = false ->
  predict_loop select_kid split_function fuel selected found o =
  ((Ok tt, o), []).
Proof.
  intros H. destruct fuel, selected; cbn [predict_loop]; now rewrite ?H.
Qed.

Lemma predict_loop_none (fuel : nat) (found : Z) (o : HiPart) :
  predict_loop select_kid split_function fuel None found o = ((Ok tt, o), []).
Proof. destruct fuel; reflexivity. Qed.

Lemma partial_predict_state (fuel : nat) (o : HiPart) :
  fst (partial_predict select_kid split_function fuel o) =
  fst (predict_loop select_kid split_function fuel
         (select_kid (leaves (tree o)))
         (Z.of_nat (length (leaves (tree o)))) o).
Proof.
  unfold partial_predict.
  destruct (predict_loop _ _ _ _ _ _) as [[r o'] tr]. reflexivity.
Qed.

Lemma predict_loop_bound :
  splitter_keeps_budget split_function ->
  splitter_terminates split_function ->
  forall fuel selected found o,
    (Z.to_nat (max_clusters_number o - found) <= fuel)%nat ->
    let run := predict_loop select_kid split_function fuel selected found o in
    fst (fst run) <> OutOfFuel
    /\ Z.of_nat (count_splits (snd run))
       <= Z.max 0 (max_clusters_number o - found)
    /\ split_then_select (snd run) = true
    /\ max_clusters_number (snd (fst run)) = max_clusters_number o.
Proof.
  intros Hb Ht. induction fuel as [|fuel IH]; intros selected found o Hf;
    (destruct selected as [k|]; cbn;
     [|repeat split; try discriminate; lia]).
  - destruct (found <? max_clusters_number o) eqn:E.
    + apply Z.ltb_lt in E. lia.
    + cbn. repeat split; try discriminate; lia.
  - destruct (found <? max_clusters_number o) eqn:E;
      [|cbn; repeat split; try discriminate; lia].
    apply Z.ltb_lt in E.
    destruct (split_function k o) as [r o1] eqn:Es.
    pose proof (Hb k o r o1 Es) as Hmax.
    pose proof (Ht k o) as Hterm. rewrite Es in Hterm. cbn in Hterm.
    destruct r as [[]|x|]; [| |congruence].
    + specialize (IH (select_kid (leaves (tree o1))) (found + 1) o1).
      destruct (predict_loop select_kid split_function fuel
                  (select_kid (leaves (tree o1))) (found + 1) o1)
        as [[r' o'] tr] eqn:Er.
      cbn in *. rewrite Hmax in IH.
      destruct IH as (H1 & H2 & H3 & H4); [lia|].
      repeat split; try assumption.
      unfold count_splits in *. cbn. lia.
    + cbn. repeat split; try discriminate; try assumption.
      unfold count_splits. cbn. lia.
Qed.

Lemma predict_loop_no_index_error :
  splitter_no_index_error split_function ->
  forall fuel selected found o,
    fst (fst (predict_loop select_kid split_function fuel selected found o))
    <> Raise IndexError.
Proof.
  intros Hn. induction fuel as [|fuel IH]; intros selected found o;
    (destruct selected as [k|]; cbn; [|discriminate]);
    (destruct (found <? max_clusters_number o); [|discriminate]).
  - discriminate.
  - pose proof (Hn k o) as Hk.
    destruct (split_function k o) as [[[]|x|] o1]; cbn in *.
    + specialize (IH (select_kid (leaves (tree o1))) (found + 1) o1).
      destruct (predict_loop select_kid split_function fuel
                  (select_kid (leaves (tree o1))) (found + 1) o1)
        as [[r' o'] tr]. exact IH.
    + exact Hk.
    + discriminate.
Qed.


End PredictLoop.

(** ** The reference splitter and selector meet the contracts *)

Section ReferenceSplitter.

Context {value payload : Type}.
Local Abbreviation Node := (Node value payload).
Local Abbreviation Tree := (Tree value payload).
Local Abbreviation HiPart := (HiPart value payload).

Variable calc : NodeData value payload -> bool -> Z -> NodeData value payload.

Lemma with_tree_same (o : HiPart) : with_tree o (tree o) = o.
Proof. destruct o; reflexivity. Qed.

Lemma create_node_cases (c : Z) (p : Z) (d : NodeData value payload) (t : Tree) :
  create_node c (Some p) d t =
  if contains t c then (Raise DuplicatedNodeIdError, t)
  else if contains t p
       then (Ok tt,
             mkTree (update_node p (add_successor c) (nodes t)
                       ++ [mkNode c (Some p) [] d]) (root t))
       else (Raise NodeIDAbsentError, t).
Proof. reflexivity. Qed.

(** The splitter, step by step. *)
Lemma split_function_spec_unfold (k : Z) (o : HiPart) :
  split_function_spec calc k o =
  match get_node (tree o) k with
  | None => (Raise AttributeError, o)
  | Some node =>
      let t1 := mkTree (update_node k (set_split_permition false)
                          (nodes (tree o))) (root (tree o)) in
      let d := data (set_split_permition false node) in
      match create_node (node_ids o + 1) (Some k)
              (calc d false (cluster_color o)) t1 with
      | (Ok _, t2) =>
          match create_node (node_ids o + 2) (Some k)
                  (calc d true (cluster_color o + 1)) t2 with
          | (Ok _, t3) =>
              (Ok tt, mkHiPart t3 (node_ids o + 2) (cluster_color o + 2)
                               (max_clusters_number o))
          | (Raise x, t3) =>
              (Raise x, mkHiPart t3 (node_ids o) (cluster_color o)
                                 (max_clusters_number o))
          | (OutOfFuel, t3) =>
              (OutOfFuel, mkHiPart t3 (node_ids o) (cluster_color o)
                                   (max_clusters_number o))
          end
      | (Raise x, t2) =>
          (Raise x, mkHiPart t2 (node_ids o) (cluster_color o)
                             (max_clusters_number o))
      | (OutOfFuel, t2) =>
          (OutOfFuel, mkHiPart t2 (node_ids o) (cluster_color o)
                               (max_clusters_number o))
      end
  end.
Proof.
  unfold split_function_spec, bind, on_tree, get, ret, modify, getattr, raise.
  cbn. destruct (get_node (tree o) k) as [node|]; cbn;
    [|now rewrite with_tree_same].
  destruct (create_node _ _ _ _) as [[[]|x|] t2]; cbn; try reflexivity.
  destruct (create_node _ _ _ t2) as [[[]|x|] t3]; cbn; reflexivity.
Qed.

Lemma contains_update_node (k c : Z) (f : Node -> Node) (ns : list Node) (r : option Z) :
  (forall n, identifier (f n) = identifier n) ->
  contains (mkTree (update_node k f ns) r) c = contains (mkTree ns r) c.
Proof.
  intros Hf. unfold contains. cbn [nodes].
  destruct (existsb (has_id c) ns) eqn:E.
  - apply existsb_id_In. rewrite keys_update_node by assumption.
    now apply existsb_id_In.
  - destruct (existsb (has_id c) (update_node k f ns)) eqn:E'; [|reflexivity].
    apply existsb_id_In in E'. rewrite keys_update_node in E' by assumption.
    apply existsb_id_In in E'. congruence.
Qed.

Lemma contains_tree (t : Tree) (c : Z) :
  contains (mkTree (nodes t) (root t)) c = contains t c.
Proof. reflexivity. Qed.

Lemma contains_app (ns ms : list Node) (r : option Z) (c : Z) :
  contains (mkTree (ns ++ ms) r) c =
  contains (mkTree ns r) c || contains (mkTree ms r) c.
Proof. unfold contains. cbn [nodes]. apply existsb_app. Qed.

Lemma contains_single (n : Node) (r : option Z) (c : Z) :
  contains (mkTree [n] r) c = (identifier n =? c).
Proof. unfold contains, has_id. cbn. apply orb_false_r. Qed.

(** The tree after the two children [c1], [c2] were added under [k]. *)
Lemma split_function_spec_run (k : Z) (o : HiPart) :
  let t0 := tree o in
  let t1 := mkTree (update_node k (set_split_permition false) (nodes t0))
                   (root t0) in
  let c1 := node_ids o + 1 in
  let c2 := node_ids o + 2 in
  split_function_spec calc k o =
  match get_node t0 k with
  | None => (Raise AttributeError, o)
  | Some node =>
      let d := data (set_split_permition false node) in
      let t2 := mkTree (update_node k (add_successor c1) (nodes t1)
                          ++ [mkNode c1 (Some k) [] (calc d false (cluster_color o))])
                       (root t0) in
      let t3 := mkTree (update_node k (add_successor c2) (nodes t2)
                          ++ [mkNode c2 (Some k) [] (calc d true (cluster_color o + 1))])
                       (root t0) in
      if contains t0 c1
      then (Raise DuplicatedNodeIdError,
            mkHiPart t1 (node_ids o) (cluster_color o) (max_clusters_number o))
      else if contains t0 c2
      then (Raise DuplicatedNodeIdError,
            mkHiPart t2 (node_ids o) (cluster_color o) (max_clusters_number o))
      else (Ok tt,
            mkHiPart t3 (node_ids o + 2) (cluster_color o + 2)
                     (max_clusters_number o))
  end.
Proof.
  cbv zeta. rewrite split_function_spec_unfold.
  destruct (get_node (tree o) k) as [node|] eqn:G; [|reflexivity].
  cbv zeta. rewrite create_node_cases.
  rewrite !contains_update_node, !contains_tree by reflexivity.
  destruct (contains (tree o) (node_ids o + 1)) eqn:E1; [reflexivity|].
  rewrite (get_node_contains _ _ _ G). cbn beta iota.
  rewrite create_node_cases. cbn [nodes root].
  rewrite !contains_app, !contains_update_node, !contains_tree by reflexivity.
  rewrite (get_node_contains _ _ _ G). cbn [orb].
  rewrite !contains_single. cbn [identifier].
  assert (E12 : (node_ids o + 1 =? node_ids o + 2) = false)
    by (apply Z.eqb_neq; lia).
  rewrite E12, !orb_false_r.
  destruct (contains (tree o) (node_ids o + 2)) eqn:E2; reflexivity.
Qed.

Ltac run_splitter k o :=
  rewrite split_function_spec_run; cbv zeta;
  destruct (get_node (tree o) k) as [?node|] eqn:?G;
  [destruct (contains (tree o) (node_ids o + 1)) eqn:?E1;
   [|destruct (contains (tree o) (node_ids o + 2)) eqn:?E2]|].

Lemma reference_keeps_budget :
  splitter_keeps_budget (split_function_spec calc).
Proof.
  intros k o r o'. run_splitter k o; intros H; injection H as <- <-;
    reflexivity.
Qed.

Lemma reference_terminates :
  splitter_terminates (split_function_spec calc).
Proof.
  intros k o. run_splitter k o; discriminate.
Qed.

Lemma reference_no_index_error :
  splitter_no_index_error (split_function_spec calc).
Proof.
  intros k o. run_splitter k o; discriminate.
Qed.

Lemma update_node_app (k : Z) (f : Node -> Node) (l1 l2 : list Node) :
  update_node k f (l1 ++ l2) = update_node k f l1 ++ update_node k f l2.
Proof. apply map_app. Qed.

Lemma update_node_other (k : Z) (f : Node -> Node) (n : Node) :
  identifier n <> k -> update_node k f [n] = [n].
Proof.
  intros H. unfold update_node, has_id. cbn.
  destruct (identifier n =? k) eqn:E; [|reflexivity].
  apply Z.eqb_eq in E. contradiction.
Qed.

Lemma update_node_twice (k : Z) (f g : Node -> Node) (ns : list Node) :
  (forall n, identifier (f n) = identifier n) ->
  update_node k g (update_node k f ns) = update_node k (fun n => g (f n)) ns.
Proof.
  intros Hf. unfold update_node. rewrite map_map. apply map_ext.
  intros n. destruct (has_id k n) eqn:E.
  - assert (E' : has_id k (f n) = true) by (unfold has_id in *; now rewrite Hf).
    now rewrite E'.
  - now rewrite E.
Qed.

(** The tree after a successful split. *)
Lemma split_function_spec_ok (k : Z) (o : HiPart) (node : Node) :
  get_node (tree o) k = Some node ->
  contains (tree o) (node_ids o + 1) = false ->
  contains (tree o) (node_ids o + 2) = false ->
  let d := data (set_split_permition false node) in
  split_function_spec calc k o =
  (Ok tt,
   mkHiPart
     (mkTree
        (update_node k
           (fun n => add_successor (node_ids o + 2)
                       (add_successor (node_ids o + 1)
                          (set_split_permition false n)))
           (nodes (tree o))
         ++ [mkNode (node_ids o + 1) (Some k) []
               (calc d false (cluster_color o));
             mkNode (node_ids o + 2) (Some k) []
               (calc d true (cluster_color o + 1))])
        (root (tree o)))
     (node_ids o + 2) (cluster_color o + 2) (max_clusters_number o)).
Proof.
  intros G E1 E2 d. rewrite split_function_spec_run. cbv zeta.
  rewrite G, E1, E2. cbn [nodes]. f_equal. f_equal. f_equal.
  assert (K1 : node_ids o + 1 <> k).
  { intros <-. apply get_node_contains in G. congruence. }
  rewrite update_node_app, update_node_other by (cbn; exact K1).
  rewrite !update_node_twice by reflexivity.
  rewrite <- app_assoc. reflexivity.
Qed.

Lemma keys_fresh (t : Tree) (bound c : Z) :
  (forall j, In j (keys t) -> j <= bound) -> bound < c ->
  contains t c = false.
Proof.
  intros H Hc. destruct (contains t c) eqn:E; [|reflexivity].
  apply contains_In, H in E. lia.
Qed.

Lemma reference_makes_two_leaves :
  splitter_makes_two_leaves (split_function_spec calc).
Proof.
  intros k o n G Hl He Hb.
  assert (E1 : contains (tree o) (node_ids o + 1) = false)
    by (apply (keys_fresh _ (node_ids o)); [assumption | lia]).
  assert (E2 : contains (tree o) (node_ids o + 2) = false)
    by (apply (keys_fresh _ (node_ids o)); [assumption | lia]).
  eexists _, (node_ids o + 1), (node_ids o + 2), _, _, _.
  split; [apply (split_function_spec_ok k o n G E1 E2)|].
  cbn [tree nodes root].
  repeat split; try reflexivity; try assumption; try lia.
  cbn. now rewrite <- app_assoc.
Qed.







End ReferenceSplitter.

Section ReferenceSelector.

Context {value payload : Type}.
Local Abbreviation Node := (Node value payload).

Variable better : Node -> Node -> bool.

Lemma fold_best_In (rest : list Node) (n : Node) :
  In (fold_left (fun best m => if better m best then m else best) rest n)
     (n :: rest).
Proof.
  revert n. induction rest as [|m rest IH]; intros n; cbn; [auto|].
  destruct (better m n).
  - destruct (IH m) as [H|H]; [rewrite <- H at 2|]; auto.
  - destruct (IH n) as [H|H]; [rewrite <- H at 2|]; auto.
Qed.

Lemma reference_picks_eligible :
  selector_picks_eligible (select_kid_spec better).
Proof.
  intros ls k. unfold select_kid_spec.
  destruct (filter eligible ls) as [|n rest] eqn:E; [discriminate|].
  intros H. injection H as <-.
  pose proof (fold_best_In rest n) as Hin. rewrite <- E in Hin.
  apply filter_In in Hin as [H1 H2]. eauto.
Qed.

Lemma reference_finds_eligible :
  selector_finds_eligible (select_kid_spec better).
Proof.
  intros ls. unfold select_kid_spec.
  destruct (filter eligible ls) as [|n rest] eqn:E; [|discriminate].
  intros _ n Hn. destruct (eligible n) eqn:En; [|reflexivity].
  assert (Hin : In n (filter eligible ls)) by (apply filter_In; auto).
  rewrite E in Hin. destruct Hin.
Qed.

End ReferenceSelector.


(** ** Where the split index is looked up *)

Section IndexLookup.

Context {value payload : Type}.
Local Abbreviation Node := (Node value payload).
Local Abbreviation Tree := (Tree value payload).
Local Abbreviation HiPart := (HiPart value payload).

Lemma prune_key_out_of_range (inodes : list Z) (split k : Z) (t : Tree) :
  py_index inodes split = None ->
  prune_key inodes split k t = (Raise IndexError, t).
Proof.
  intros H. unfold prune_key, bind, index. now rewrite H.
Qed.

Lemma remove_node_no_index_error (k : Z) (t : Tree) :
  fst (remove_node k t) <> Raise IndexError.
Proof.
  unfold remove_node. destruct (get_node t k); cbn; discriminate.
Qed.

Lemma prune_key_in_range (inodes : list Z) (split k e : Z) (t : Tree) :
  py_index inodes split = Some e ->
  fst (prune_key inodes split k t) <> Raise IndexError.
Proof.
  intros H. unfold prune_key, bind, index, get, ret, getattr, raise, parent.
  rewrite H. cbn.
  destruct (k >? e); [|discriminate]. cbn.
  destruct (get_node t k) as [nk|] eqn:Gk; cbn; [|discriminate].
  destruct (get_node t e) as [ne|] eqn:Ge; cbn; [|discriminate].
  destruct (is_root ne); cbn; [apply remove_node_no_index_error|].
  rewrite Ge.
  destruct (predecessor ne) as [p|]; cbn; [|discriminate].
  destruct (get_node t p) as [np|]; cbn; [|discriminate].
  rewrite Gk.
  destruct (predecessor nk) as [q|]; cbn; [|discriminate].
  destruct (get_node t q) as [nq|]; cbn; [|discriminate].
  destruct (identifier np =? identifier nq); cbn;
    [discriminate | apply remove_node_no_index_error].
Qed.

Lemma for_each_no_index_error {S A : Type} (l : list A) (body : A -> M S unit) :
  (forall x s, fst (body x s) <> Raise IndexError) ->
  forall s, fst (for_each l body s) <> Raise IndexError.
Proof.
  intros H. induction l as [|x l IH]; intros s; cbn; [discriminate|].
  unfold bind. pose proof (H x s) as Hx.
  destruct (body x s) as [[[]|y|] s']; cbn in *; auto.
Qed.

(** With the index out of range, the loop raises at its first pass, before
    any removal; a tree with a single key has no pass at all. *)
Lemma prune_loop_out_of_range (inodes : list Z) (split : Z) (t : Tree) :
  py_index inodes split = None ->
  prune_loop inodes split t =
  if (2 <=? length (nodes t))%nat then (Raise IndexError, t) else (Ok tt, t).
Proof.
  intros H. rewrite prune_loop_keys. unfold keys.
  destruct (nodes t) as [|n0 [|n1 rest]]; try reflexivity.
  change (tl (map identifier (n0 :: n1 :: rest)))
    with (identifier n1 :: map identifier rest).
  change (2 <=? length (n0 :: n1 :: rest))%nat with true. cbv iota.
  destruct (rev (identifier n1 :: map identifier rest)) as [|k l] eqn:E.
  - apply (f_equal (@length Z)) in E. rewrite length_rev in E. discriminate.
  - cbn [for_each]. unfold bind.
    now rewrite (prune_key_out_of_range _ _ _ _ H).
Qed.

Lemma prune_phase_out_of_range (split : Z) (v : value) (o : HiPart) :
  py_index (internal_nodes_of (tree o)) split = None ->
  prune_phase split v o =
  if (2 <=? length (nodes (tree o)))%nat
  then (Raise IndexError, o)
  else (Raise IndexError, before_write o (tree o)).
Proof.
  intros H. rewrite prune_phase_unfold, (prune_loop_out_of_range _ _ _ H), H.
  destruct (2 <=? length (nodes (tree o)))%nat; [|reflexivity].
  now rewrite with_tree_same.
Qed.

Lemma prune_phase_in_range (split e : Z) (v : value) (o : HiPart) :
  py_index (internal_nodes_of (tree o)) split = Some e ->
  fst (prune_phase split v o) <> Raise IndexError.
Proof.
  intros H. rewrite prune_phase_unfold.
  pose proof (for_each_no_index_error (rev (tl (keys (tree o))))
                (prune_key (internal_nodes_of (tree o)) split)
                (fun k s => prune_key_in_range _ _ k e s H) (tree o)) as Hl.
  rewrite <- prune_loop_keys in Hl.
  destruct (prune_loop _ _ _) as [[[]|x|] t1];
    [|exact Hl|discriminate].
  rewrite H. destruct (get_node (reopen_leaves t1) e); discriminate.
Qed.

End IndexLookup.

(** ** Invariants of HiPart trees under the pruning steps *)

Section HiPartInvariants.

Context {value payload : Type}.
Local Abbreviation Node := (Node value payload).
Local Abbreviation Tree := (Tree value payload).
Local Abbreviation HiPart := (HiPart value payload).

Lemma siblings_ok_iff (t : Tree) :
  siblings_ok t = true <->
  forall n m, In n (nodes t) -> In m (nodes t) ->
    predecessor n = predecessor m ->
    Z.abs (identifier n - identifier m) <= 1.
Proof.
  unfold siblings_ok. rewrite forallb_forall. split.
  - intros H n m Hn Hm E. specialize (H n Hn).
    rewrite forallb_forall in H. specialize (H m Hm).
    apply orb_true_iff in H as [H|H].
    + apply negb_true_iff, opt_eqb_neq in H. contradiction.
    + now apply Z.leb_le.
  - intros H n Hn. apply forallb_forall. intros m Hm.
    destruct (opt_eqb (predecessor n) (predecessor m)) eqn:E; [|reflexivity].
    apply opt_eqb_eq in E. cbn. apply Z.leb_le. auto.
Qed.

Lemma hipart_tree_iff (t : Tree) :
  hipart_tree t = true <->
  WF t /\ keys t = py_range (length (nodes t))
  /\ forall n m, In n (nodes t) -> In m (nodes t) ->
       predecessor n = predecessor m ->
       Z.abs (identifier n - identifier m) <= 1.
Proof.
  unfold hipart_tree, contiguous.
  rewrite !andb_true_iff, wf_tree_WF, list_eqb_eq, siblings_ok_iff. tauto.
Qed.

Lemma children_ids_map (f : Node -> Node) (ns : list Node) (k : Z) :
  same_shape f -> children_ids (map f ns) k = children_ids ns k.
Proof.
  intros Hf. unfold children_ids.
  induction ns as [|n ns IH]; cbn [map filter]; [reflexivity|].
  destruct (Hf n) as (H1 & H2 & _).
  assert (E : has_parent k (f n) = has_parent k n)
    by (unfold has_parent; now rewrite H2).
  rewrite E. destruct (has_parent k n); cbn [map]; now rewrite ?H1, IH.
Qed.

Lemma keys_map (f : Node -> Node) (ns : list Node) :
  same_shape f -> map identifier (map f ns) = map identifier ns.
Proof.
  intros Hf. rewrite map_map. apply map_ext. intros n. apply Hf.
Qed.

Lemma WF_map (f : Node -> Node) (t : Tree) :
  same_shape f -> WF t -> WF (mkTree (map f (nodes t)) (root t)).
Proof.
  intros Hf ((n0 & rest & E & Ha & Hb & Hc) & Hasc & Hsucc).
  unfold WF, keys. cbn [nodes root]. rewrite keys_map by assumption.
  repeat split; [|assumption|].
  - exists (f n0), (map f rest). rewrite E. cbn.
    destruct (Hf n0) as (H1 & H2 & _). rewrite H1, H2.
    repeat split; try assumption.
    intros n' Hn'. apply in_map_iff in Hn' as (n & <- & Hn).
    destruct (Hf n) as (I1 & I2 & _). rewrite I1, I2.
    destruct (Hc n Hn) as (p & Hp1 & Hp2 & Hp3).
    exists p. repeat split; try assumption.
    unfold keys in Hp3. now rewrite E in Hp3.
  - intros n' Hn'. apply in_map_iff in Hn' as (n & <- & Hn).
    destruct (Hf n) as (I1 & _ & I3).
    rewrite children_ids_map, I1, I3 by assumption. auto.
Qed.

Lemma hipart_tree_map (f : Node -> Node) (t : Tree) :
  same_shape f -> hipart_tree t = true ->
  hipart_tree (mkTree (map f (nodes t)) (root t)) = true.
Proof.
  intros Hf H. apply hipart_tree_iff in H as (W & Hk & Hs).
  apply hipart_tree_iff. split; [now apply WF_map|].
  unfold keys in *. cbn [nodes].
  rewrite keys_map, length_map by assumption. split; [assumption|].
  intros n' m' Hn' Hm'.
  apply in_map_iff in Hn' as (n & <- & Hn).
  apply in_map_iff in Hm' as (m & <- & Hm).
  destruct (Hf n) as (I1 & I2 & _). destruct (Hf m) as (J1 & J2 & _).
  rewrite I1, I2, J1, J2. auto.
Qed.

Lemma same_shape_reopen : same_shape (@reopen_leaf value payload).
Proof.
  intros n. unfold reopen_leaf. destruct (is_leaf n); [|auto].
  destruct (negb (is_none (split_criterion (data n)))); auto.
Qed.

Lemma same_shape_update (k : Z) (f : Node -> Node) :
  same_shape f -> same_shape (fun n => if has_id k n then f n else n).
Proof.
  intros Hf n. destruct (has_id k n); [apply Hf | auto].
Qed.

Lemma same_shape_set_splitpoint (v : value) :
  same_shape (@set_splitpoint value payload v).
Proof. intros n. auto. Qed.


(** An id taken from the list of internal nodes of a contiguous tree is
    an id of the tree. *)
Lemma edited_node_present (t : Tree) (split e : Z) :
  WF t -> keys t = py_range (length (nodes t)) ->
  py_index (internal_nodes_of t) split = Some e ->
  exists ne, get_node t e = Some ne.
Proof.
  intros W Hk Hi. apply contains_get_node, contains_In.
  assert (Hin : In e (internal_nodes_of t)).
  { unfold py_index in Hi.
    destruct (0 <=? split);
      [|destruct (- Z.of_nat (length (internal_nodes_of t)) <=? split)];
      try discriminate; eapply nth_error_In; eauto. }
  unfold internal_nodes_of in Hin. cbv zeta in Hin.
  destruct (length _ =? 0)%nat.
  - destruct Hin as [<-|[]]. rewrite Hk.
    destruct W as ((n0 & rest & E & _) & _). rewrite E. cbn. auto.
  - apply filter_In in Hin as [Hin _]. unfold keys in Hin at 1.
    rewrite length_map in Hin. now rewrite Hk.
Qed.

End HiPartInvariants.

(** ** The pruning steps keep a HiPart tree a HiPart tree *)

Section PruneHiPart.

Context {value payload : Type}.
Local Abbreviation Node := (Node value payload).
Local Abbreviation Tree := (Tree value payload).
Local Abbreviation HiPart := (HiPart value payload).

Lemma range_snoc (n : nat) : py_range (S n) = py_range n ++ [Z.of_nat n].
Proof. unfold py_range. now rewrite seq_S, map_app. Qed.

Lemma In_range (n : nat) (x : Z) : In x (py_range n) <-> 0 <= x < Z.of_nat n.
Proof.
  unfold py_range. rewrite in_map_iff. split.
  - intros (i & <- & Hi). apply in_seq in Hi. lia.
  - intros H. exists (Z.to_nat x). split; [lia|]. apply in_seq. lia.
Qed.

(** Filtering a dictionary with the ids [0 .. n-1] by a predicate that is
    closed under smaller ids leaves the ids [0 .. m-1]. *)
Lemma filter_prefix (keep : Node -> bool) (ns : list Node) :
  map identifier ns = py_range (length ns) ->
  (forall n m, In n ns -> In m ns -> identifier n < identifier m ->
     keep m = true -> keep n = true) ->
  map identifier (filter keep ns) = py_range (length (filter keep ns)).
Proof.
  induction ns as [|x ns IH] using rev_ind; intros Hk Hc; [reflexivity|].
  rewrite length_app, Nat.add_1_r, range_snoc, map_app in Hk. cbn in Hk.
  apply app_inj_tail in Hk as [Hk Hx].
  assert (IH' : map identifier (filter keep ns) = py_range (length (filter keep ns))).
  { apply IH; [assumption|]. intros n m Hn Hm. apply Hc; apply in_or_app; auto. }
  rewrite filter_app. cbn [filter]. destruct (keep x) eqn:Ex.
  - assert (Hall : filter keep ns = ns).
    { apply forallb_filter_id. apply forallb_forall. intros n Hn.
      apply (Hc n x); [apply in_or_app; auto | apply in_or_app; cbn; auto | | assumption].
      assert (Hin : In (identifier n) (py_range (length ns)))
        by (rewrite <- Hk; now apply in_map).
      apply In_range in Hin. lia. }
    rewrite Hall, length_app, Nat.add_1_r, range_snoc, map_app. cbn.
    now rewrite Hk, Hx.
  - now rewrite app_nil_r.
Qed.

Lemma doomed_closed (t : Tree) (e : Z) (ne : Node) :
  WF t ->
  (forall n m, In n (nodes t) -> In m (nodes t) ->
     predecessor n = predecessor m ->
     Z.abs (identifier n - identifier m) <= 1) ->
  get_node t e = Some ne ->
  forall n m, In n (nodes t) -> In m (nodes t) ->
    identifier n < identifier m ->
    negb (doomed e (predecessor ne) m) = true ->
    negb (doomed e (predecessor ne) n) = true.
Proof.
  intros W Hs Ge n m Hn Hm Hlt Hkm.
  destruct (get_node_In t e ne Ge) as [Hne Hide].
  apply negb_true_iff in Hkm. apply negb_true_iff.
  unfold doomed in *.
  destruct (identifier n >? e) eqn:En; [|reflexivity]. cbn.
  apply Z.gtb_lt in En.
  assert (Em : (identifier m >? e) = true) by (apply Z.gtb_lt; lia).
  rewrite Em in Hkm. cbn in Hkm.
  apply orb_false_iff in Hkm as [_ Hkm].
  apply negb_false_iff, opt_eqb_eq in Hkm.
  specialize (Hs m ne Hm Hne Hkm). lia.
Qed.

Lemma pruned_keys (t t1 : Tree) (keep : Node -> bool) :
  map bare (nodes t1) = map bare (filter keep (nodes t)) ->
  keys t1 = map identifier (filter keep (nodes t))
  /\ length (nodes t1) = length (filter keep (nodes t)).
Proof.
  intros Hb. split.
  - unfold keys. now rewrite <- keys_bare, Hb, keys_bare.
  - apply (f_equal (@length Node)) in Hb. now rewrite !length_map in Hb.
Qed.

Lemma pruned_hipart (t t1 : Tree) (e : Z) (ne : Node) :
  hipart_tree t = true -> get_node t e = Some ne -> WF t1 ->
  map bare (nodes t1) =
    map bare (filter (fun n => negb (doomed e (predecessor ne) n)) (nodes t)) ->
  hipart_tree t1 = true.
Proof.
  intros H Ge W1 Hb. apply hipart_tree_iff in H as (W & Hk & Hs).
  apply hipart_tree_iff. split; [assumption|].
  destruct (pruned_keys t t1 _ Hb) as [Hk1 Hl1]. split.
  - rewrite Hk1, Hl1. apply filter_prefix; [exact Hk|].
    now apply (doomed_closed t e ne).
  - intros n1 m1 Hn1 Hm1.
    destruct (In_bare n1 _ _ Hb Hn1) as (n & Hn & Bn).
    destruct (In_bare m1 _ _ Hb Hm1) as (m & Hm & Bm).
    apply filter_In in Hn as [Hn _]. apply filter_In in Hm as [Hm _].
    destruct (bare_eq_fields _ _ Bn) as (I1 & I2 & _).
    destruct (bare_eq_fields _ _ Bm) as (J1 & J2 & _).
    rewrite <- I1, <- I2, <- J1, <- J2. auto.
Qed.

Lemma find_map_shape (f : Node -> Node) (ns : list Node) (k : Z) :
  (forall n, identifier (f n) = identifier n) ->
  find (has_id k) (map f ns) = option_map f (find (has_id k) ns).
Proof.
  intros Hf. induction ns as [|n ns IH]; cbn [map find]; [reflexivity|].
  assert (E : has_id k (f n) = has_id k n) by (unfold has_id; now rewrite Hf).
  rewrite E. destruct (has_id k n); [reflexivity | exact IH].
Qed.

Lemma reopen_leaf_id (n : Node) : identifier (reopen_leaf n) = identifier n.
Proof. apply same_shape_reopen. Qed.

Lemma after_prune_tree (o : HiPart) (t1 : Tree) (e : Z) (v : value) :
  tree (after_prune o t1 e v) =
  mkTree (map (fun n => if has_id e n then set_splitpoint v n else n)
              (nodes (mkTree (map reopen_leaf (nodes t1)) (root t1))))
         (root (mkTree (map reopen_leaf (nodes t1)) (root t1))).
Proof. reflexivity. Qed.

(** On a HiPart tree with the index in range, the steps before the loop
    end normally and hand a sound object to the loop. *)
Lemma prune_phase_hipart (o : HiPart) (split e : Z) (v : value) :
  hipart_tree (tree o) = true ->
  py_index (internal_nodes_of (tree o)) split = Some e ->
  exists t1 ne,
    get_node (tree o) e = Some ne
    /\ WF t1
    /\ root t1 = root (tree o)
    /\ map bare (nodes t1) =
       map bare (filter (fun n => negb (doomed e (predecessor ne) n))
                        (nodes (tree o)))
    /\ prune_phase split v o = (Ok tt, after_prune o t1 e v)
    /\ hipart_ok (after_prune o t1 e v) = true.
Proof.
  intros H Hi. pose proof H as H'.
  apply hipart_tree_iff in H' as (W & Hk & Hs).
  destruct (edited_node_present (tree o) split e W Hk Hi) as [ne Ge].
  destruct (prune_loop_wf _ split e (tree o) ne W Hi Ge)
    as (t1 & Hrun & W1 & Hr & Hb).
  assert (H1 : hipart_tree t1 = true) by (eapply pruned_hipart; eauto).
  assert (Ge1 : exists ne1, get_node (reopen_leaves t1) e = Some ne1).
  { apply contains_get_node.
    assert (Hc : contains t1 e = true).
    { rewrite (pruned_contains e (predecessor ne) (tree o) t1 e ne W Hb Ge).
      destruct (get_node_In _ _ _ Ge) as [_ Hid].
      unfold doomed. rewrite Hid.
      destruct (e >? e) eqn:E; [apply Z.gtb_lt in E; lia | reflexivity]. }
    apply contains_In. apply contains_In in Hc.
    unfold keys, reopen_leaves in *. cbn [nodes].
    now rewrite keys_map by apply same_shape_reopen. }
  destruct Ge1 as [ne1 Ge1].
  exists t1, ne.
  split; [assumption|]. split; [assumption|]. split; [assumption|].
  split; [assumption|]. split.
  - rewrite prune_phase_unfold, Hrun, Hi, Ge1. reflexivity.
  - unfold hipart_ok. apply andb_true_iff. split.
    + rewrite after_prune_tree.
      apply hipart_tree_map;
        [apply same_shape_update, same_shape_set_splitpoint|].
      apply hipart_tree_map; [apply same_shape_reopen | assumption].
    + apply Z.eqb_eq.
      destruct (after_prune_facts o t1 e v ne1 Ge1) as (_ & Hn & _).
      exact Hn.
Qed.

End PruneHiPart.

(** ** Ancestors of the edited node *)

Section Ancestors.

Context {value payload : Type}.
Local Abbreviation Node := (Node value payload).
Local Abbreviation Tree := (Tree value payload).
Local Abbreviation HiPart := (HiPart value payload).



Lemma filter_none {A : Type} (f : A -> bool) (l : list A) :
  (forall x, In x l -> f x = false) -> filter f l = [].
Proof.
  induction l as [|a l IH]; intros H; [reflexivity|].
  cbn [filter]. rewrite (H a (or_introl eq_refl)).
  apply IH. intros x Hx. apply H. now right.
Qed.

(** The pruning loop removes every child of the edited node. *)
Lemma edited_node_loses_children (t t1 : Tree) (e : Z) (ne n1 : Node) :
  WF t -> get_node t e = Some ne -> WF t1 ->
  map bare (nodes t1) =
    map bare (filter (fun n => negb (doomed e (predecessor ne) n)) (nodes t)) ->
  get_node t1 e = Some n1 -> successors n1 = [].
Proof.
  intros W Ge W1 Hb G1.
  destruct (get_node_In t e ne Ge) as [Hne Hide].
  destruct (get_node_In t1 e n1 G1) as [Hn1 Hid1].
  destruct W1 as (_ & _ & Hs1).
  rewrite (Hs1 n1 Hn1), Hid1.
  rewrite <- (children_ids_bare (nodes t1)), Hb, children_ids_bare.
  rewrite children_ids_filter.
  rewrite (filter_none _ (filter (has_parent e) (nodes t))); [reflexivity|].
  intros c Hc. apply filter_In in Hc as [Hc Hp]. apply opt_eqb_eq in Hp.
  destruct (WF_parent t c e W Hc Hp) as [Hlt _].
  apply negb_false_iff. unfold doomed.
  assert (Eg : (identifier c >? e) = true) by (apply Z.gtb_lt; lia).
  rewrite Eg. cbn [andb].
  destruct (predecessor ne) as [p|] eqn:Ep; [|reflexivity]. cbn [is_none orb].
  apply negb_true_iff, opt_eqb_neq. rewrite Hp. intros Eq. injection Eq as ->.
  destruct (WF_parent t ne p W Hne Ep) as [Hlt' _]. lia.
Qed.

(** The edited node after the steps before the loop. *)
Lemma after_prune_edited (o : HiPart) (t t1 : Tree) (e : Z) (v : value)
    (ne : Node) (keep : Node -> bool) :
  WF t -> get_node t e = Some ne -> keep ne = true ->
  map bare (nodes t1) = map bare (filter keep (nodes t)) ->
  exists ne1 n1,
    get_node (tree (after_prune o t1 e v)) e = Some ne1
    /\ get_node t1 e = Some n1
    /\ successors ne1 = successors n1
    /\ identifier ne1 = identifier ne
    /\ predecessor ne1 = predecessor ne
    /\ split_criterion (data ne1) = split_criterion (data ne)
    /\ other_data (data ne1) = other_data (data ne)
    /\ splitpoint (data ne1) = Some v.
Proof.
  intros W Ge Hkeep Hb.
  destruct (get_node_In t e ne Ge) as [Hne Hide].
  pose proof W as (_ & Hasc & _).
  assert (HndL : NoDup (map identifier (filter keep (nodes t))))
    by (apply ascending_NoDup, ascending_filter_ids, Hasc).
  destruct (get_node_of_bare t1 (filter keep (nodes t)) ne Hb HndL
              ltac:(apply filter_In; auto)) as (n1 & G1 & B1).
  rewrite Hide in G1.
  destruct (bare_eq_fields _ _ B1) as (I1 & I2 & I3).
  exists (set_splitpoint v (reopen_leaf n1)), n1.
  split; [|split; [exact G1|split]].
  - unfold after_prune, get_node. cbn [tree nodes].
    rewrite find_update_node by reflexivity.
    unfold reopen_leaves. cbn [nodes].
    rewrite find_map_shape by apply reopen_leaf_id.
    unfold get_node in G1. rewrite G1. cbn.
    unfold has_id. rewrite reopen_leaf_id, I1, Hide, Z.eqb_refl. reflexivity.
  - cbn [successors set_splitpoint].
    now destruct (same_shape_reopen n1) as (_ & _ & ->).
  - cbn. rewrite reopen_leaf_id, split_criterion_reopen.
    destruct (same_shape_reopen n1) as (_ & J2 & _).
    rewrite J2, I1, I2, I3. repeat split; try reflexivity.
    unfold reopen_leaf. destruct (is_leaf n1); [|congruence].
    destruct (negb (is_none (split_criterion (data n1)))); cbn; congruence.
Qed.

End Ancestors.

(** ** The reference splitter keeps a HiPart object sound *)

Section SplitHiPart.

Context {value payload : Type}.
Local Abbreviation Node := (Node value payload).
Local Abbreviation Tree := (Tree value payload).
Local Abbreviation HiPart := (HiPart value payload).

Variable calc : NodeData value payload -> bool -> Z -> NodeData value payload.

Lemma children_ids_app (l1 l2 : list Node) (j : Z) :
  children_ids (l1 ++ l2) j = children_ids l1 j ++ children_ids l2 j.
Proof. unfold children_ids. now rewrite filter_app, map_app. Qed.

Lemma children_ids_relink (f : Node -> Node) (ns : list Node) (j : Z) :
  (forall n, identifier (f n) = identifier n) ->
  (forall n, predecessor (f n) = predecessor n) ->
  children_ids (map f ns) j = children_ids ns j.
Proof.
  intros H1 H2. unfold children_ids.
  induction ns as [|n ns IH]; cbn [map filter]; [reflexivity|].
  assert (E : has_parent j (f n) = has_parent j n)
    by (unfold has_parent; now rewrite H2).
  rewrite E. destruct (has_parent j n); cbn [map]; now rewrite ?H1, IH.
Qed.

(** On a leaf of a sound object the splitter returns normally and the
    object stays sound: the children are numbered [n] and [n + 1], for
    [n] the number of nodes. *)
Lemma split_hipart (o : HiPart) (k : Z) (n : Node) :
  hipart_ok o = true ->
  get_node (tree o) k = Some n -> is_leaf n = true ->
  exists o' d1 d2,
    let c1 := Z.of_nat (length (nodes (tree o))) in
    let c2 := c1 + 1 in
    split_function_spec calc k o = (Ok tt, o')
    /\ hipart_ok o' = true
    /\ max_clusters_number o' = max_clusters_number o
    /\ root (tree o') = root (tree o)
    /\ nodes (tree o') =
       update_node k
         (fun m => add_successor c2
                     (add_successor c1 (set_split_permition false m)))
         (nodes (tree o))
       ++ [mkNode c1 (Some k) [] d1; mkNode c2 (Some k) [] d2].
Proof.
  intros Hok G Hleaf.
  unfold hipart_ok in Hok. apply andb_true_iff in Hok as [Ht Hid].
  apply Z.eqb_eq in Hid.
  pose proof Ht as Ht'. apply hipart_tree_iff in Ht' as (W & Hk & Hs).
  set (len := length (nodes (tree o))) in *.
  set (c1 := node_ids o + 1). set (c2 := node_ids o + 2).
  assert (Hkeys_lt : forall j, In j (keys (tree o)) -> 0 <= j < Z.of_nat len).
  { intros j Hj. rewrite Hk in Hj. now apply In_range in Hj. }
  assert (E1 : contains (tree o) c1 = false).
  { destruct (contains (tree o) c1) eqn:E; [|reflexivity].
    apply contains_In, Hkeys_lt in E. subst c1. lia. }
  assert (E2 : contains (tree o) c2 = false).
  { destruct (contains (tree o) c2) eqn:E; [|reflexivity].
    apply contains_In, Hkeys_lt in E. subst c2. lia. }
  destruct (get_node_In _ _ _ G) as [Hn Hidn].
  assert (Hk_lt : 0 <= k < Z.of_nat len).
  { apply Hkeys_lt. rewrite <- Hidn. now apply in_map. }
  pose proof W as ((n0 & rest & E & Ha & Hb & Hc) & Hasc & Hsucc).
  assert (Hnokid : forall m, In m (nodes (tree o)) -> predecessor m <> Some k).
  { apply children_ids_nil. rewrite <- Hidn, <- (Hsucc n Hn).
    unfold is_leaf in Hleaf. destruct (successors n); [reflexivity|discriminate]. }
  set (g := fun m : Node =>
              add_successor c2 (add_successor c1 (set_split_permition false m))).
  set (g' := fun m : Node => if has_id k m then g m else m).
  assert (Hg'id : forall m, identifier (g' m) = identifier m).
  { intros m. unfold g'. destruct (has_id k m); reflexivity. }
  assert (Hg'pred : forall m, predecessor (g' m) = predecessor m).
  { intros m. unfold g'. destruct (has_id k m); reflexivity. }
  set (d := data (set_split_permition false n)).
  set (n1 := mkNode c1 (Some k) [] (calc d false (cluster_color o)) : Node).
  set (n2 := mkNode c2 (Some k) [] (calc d true (cluster_color o + 1)) : Node).
  set (ns' := map g' (nodes (tree o)) ++ [n1; n2]).
  assert (Hrun : split_function_spec calc k o =
                 (Ok tt, mkHiPart (mkTree ns' (root (tree o)))
                           (node_ids o + 2) (cluster_color o + 2)
                           (max_clusters_number o))).
  { apply (split_function_spec_ok calc k o n G E1 E2). }
  assert (Hc1 : c1 = Z.of_nat len) by (subst c1; lia).
  assert (Hc2 : c2 = Z.of_nat len + 1) by (subst c2; lia).
  eexists _, (calc d false (cluster_color o)),
    (calc d true (cluster_color o + 1)).
  cbv zeta. split; [exact Hrun|].
  split; [|split; [reflexivity|split; [reflexivity|]]];
    [|cbn [tree nodes]; unfold ns', g', update_node, g, n1, n2;
      fold len; rewrite <- Hc2, <- Hc1; reflexivity].
  assert (Hkeys' : map identifier ns' = keys (tree o) ++ [c1; c2]).
  { unfold ns'. rewrite map_app, map_map. cbn. f_equal.
    apply map_ext. exact Hg'id. }
  assert (Hkids' : forall j, children_ids ns' j =
                     children_ids (nodes (tree o)) j
                     ++ (if j =? k then [c1; c2] else [])).
  { intros j. unfold ns'. rewrite children_ids_app. f_equal.
    - apply children_ids_relink; auto.
    - unfold children_ids, has_parent. cbn. rewrite (Z.eqb_sym k j).
      destruct (j =? k); reflexivity. }
  unfold hipart_ok. cbn [tree node_ids nodes]. apply andb_true_iff. split.
  - apply hipart_tree_iff. cbn [nodes].
    change (keys (mkTree ns' (root (tree o)))) with (map identifier ns').
    rewrite Hkeys'. split; [|split].
    + (* well-formed *)
      unfold WF, keys. cbn [nodes root]. rewrite Hkeys'. repeat split.
      * exists (g' n0), (map g' rest ++ [n1; n2]). repeat split.
        -- unfold ns'. now rewrite E.
        -- now rewrite Hg'pred.
        -- now rewrite Hg'id.
        -- intros m' Hm'. apply in_app_or in Hm' as [Hm'|Hm'].
           ++ apply in_map_iff in Hm' as (m & <- & Hm).
              destruct (Hc m Hm) as (p & Hp1 & Hp2 & Hp3).
              exists p. rewrite Hg'pred, Hg'id. repeat split; auto.
              apply in_or_app. auto.
           ++ exists k. destruct Hm' as [<-|[<-|[]]]; cbn;
                (repeat split; [subst c1 c2; lia|]);
                apply in_or_app; left; rewrite <- Hidn; now apply in_map.
      * apply ascending_app. repeat split; [assumption| |].
        -- cbn. subst c1 c2. apply andb_true_iff. split; [|reflexivity].
           apply andb_true_iff. split; [apply Z.ltb_lt; lia | reflexivity].
        -- intros x y Hx Hy. apply Hkeys_lt in Hx.
           destruct Hy as [<-|[<-|[]]]; subst c1 c2; lia.
      * intros m' Hm'. rewrite Hkids'.
        unfold ns' in Hm'. apply in_app_or in Hm' as [Hm'|Hm'].
        -- apply in_map_iff in Hm' as (m & <- & Hm).
           rewrite Hg'id. unfold g', has_id.
           destruct (identifier m =? k) eqn:Emk.
           ++ unfold g. cbn [add_successor set_split_permition successors].
              rewrite <- app_assoc. cbn [app]. now rewrite (Hsucc m Hm).
           ++ now rewrite (Hsucc m Hm), app_nil_r.
        -- assert (Hnone : forall c, Z.of_nat len <= c ->
                     children_ids (nodes (tree o)) c = []).
           { intros c Hc'. apply children_ids_nil. intros m Hm Hp.
             destruct (WF_parent _ m c W Hm Hp) as [Hlt _].
             pose proof (Hkeys_lt (identifier m) (in_map identifier _ _ Hm)).
             lia. }
           destruct Hm' as [<-|[<-|[]]]; unfold n1, n2;
             cbn [identifier successors];
             rewrite Hnone by (subst c1 c2; lia).
           ++ destruct (c1 =? k) eqn:Ec; [apply Z.eqb_eq in Ec|reflexivity].
              subst c1. lia.
           ++ destruct (c2 =? k) eqn:Ec; [apply Z.eqb_eq in Ec|reflexivity].
              subst c2. lia.
    + (* ids 0 .. n+1 *)
      unfold ns'. rewrite length_app, length_map. cbn [length].
      fold len. replace (len + 2)%nat with (S (S len)) by lia.
      rewrite !range_snoc, <- app_assoc, Hk. cbn.
      subst c1 c2. rewrite Hid.
      replace (Z.of_nat len - 1 + 1) with (Z.of_nat len) by lia.
      replace (Z.of_nat len - 1 + 2) with (Z.of_nat (S len)) by lia.
      reflexivity.
    + (* siblings *)
      assert (Hnew : forall m', In m' [n1; n2] ->
                predecessor m' = Some k
                /\ (identifier m' = c1 \/ identifier m' = c2)).
      { intros m' [<-|[<-|[]]]; cbn; auto. }
      intros a b Ha' Hb' Hp. unfold ns' in Ha', Hb'.
      apply in_app_or in Ha' as [Ha'|Ha']; apply in_app_or in Hb' as [Hb'|Hb'].
      * apply in_map_iff in Ha' as (a0 & <- & Ha0).
        apply in_map_iff in Hb' as (b0 & <- & Hb0).
        rewrite !Hg'id. rewrite !Hg'pred in Hp. auto.
      * apply in_map_iff in Ha' as (a0 & <- & Ha0).
        destruct (Hnew b Hb') as [Hpb _]. rewrite Hg'pred, Hpb in Hp.
        now destruct (Hnokid a0 Ha0).
      * apply in_map_iff in Hb' as (b0 & <- & Hb0).
        destruct (Hnew a Ha') as [Hpa _]. rewrite Hg'pred, Hpa in Hp.
        symmetry in Hp. now destruct (Hnokid b0 Hb0).
      * destruct (Hnew a Ha') as [_ Hia]. destruct (Hnew b Hb') as [_ Hib].
        subst c1 c2. lia.
  - apply Z.eqb_eq. unfold ns'. rewrite length_app, length_map. cbn [length].
    fold len. lia.
Qed.

End SplitHiPart.

(** ** Sessions of edits *)

Section Sessions.

Context {value payload : Type}.
Local Abbreviation Node := (Node value payload).
Local Abbreviation Tree := (Tree value payload).
Local Abbreviation HiPart := (HiPart value payload).

Variable calc : NodeData value payload -> bool -> Z -> NodeData value payload.
Variable select_kid : list Node -> option Z.
Hypothesis picks : selector_picks_eligible select_kid.

Lemma hipart_ok_tree (o : HiPart) : hipart_ok o = true -> hipart_tree (tree o) = true.
Proof. unfold hipart_ok. intros H. now apply andb_true_iff in H as [H _]. Qed.

Lemma leaf_lookup (o : HiPart) (n : Node) :
  hipart_ok o = true -> In n (leaves (tree o)) ->
  get_node (tree o) (identifier n) = Some n /\ is_leaf n = true.
Proof.
  intros H Hn. apply filter_In in Hn as [Hn Hl]. split; [|assumption].
  apply hipart_ok_tree, hipart_tree_iff in H as (W & _).
  now apply WF_get_node.
Qed.

Lemma predict_loop_hipart (fuel : nat) :
  forall selected found (o : HiPart),
    hipart_ok o = true ->
    (forall k, selected = Some k ->
       exists n, In n (leaves (tree o)) /\ identifier n = k) ->
    hipart_ok (snd (fst (predict_loop select_kid (split_function_spec calc)
                           fuel selected found o))) = true.
Proof.
  induction fuel as [|fuel IH]; intros selected found o Hok Hsel.
  - destruct selected as [k|]; cbn [predict_loop]; [|assumption].
    destruct (found <? max_clusters_number o); assumption.
  - destruct selected as [k|]; [|now rewrite predict_loop_none].
    destruct (found <? max_clusters_number o) eqn:E;
      [|now rewrite predict_loop_stop].
    destruct (Hsel k eq_refl) as (n & Hn & <-).
    destruct (leaf_lookup o n Hok Hn) as [G Hl].
    destruct (split_hipart calc o (identifier n) n Hok G Hl)
      as (o1 & d1 & d2 & Hrun & Hok1 & _).
    rewrite (predict_loop_step _ _ fuel _ found o o1 E Hrun). cbv zeta.
    specialize (IH (select_kid (leaves (tree o1))) (found + 1) o1 Hok1).
    destruct (predict_loop _ _ _ _ _ _) as [[r o2] tr]. cbn [fst snd] in *.
    apply IH. intros k Hk. destruct (picks _ _ Hk) as (m & Hm & Hid & _).
    eauto.
Qed.

(** One edit, whatever its outcome, leaves a HiPart tree. *)
Lemma recalculate_hipart (fuel : nat) (o : HiPart) (split : Z) (v : value) :
  hipart_tree (tree o) = true ->
  hipart_tree
    (tree (snd (fst (recalculate_after_spchange select_kid
                       (split_function_spec calc) fuel o split v)))) = true.
Proof.
  intros H. unfold recalculate_after_spchange.
  destruct (py_index (internal_nodes_of (tree o)) split) as [e|] eqn:Hi.
  - destruct (prune_phase_hipart o split e v H Hi)
      as (t1 & ne & _ & _ & _ & _ & Hrun & Hok).
    rewrite Hrun, partial_predict_state.
    apply hipart_ok_tree, predict_loop_hipart; [assumption|].
    intros k Hk. destruct (picks _ _ Hk) as (m & Hm & Hid & _). eauto.
  - rewrite (prune_phase_out_of_range split v o Hi).
    destruct (2 <=? length (nodes (tree o)))%nat; cbn [fst snd];
      [assumption|].
    unfold before_write. cbn [tree]. unfold reopen_leaves.
    apply hipart_tree_map; [apply same_shape_reopen | assumption].
Qed.

Lemma apply_edits_hipart (fuel : nat) (edits : list (Z * value)) :
  forall o : HiPart,
    hipart_tree (tree o) = true ->
    hipart_tree
      (tree (apply_edits select_kid (split_function_spec calc) fuel edits o))
    = true.
Proof.
  induction edits as [|[s v] edits IH]; intros o H; [assumption|].
  cbn [apply_edits fold_left fst snd]. apply IH.
  now apply recalculate_hipart.
Qed.

End Sessions.

(** ** Trees determined by their bare nodes *)

Section BareTrees.

Context {value payload : Type}.
Local Abbreviation Node := (Node value payload).
Local Abbreviation Tree := (Tree value payload).
Local Abbreviation HiPart := (HiPart value payload).

Lemma cons_eq_inv {A : Type} (a b : A) (l l' : list A) :
  a :: l = b :: l' -> a = b /\ l = l'.
Proof. intros E. injection E. auto. Qed.

Lemma map_bare_nodes_eq (l l' : list Node) :
  map bare l = map bare l' ->
  (forall n, In n l -> successors n = children_ids l (identifier n)) ->
  (forall n, In n l' -> successors n = children_ids l' (identifier n)) ->
  l = l'.
Proof.
  intros Hb Hs Hs'.
  assert (Hk : forall j, children_ids l j = children_ids l' j).
  { intros j. now rewrite <- (children_ids_bare l), Hb, children_ids_bare. }
  assert (Hgen : forall a a' : list Node, map bare a = map bare a' ->
            (forall n, In n a -> successors n = children_ids l (identifier n)) ->
            (forall n, In n a' -> successors n = children_ids l (identifier n)) ->
            a = a').
  { induction a as [|x a IH]; intros [|x' a'] E Ha Ha'; try discriminate;
      [reflexivity|].
    cbn [map] in E. apply cons_eq_inv in E as [Ex Ea]. f_equal.
    - apply node_eq; [assumption|].
      rewrite (Ha x (or_introl eq_refl)), (Ha' x' (or_introl eq_refl)).
      destruct (bare_eq_fields _ _ Ex) as (-> & _). reflexivity.
    - apply IH; [assumption| |]; intros n Hn; [apply Ha | apply Ha'];
        cbn; auto. }
  apply Hgen; [assumption | assumption |].
  intros n Hn. rewrite Hk. auto.
Qed.

(** Two well-formed trees with the same bare nodes and the same root are
    the same tree. *)
Lemma WF_bare_eq (t t' : Tree) :
  WF t -> WF t' -> map bare (nodes t) = map bare (nodes t') ->
  root t = root t' -> t = t'.
Proof.
  intros (_ & _ & Hs) (_ & _ & Hs') Hb Hr.
  destruct t as [ns r], t' as [ns' r']. cbn in *. subst r'. f_equal.
  now apply map_bare_nodes_eq.
Qed.

Lemma reopen_leaf_twice (n : Node) : reopen_leaf (reopen_leaf n) = reopen_leaf n.
Proof.
  unfold reopen_leaf at 2. destruct (is_leaf n) eqn:L.
  - destruct (negb (is_none (split_criterion (data n)))) eqn:C.
    + unfold reopen_leaf. cbn. unfold is_leaf in *. cbn. rewrite L, C.
      reflexivity.
    + unfold reopen_leaf. now rewrite L, C.
  - unfold reopen_leaf. now rewrite L.
Qed.

Lemma reopen_set_splitpoint (v : value) (n : Node) :
  reopen_leaf (set_splitpoint v n) = set_splitpoint v (reopen_leaf n).
Proof.
  unfold reopen_leaf.
  change (is_leaf (set_splitpoint v n)) with (is_leaf n).
  change (split_criterion (data (set_splitpoint v n)))
    with (split_criterion (data n)).
  destruct (is_leaf n); [|reflexivity].
  destruct (negb (is_none (split_criterion (data n)))); reflexivity.
Qed.

Lemma reopen_closed (m : Node) :
  is_leaf m = true -> eligible m = true ->
  reopen_leaf (set_split_permition false m) = m.
Proof.
  intros L E. unfold eligible in E. apply andb_true_iff in E as [C P].
  unfold reopen_leaf.
  change (is_leaf (set_split_permition false m)) with (is_leaf m).
  change (split_criterion (data (set_split_permition false m)))
    with (split_criterion (data m)).
  rewrite L, C.
  destruct m as [i p s [c perm sp x]]. cbn in *. subst perm. reflexivity.
Qed.

Lemma set_splitpoint_same (v : value) (m : Node) :
  splitpoint (data m) = Some v -> set_splitpoint v m = m.
Proof.
  destruct m as [i p s [c perm sp x]]. cbn. intros ->. reflexivity.
Qed.

Lemma same_shape_close (S : list Z) : same_shape (@close_split value payload S).
Proof.
  intros m. unfold close_split. destruct (memZ (identifier m) S); auto.
Qed.

Lemma bare_close (S : list Z) (m : Node) :
  bare (close_split S m) = close_split S (bare m).
Proof.
  unfold close_split. cbn [bare identifier].
  destruct (memZ (identifier m) S); reflexivity.
Qed.

Lemma doomed_close (S : list Z) (e : Z) (pe : option Z) (m : Node) :
  doomed e pe (close_split S m) = doomed e pe m.
Proof.
  unfold close_split. destruct (memZ (identifier m) S); reflexivity.
Qed.

End BareTrees.

(** ** What the loop builds on top of the pruned tree *)

Section Grown.

Context {value payload : Type}.
Local Abbreviation Node := (Node value payload).
Local Abbreviation Tree := (Tree value payload).
Local Abbreviation HiPart := (HiPart value payload).

Variable calc : NodeData value payload -> bool -> Z -> NodeData value payload.
Variable select_kid : list Node -> option Z.
Hypothesis picks : selector_picks_eligible select_kid.

Lemma memZ_cons (x k : Z) (S : list Z) :
  memZ x (k :: S) = (x =? k) || memZ x S.
Proof. reflexivity. Qed.

Lemma close_cons (k : Z) (S : list Z) (m : Node) :
  close_split [k] (close_split S m) = close_split (k :: S) m.
Proof.
  unfold close_split.
  destruct (memZ (identifier m) S) eqn:E.
  - change (identifier (set_split_permition false m)) with (identifier m).
    rewrite !memZ_cons, E. change (memZ (identifier m) []) with false.
    rewrite orb_true_r, orb_false_r.
    destruct (identifier m =? k); reflexivity.
  - rewrite !memZ_cons, E. change (memZ (identifier m) []) with false.
    rewrite !orb_false_r. reflexivity.
Qed.

Lemma close_single_other (k : Z) (x : Node) :
  identifier x <> k -> close_split [k] x = x.
Proof.
  intros H. unfold close_split. rewrite memZ_cons.
  destruct (identifier x =? k) eqn:E; [|reflexivity].
  apply Z.eqb_eq in E. contradiction.
Qed.

Lemma close_other (k : Z) (S : list Z) (x : Node) :
  identifier x <> k -> close_split (k :: S) x = close_split S x.
Proof.
  intros H. rewrite <- close_cons. apply close_single_other.
  destruct (same_shape_close S x) as (-> & _). exact H.
Qed.

Lemma bare_update_split (k c1 c2 : Z) (ns : list Node) :
  map bare
    (update_node k
       (fun m => add_successor c2
                   (add_successor c1 (set_split_permition false m))) ns)
  = map (close_split [k]) (map bare ns).
Proof.
  unfold update_node. rewrite !map_map. apply map_ext. intros m.
  unfold close_split, has_id. rewrite memZ_cons.
  change (identifier (bare m)) with (identifier m).
  change (memZ (identifier m) []) with false. rewrite orb_false_r.
  destruct (identifier m =? k); reflexivity.
Qed.

Lemma map_close_bare (S : list Z) (ns : list Node) :
  map (close_split S) (map bare ns) = map bare (map (close_split S) ns).
Proof.
  rewrite !map_map. apply map_ext. intros m. symmetry. apply bare_close.
Qed.

Lemma hipart_ok_facts (o : HiPart) :
  hipart_ok o = true ->
  WF (tree o)
  /\ keys (tree o) = py_range (length (nodes (tree o)))
  /\ node_ids o = Z.of_nat (length (nodes (tree o))) - 1.
Proof.
  intros H. unfold hipart_ok in H. apply andb_true_iff in H as [H1 H2].
  apply hipart_tree_iff in H1 as (W & Hk & _). apply Z.eqb_eq in H2. auto.
Qed.

Lemma node_id_range (t : Tree) (m : Node) :
  keys t = py_range (length (nodes t)) -> In m (nodes t) ->
  0 <= identifier m < Z.of_nat (length (nodes t)).
Proof.
  intros Hk Hm. apply In_range. rewrite <- Hk. now apply in_map.
Qed.

(** One more split keeps the picture. *)
Lemma grown_step (P0 o : HiPart) (S : list Z) (extra : list Node) (n : Node) :
  hipart_ok P0 = true ->
  grown_from P0 S extra o ->
  In n (leaves (tree o)) -> eligible n = true ->
  exists o1 S' extra',
    split_function_spec calc (identifier n) o = (Ok tt, o1)
    /\ grown_from P0 S' extra' o1.
Proof.
  intros HP0 (Hok & Hb & HS & Hx & Hmax & Hroot) Hn Hel.
  destruct (hipart_ok_facts P0 HP0) as (WP & HkP & _).
  destruct (hipart_ok_facts o Hok) as (Wo & Hko & _).
  destruct (leaf_lookup o n Hok Hn) as [G Hl].
  set (k := identifier n) in *.
  set (ZL := Z.of_nat (length (nodes (tree P0)))) in *.
  destruct (split_hipart calc o k n Hok G Hl)
    as (o1 & d1 & d2 & Hrun & Hok1 & Hmax1 & Hroot1 & Hnodes1).
  cbv zeta in Hrun, Hnodes1.
  set (c1 := Z.of_nat (length (nodes (tree o)))) in *.
  set (n1 := mkNode c1 (Some k) [] d1 : Node) in *.
  set (n2 := mkNode (c1 + 1) (Some k) [] d2 : Node) in *.
  assert (Hlen : ZL <= c1).
  { apply (f_equal (@length Node)) in Hb.
    rewrite length_app, !length_map in Hb. subst ZL c1. lia. }
  assert (Hbare1 : map bare (nodes (tree o1)) =
            map bare (map (close_split (k :: S)) (nodes (tree P0)))
            ++ map bare (map (close_split [k]) extra) ++ [bare n1; bare n2]).
  { rewrite Hnodes1, map_app, bare_update_split, Hb, map_app.
    rewrite !map_close_bare. rewrite <- app_assoc. f_equal.
    rewrite !map_map. apply map_ext. intros m. now rewrite close_cons. }
  assert (Hn_nodes : In n (nodes (tree o))) by (now apply filter_In in Hn).
  destruct (node_id_range _ n Hko Hn_nodes) as [Hk0 _]. fold k in Hk0.
  destruct (Z_lt_le_dec k ZL) as [Hlt|Hge].
  - (* a node of the pruned tree is split *)
    assert (Hkin : In k (keys (tree P0))) by (rewrite HkP; apply In_range; lia).
    apply in_map_iff in Hkin as (m & Hidm & Hm).
    assert (Hbn : In (bare n) (map bare (map (close_split S) (nodes (tree P0))))).
    { assert (Hin : In (bare n) (map bare (nodes (tree o)))) by now apply in_map.
      rewrite Hb in Hin. apply in_app_or in Hin as [Hin|Hin]; [assumption|].
      apply in_map_iff in Hin as (x & Bx & Hxin).
      destruct (Hx x Hxin) as [Hxid _].
      destruct (bare_eq_fields _ _ Bx) as (Ex & _).
      fold k in Ex. lia. }
    apply in_map_iff in Hbn as (m'' & Bm & Hm'').
    apply in_map_iff in Hm'' as (m' & <- & Hm').
    assert (m' = m).
    { apply (same_id_same_node (nodes (tree P0))); auto.
      - now apply WF_NoDup.
      - destruct (bare_eq_fields _ _ Bm) as (Ex & _).
        destruct (same_shape_close S m') as (Ey & _).
        rewrite Ey in Ex. fold k in Ex. congruence. }
    subst m'.
    assert (HnotS : memZ k S = false).
    { destruct (memZ k S) eqn:E; [|reflexivity].
      unfold close_split in Bm. rewrite Hidm, E in Bm.
      destruct (bare_eq_fields _ _ Bm) as (_ & _ & Ed).
      unfold eligible in Hel. rewrite <- Ed in Hel. cbn in Hel.
      now rewrite andb_false_r in Hel. }
    assert (Bm' : bare m = bare n).
    { unfold close_split in Bm. now rewrite Hidm, HnotS in Bm. }
    assert (Helm : eligible m = true).
    { destruct (bare_eq_fields _ _ Bm') as (_ & _ & Ed).
      unfold eligible. now rewrite Ed. }
    assert (Hleafm : is_leaf m = true).
    { destruct WP as (_ & _ & HsP). unfold is_leaf.
      rewrite (HsP m Hm), Hidm.
      assert (Hnone : children_ids (nodes (tree P0)) k = []).
      { apply children_ids_nil. intros c Hc Hpc.
        assert (Hin : In (bare (close_split S c)) (map bare (nodes (tree o)))).
        { rewrite Hb. apply in_or_app. left. now apply in_map, in_map. }
        apply in_map_iff in Hin as (c' & Bc & Hc').
        destruct (bare_eq_fields _ _ Bc) as (_ & Ep & _).
        destruct (same_shape_close S c) as (_ & Eq & _).
        rewrite Eq, Hpc in Ep.
        destruct Wo as (_ & _ & Hso).
        assert (Hkids : children_ids (nodes (tree o)) k = []).
        { pose proof (Hso n Hn_nodes) as Hsn. fold k in Hsn.
          rewrite <- Hsn. unfold is_leaf in Hl.
          destruct (successors n); [reflexivity | discriminate]. }
        apply (proj1 (children_ids_nil _ _) Hkids c' Hc' Ep). }
      now rewrite Hnone. }
    exists o1, (k :: S), (extra ++ [n1; n2]).
    split; [exact Hrun|].
    unfold grown_from.
    split; [assumption|]. split; [|split; [|split; [|split; [congruence|congruence]]]].
    + assert (Hex : map (close_split [k]) extra = extra).
      { rewrite <- (map_id extra) at 2. apply map_ext_in.
        intros x Hxin. apply close_single_other.
        destruct (Hx x Hxin) as [Hxid _]. lia. }
      rewrite Hbare1, Hex, (map_app bare extra). reflexivity.
    + intros j [<-|Hj]; [exists m; auto | auto].
    + intros x Hxin. apply in_app_or in Hxin as [Hxin|Hxin].
      * destruct (Hx x Hxin) as (Hxid & q & Hq & Hq').
        split; [assumption|]. exists q. split; [assumption|].
        destruct Hq'; [left; right; assumption | right; assumption].
      * fold ZL. destruct Hxin as [<-|[<-|[]]]; unfold n1, n2;
          cbn [identifier predecessor];
          (split; [lia|]); exists k; split; try reflexivity; left; left;
          reflexivity.
  - (* a node made by the loop is split *)
    exists o1, S, (map (close_split [k]) extra ++ [n1; n2]).
    split; [exact Hrun|].
    unfold grown_from.
    split; [assumption|]. split; [|split; [|split; [|split; [congruence|congruence]]]].
    + assert (Hfirst : map (close_split (k :: S)) (nodes (tree P0)) =
                       map (close_split S) (nodes (tree P0))).
      { apply map_ext_in. intros m Hm. apply close_other.
        destruct (node_id_range _ m HkP Hm) as [_ Hm']. fold ZL in Hm'. lia. }
      rewrite Hbare1, Hfirst, (map_app bare (map (close_split [k]) extra)).
      reflexivity.
    + exact HS.
    + intros x Hxin. fold ZL. apply in_app_or in Hxin as [Hxin|Hxin].
      * apply in_map_iff in Hxin as (x0 & <- & Hx0).
        destruct (same_shape_close [k] x0) as (-> & -> & _).
        apply (Hx x0 Hx0).
      * destruct Hxin as [<-|[<-|[]]]; unfold n1, n2;
          cbn [identifier predecessor];
          (split; [lia|]); exists k; split; try reflexivity; right; lia.
Qed.

(** The loop, from any point of its run. *)
Lemma grown_loop (P0 : HiPart) (fuel : nat) :
  hipart_ok P0 = true ->
  forall selected found (o : HiPart) (S : list Z) (extra : list Node),
    grown_from P0 S extra o ->
    (forall k, selected = Some k ->
       exists n, In n (leaves (tree o)) /\ identifier n = k
                 /\ eligible n = true) ->
    exists S' extra',
      grown_from P0 S' extra'
        (snd (fst (predict_loop select_kid (split_function_spec calc)
                     fuel selected found o))).
Proof.
  intros HP0. induction fuel as [|fuel IH];
    intros selected found o S extra Hg Hsel.
  - exists S, extra. destruct selected as [k|]; cbn [predict_loop];
      [|assumption].
    destruct (found <? max_clusters_number o); assumption.
  - destruct selected as [k|];
      [|exists S, extra; now rewrite predict_loop_none].
    destruct (found <? max_clusters_number o) eqn:E;
      [|exists S, extra; now rewrite predict_loop_stop].
    destruct (Hsel k eq_refl) as (n & Hn & <- & Hel).
    destruct (grown_step P0 o S extra n HP0 Hg Hn Hel)
      as (o1 & S1 & extra1 & Hrun & Hg1).
    rewrite (predict_loop_step _ _ fuel _ found o o1 E Hrun). cbv zeta.
    specialize (IH (select_kid (leaves (tree o1))) (found + 1) o1 S1 extra1 Hg1).
    destruct (predict_loop _ _ _ _ _ _) as [[r o2] tr]. cbn [fst snd] in *.
    apply IH. intros k Hk. destruct (picks _ _ Hk) as (m & Hm & Hid & He).
    eauto.
Qed.

End Grown.

(** ** Pruning what the loop has grown gives the pruned object back *)

Section PruneGrown.

Context {value payload : Type}.
Local Abbreviation Node := (Node value payload).
Local Abbreviation Tree := (Tree value payload).
Local Abbreviation HiPart := (HiPart value payload).

Lemma filter_all {A : Type} (P : A -> bool) (l : list A) :
  (forall x, In x l -> P x = true) -> filter P l = l.
Proof. intros H. now apply forallb_filter_id, forallb_forall. Qed.

Lemma grown_start (P0 : HiPart) :
  hipart_ok P0 = true -> grown_from P0 [] [] P0.
Proof.
  intros H. unfold grown_from. repeat split; try assumption; try reflexivity.
  - cbn [map]. rewrite app_nil_r. f_equal.
    rewrite <- (map_id (nodes (tree P0))) at 1.
    apply map_ext. intros m. reflexivity.
  - intros k [].
  - destruct H0.
  - destruct H0.
Qed.

(** The facts about the pruned object that the second pruning needs. *)
Lemma pruned_object_facts (o : HiPart) (t1 : Tree) (e : Z) (v : value)
    (ne : Node) :
  WF (tree o) -> get_node (tree o) e = Some ne ->
  map bare (nodes t1) =
    map bare (filter (fun n => negb (doomed e (predecessor ne) n))
                     (nodes (tree o))) ->
  let P0 := after_prune o t1 e v in
  (forall m, In m (nodes (tree P0)) ->
     negb (doomed e (predecessor ne) m) = true)
  /\ (forall m, In m (nodes (tree P0)) ->
        reopen_leaf m = m
        /\ (identifier m = e -> splitpoint (data m) = Some v)).
Proof.
  intros W Ge Hb P0. split.
  - intros m Hm. unfold P0, after_prune in Hm. cbn [tree nodes] in Hm.
    unfold update_node, reopen_leaves in Hm. cbn [nodes] in Hm.
    apply in_map_iff in Hm as (m1 & <- & Hm1).
    apply in_map_iff in Hm1 as (n1 & <- & Hn1).
    destruct (In_bare n1 _ _ Hb Hn1) as (n & Hn & Bn).
    apply filter_In in Hn as [_ Hk].
    destruct (bare_eq_fields _ _ Bn) as (I1 & I2 & _).
    destruct (same_shape_reopen n1) as (J1 & J2 & _).
    unfold doomed in *.
    destruct (has_id e (reopen_leaf n1)); cbn [identifier predecessor set_splitpoint];
      rewrite J1, J2, <- I1, <- I2; exact Hk.
  - intros m Hm. unfold P0, after_prune in Hm. cbn [tree nodes] in Hm.
    unfold update_node, reopen_leaves in Hm. cbn [nodes] in Hm.
    apply in_map_iff in Hm as (m1 & <- & Hm1).
    apply in_map_iff in Hm1 as (n1 & <- & Hn1).
    destruct (has_id e (reopen_leaf n1)) eqn:E.
    + split; [|reflexivity].
      now rewrite reopen_set_splitpoint, reopen_leaf_twice.
    + split; [apply reopen_leaf_twice|].
      unfold has_id in E. intros Hid. rewrite Hid, Z.eqb_refl in E.
      discriminate.
Qed.

Lemma prune_grown (P0 o1 : HiPart) (S : list Z) (extra : list Node)
    (split e : Z) (v : value) (pe : option Z) (ne0 : Node) :
  hipart_ok P0 = true ->
  (forall m, In m (nodes (tree P0)) -> negb (doomed e pe m) = true) ->
  (forall m, In m (nodes (tree P0)) ->
     reopen_leaf m = m
     /\ (identifier m = e -> splitpoint (data m) = Some v)) ->
  cluster_color P0 = Z.of_nat (length (leaves (tree P0))) + 1 ->
  get_node (tree P0) e = Some ne0 -> predecessor ne0 = pe ->
  grown_from P0 S extra o1 ->
  py_index (internal_nodes_of (tree o1)) split = Some e ->
  prune_phase split v o1 = (Ok tt, P0).
Proof.
  intros HP0 Hkept Hstable Hcc Ge0 Hpe (Hok1 & Hb & HS & Hx & Hmax & Hroot) Hi.
  destruct (hipart_ok_facts P0 HP0) as (WP & HkP & HidP).
  pose proof (hipart_ok_tree o1 Hok1) as Ht1.
  destruct (prune_phase_hipart o1 split e v Ht1 Hi)
    as (t1' & ne1 & Ge1 & W1' & Hr' & Hb' & Hrun' & _).
  rewrite Hrun'. f_equal.
  set (ZL := Z.of_nat (length (nodes (tree P0)))) in *.
  destruct (get_node_In _ _ _ Ge0) as [Hne0 Hide0].
  destruct (get_node_In _ _ _ Ge1) as [Hne1 Hide1].
  destruct (node_id_range _ ne0 HkP Hne0) as [_ He_lt].
  rewrite Hide0 in He_lt. fold ZL in He_lt.
  (* the edited node has the same parent link in the grown tree *)
  assert (Hpe1 : predecessor ne1 = pe).
  { assert (Hin : In (bare ne1) (map bare (nodes (tree o1)))) by now apply in_map.
    rewrite Hb in Hin. apply in_app_or in Hin as [Hin|Hin].
    - apply in_map_iff in Hin as (m' & Bm & Hm').
      apply in_map_iff in Hm' as (m & <- & Hm).
      destruct (bare_eq_fields _ _ Bm) as (I1 & I2 & _).
      destruct (same_shape_close S m) as (J1 & J2 & _).
      assert (m = ne0).
      { apply (same_id_same_node (nodes (tree P0))); auto.
        - now apply WF_NoDup.
        - congruence. }
      subst m. congruence.
    - apply in_map_iff in Hin as (x & Bx & Hxin).
      destruct (Hx x Hxin) as [Hxid _].
      destruct (bare_eq_fields _ _ Bx) as (Ex & _). fold ZL in Hxid. lia. }
  rewrite Hpe1 in Hb'.
  set (keep := fun n : Node => negb (doomed e pe n)) in *.
  (* the nodes made by the loop go, the others stay *)
  assert (Hextra : forall x, In x extra -> keep x = false).
  { intros x Hxin. destruct (Hx x Hxin) as (Hxid & q & Hq & Hq').
    fold ZL in Hxid, Hq'.
    unfold keep, doomed. apply negb_false_iff.
    assert (Eg : (identifier x >? e) = true) by (apply Z.gtb_lt; lia).
    rewrite Eg. cbn [andb].
    destruct pe as [p|]; [|reflexivity]. cbn [is_none orb].
    apply negb_true_iff, opt_eqb_neq. rewrite Hq. intros Eqp.
    injection Eqp as ->.
    destruct (WF_parent _ ne0 p WP Hne0 Hpe) as [Hlt (np & Gp & _)].
    destruct Hq' as [HqS|Hq']; [|lia].
    destruct (HS p HqS) as (m & Hm & Hidm & Hleafm & _).
    destruct WP as (_ & _ & HsP).
    unfold is_leaf in Hleafm. rewrite (HsP m Hm), Hidm in Hleafm.
    assert (Hin : In (identifier ne0) (children_ids (nodes (tree P0)) p)).
    { unfold children_ids. apply in_map, filter_In. split; [assumption|].
      now apply opt_eqb_eq. }
    destruct (children_ids (nodes (tree P0)) p); [destruct Hin | discriminate]. }
  assert (Hfilter : map bare (filter keep (nodes (tree o1))) =
                    map bare (map (close_split S) (nodes (tree P0)))).
  { rewrite <- (filter_map_pres keep bare) by reflexivity.
    rewrite Hb, filter_app.
    rewrite (filter_all keep), (filter_none keep), app_nil_r; [reflexivity| |].
    - intros b Hbin. apply in_map_iff in Hbin as (x & <- & Hxin).
      transitivity (keep x); [reflexivity | now apply Hextra].
    - intros b Hbin. apply in_map_iff in Hbin as (m' & <- & Hm').
      apply in_map_iff in Hm' as (m & <- & Hm).
      unfold keep. rewrite doomed_bare, doomed_close. now apply Hkept. }
  rewrite Hfilter in Hb'.
  set (T := mkTree (map (close_split S) (nodes (tree P0))) (root (tree P0)) : Tree).
  assert (WT : WF T) by (apply WF_map; [apply same_shape_close | assumption]).
  assert (Ht : t1' = T).
  { apply WF_bare_eq; try assumption. cbn [root T]. congruence. }
  rewrite Ht.
  (* the flag and split-point steps restore the data *)
  assert (Hnodes :
    update_node e (set_splitpoint v) (nodes (reopen_leaves T)) = nodes (tree P0)).
  { unfold update_node, reopen_leaves, T. cbn [nodes].
    rewrite !map_map. rewrite <- (map_id (nodes (tree P0))) at 2.
    apply map_ext_in. intros m Hm.
    destruct (Hstable m Hm) as [Hre Hsp].
    assert (Hback : reopen_leaf (close_split S m) = m).
    { unfold close_split. destruct (memZ (identifier m) S) eqn:E; [|assumption].
      apply memZ_In in E. destruct (HS _ E) as (m' & Hm' & Hid & Hl & Hel).
      assert (m' = m).
      { apply (same_id_same_node (nodes (tree P0))); auto. now apply WF_NoDup. }
      subst m'. now apply reopen_closed. }
    rewrite Hback. unfold has_id.
    destruct (identifier m =? e) eqn:E; [|reflexivity].
    apply Z.eqb_eq in E. now apply set_splitpoint_same, Hsp. }
  unfold after_prune. rewrite Hnodes.
  assert (Hlen : length (keys (reopen_leaves T)) = length (nodes (tree P0))).
  { unfold keys, reopen_leaves, T. cbn [nodes]. now rewrite !length_map. }
  assert (Hleaves : length (leaves (reopen_leaves T)) =
                    length (leaves (tree P0))).
  { unfold leaves, reopen_leaves, T. cbn [nodes].
    rewrite (filter_map_pres is_leaf reopen_leaf) by apply is_leaf_reopen.
    rewrite (filter_map_pres is_leaf (close_split S)).
    - now rewrite !length_map.
    - intros m. unfold is_leaf.
      now destruct (same_shape_close S m) as (_ & _ & ->). }
  subst ZL. rewrite Hlen, Hleaves, Hmax, <- HidP, <- Hcc.
  cbn [root T]. destruct P0 as [[ns r] nid cc mx]. reflexivity.
Qed.

End PruneGrown.

(** * The claims about the pruning steps *)

Section PruningClaims.

Context {value payload : Type}.
Local Abbreviation Node := (Node value payload).
Local Abbreviation Tree := (Tree value payload).
Local Abbreviation HiPart := (HiPart value payload).

(** C1.  On a well-formed tree whose edited node [e = internal_nodes[split]]
    is in the tree, the pruning loop ends normally and leaves the first
    key in place; a node [k > e] of the tree is gone afterwards in every
    case when the edited node is the root, and otherwise exactly when its
    parent differs from the parent of the edited node. *)
Theorem pruning_follows_sibling_rule (t : Tree) (split e : Z) (ne : Node) :
  wf_tree t = true ->
  py_index (internal_nodes_of t) split = Some e ->
  get_node t e = Some ne ->
  exists t',
    prune_loop (internal_nodes_of t) split t = (Ok tt, t')
    /\ hd_error (keys t') = hd_error (keys t)
    /\ forall k nk, get_node t k = Some nk -> k > e ->
         (is_root ne = true -> contains t' k = false)
         /\ (is_root ne = false ->
             (contains t' k = false <-> predecessor nk <> predecessor ne)).
Proof.
  intros Hwf Hi Ge. apply wf_tree_WF in Hwf.
  destruct (prune_loop_wf _ split e t ne Hwf Hi Ge)
    as (t' & Hrun & W' & Hr & Hb).
  exists t'. split; [assumption|]. split.
  - assert (Hk : keys t' = map identifier
        (filter (fun n => negb (doomed e (predecessor ne) n)) (nodes t))).
    { unfold keys. now rewrite <- keys_bare, Hb, keys_bare. }
    rewrite Hk. unfold keys.
    pose proof Hwf as ((n0 & rest & E & _) & _). rewrite E. cbn [filter].
    assert (Hle : identifier n0 <= e).
    { apply (WF_first_least t n0 rest e Hwf E).
      apply contains_In. eapply get_node_contains; eauto. }
    unfold doomed at 1.
    destruct (identifier n0 >? e) eqn:Eg; [apply Z.gtb_lt in Eg; lia|].
    reflexivity.
  - intros k nk Gk Hgt.
    rewrite (pruned_contains e (predecessor ne) t t' k nk Hwf Hb Gk).
    destruct (get_node_In t k nk Gk) as [_ Hid].
    unfold doomed, is_root. rewrite Hid.
    assert (Eg : (k >? e) = true) by (apply Z.gtb_lt; lia).
    rewrite Eg. cbn [andb]. split.
    + intros ->. reflexivity.
    + intros ->. cbn [orb]. rewrite negb_involutive.
      destruct (opt_eqb (predecessor nk) (predecessor ne)) eqn:Eo; cbn.
      * apply opt_eqb_eq in Eo. split; congruence.
      * apply opt_eqb_neq in Eo. split; auto.
Qed.

(** C3, as amended.  When the ids of the tree are [0 .. n-1], the list
    from which the edited node is taken is the sorted list of the ids of
    the non-leaf nodes, or [[0]] when there is none; and when the steps
    before the loop end normally, the node that received the new split
    point is the entry of that list at [split]. *)
Theorem edited_node_when_contiguous (o : HiPart) (split : Z) (v : value) :
  contiguous (tree o) = true ->
  internal_nodes_of (tree o) = internal_nodes_spec (tree o)
  /\ forall o', prune_phase split v o = (Ok tt, o') ->
       exists e n,
         py_index (internal_nodes_spec (tree o)) split = Some e
         /\ get_node (tree o') e = Some n
         /\ splitpoint (data n) = Some v.
Proof.
  intros Hc.
  assert (E : internal_nodes_of (tree o) = internal_nodes_spec (tree o)).
  { unfold internal_nodes_of, internal_nodes_spec.
    cbv zeta. rewrite (internal_nodes_of_contiguous (tree o) Hc).
    rewrite sort_ids_sorted.
    - destruct (non_leaf_ids (tree o)); reflexivity.
    - apply ascending_filter_ids. now apply contiguous_ascending. }
  split; [exact E|].
  intros o' Hrun. apply prune_phase_Ok in Hrun as (e & t1 & ne & Hi & _ & G & ->).
  destruct (after_prune_facts o t1 e v ne G) as (_ & _ & _ & (n & Hn1 & Hn2) & _).
  exists e, n. rewrite <- E. auto.
Qed.

(** C6.  When the steps before the loop end normally: every leaf with a
    split criterion has its permission flag set, [node_ids] is the number
    of nodes minus one, [cluster_color] the number of leaves plus one, and
    the edited node carries the new split point. *)
Theorem state_before_recompute (o o' : HiPart) (split : Z) (v : value) :
  prune_phase split v o = (Ok tt, o') ->
  (forall n, In n (leaves (tree o')) ->
     split_criterion (data n) <> None -> split_permition (data n) = true)
  /\ node_ids o' = Z.of_nat (length (nodes (tree o'))) - 1
  /\ cluster_color o' = Z.of_nat (length (leaves (tree o'))) + 1
  /\ exists e n,
       py_index (internal_nodes_of (tree o)) split = Some e
       /\ get_node (tree o') e = Some n
       /\ splitpoint (data n) = Some v.
Proof.
  intros Hrun. apply prune_phase_Ok in Hrun as (e & t1 & ne & Hi & _ & G & ->).
  destruct (after_prune_facts o t1 e v ne G) as (H1 & H2 & H3 & (n & H4 & H5) & _).
  repeat split; try assumption. exists e, n. auto.
Qed.

End PruningClaims.

Lemma pruning_follows_sibling_rule_witness :
  exists t',
    prune_loop (internal_nodes_of Examples.tree_7) 1 Examples.tree_7
      = (Ok tt, t')
    /\ hd_error (keys t') = hd_error (keys Examples.tree_7)
    /\ forall k nk, get_node Examples.tree_7 k = Some nk -> k > 1 ->
         (is_root (mkNode 1 (Some 0) [3; 4] (Examples.inner_data 3 15 [10; 20]))
            = true -> contains t' k = false)
         /\ (is_root (mkNode 1 (Some 0) [3; 4] (Examples.inner_data 3 15 [10; 20]))
               = false ->
             (contains t' k = false <->
              predecessor nk <> Some 0)).
Proof.
  apply (pruning_follows_sibling_rule Examples.tree_7 1 1
           (mkNode 1 (Some 0) [3; 4] (Examples.inner_data 3 15 [10; 20])));
    reflexivity.
Defined.

Lemma edited_node_when_contiguous_witness :
  internal_nodes_of Examples.tree_7 = internal_nodes_spec Examples.tree_7
  /\ forall o', prune_phase 1 42 (Examples.obj_7 4) = (Ok tt, o') ->
       exists e n,
         py_index (internal_nodes_spec Examples.tree_7) 1 = Some e
         /\ get_node (tree o') e = Some n
         /\ splitpoint (data n) = Some 42.
Proof.
  apply (edited_node_when_contiguous (Examples.obj_7 4) 1 42). reflexivity.
Defined.

(** C3 fails as stated: on the tree with the ids 0, 3, 4 the code takes
    node 1 for [split = 1], where the sorted list of the non-leaf ids,
    [[0]], has no such entry. *)
Lemma edited_node_gap_counterexample :
  py_index (internal_nodes_of Examples.tree_034) 1 = Some 1
  /\ py_index (internal_nodes_spec Examples.tree_034) 1 = None
  /\ contains Examples.tree_034 1 = false.
Proof. repeat split. Qed.

Lemma state_before_recompute_witness :
  exists o',
    prune_phase 0 42 (Examples.obj_012 2) = (Ok tt, o')
    /\ (forall n, In n (leaves (tree o')) ->
          split_criterion (data n) <> None -> split_permition (data n) = true)
    /\ node_ids o' = Z.of_nat (length (nodes (tree o'))) - 1
    /\ cluster_color o' = Z.of_nat (length (leaves (tree o'))) + 1
    /\ exists e n,
         py_index (internal_nodes_of (tree (Examples.obj_012 2))) 0 = Some e
         /\ get_node (tree o') e = Some n
         /\ splitpoint (data n) = Some 42.
Proof.
  eexists. split; [reflexivity|].
  apply (state_before_recompute (Examples.obj_012 2) _ 0 42). reflexivity.
Defined.

(** * The claims about the split index and the loop *)

Section LoopClaims.

Context {value payload : Type}.
Local Abbreviation Node := (Node value payload).
Local Abbreviation Tree := (Tree value payload).
Local Abbreviation HiPart := (HiPart value payload).

Variable select_kid : list Node -> option Z.
Variable split_function : Z -> M HiPart unit.

(** C2, as amended.  With a splitter that raises no [IndexError] of its
    own, [recalculate_after_spchange] raises [IndexError] exactly when
    [split] is outside [-len, len), for [len] the length of the list of
    internal nodes; and when it does so on a tree of two nodes or more,
    the object is as it was. *)
Theorem index_error_iff_out_of_range (fuel : nat) (o : HiPart) (split : Z)
    (v : value) :
  splitter_no_index_error split_function ->
  let len := Z.of_nat (length (internal_nodes_of (tree o))) in
  let run := recalculate_after_spchange select_kid split_function fuel o
               split v in
  (fst (fst run) = Raise IndexError <-> ~ (- len <= split < len))
  /\ (~ (- len <= split < len) ->
      (2 <= length (nodes (tree o)))%nat -> snd (fst run) = o).
Proof.
  intros Hs len run. subst len run. unfold recalculate_after_spchange.
  destruct (py_index (internal_nodes_of (tree o)) split) as [e|] eqn:Hi.
  - assert (Hin : - Z.of_nat (length (internal_nodes_of (tree o))) <= split
                  < Z.of_nat (length (internal_nodes_of (tree o))))
      by (apply py_index_Some_range; eauto).
    pose proof (prune_phase_in_range split e v o Hi) as Hp.
    split; [|intros Hn; contradiction].
    split; [|intros Hn; contradiction].
    intros Hr. exfalso.
    destruct (prune_phase split v o) as [[[]|x|] o1]; cbn in *.
    + unfold partial_predict in Hr.
      pose proof (predict_loop_no_index_error select_kid split_function Hs
                    fuel (select_kid (leaves (tree o1)))
                    (Z.of_nat (length (leaves (tree o1)))) o1) as Hl.
      destruct (predict_loop _ _ _ _ _ _) as [[r o'] tr]. cbn in *.
      contradiction.
    + contradiction.
    + discriminate.
  - assert (Hout : ~ (- Z.of_nat (length (internal_nodes_of (tree o))) <= split
                      < Z.of_nat (length (internal_nodes_of (tree o)))))
      by (now apply py_index_None_range).
    rewrite (prune_phase_out_of_range split v o Hi).
    destruct (2 <=? length (nodes (tree o)))%nat eqn:E2; cbn.
    + split; [tauto|]. reflexivity.
    + split; [tauto|]. intros _ H2. apply Nat.leb_gt in E2. lia.
Qed.

(** C4.  With a splitter that returns or raises and leaves the budget
    alone, and a budget that is not negative, [partial_predict] ends
    within [max_clusters_number] passes of its loop: it calls the splitter
    at most [max_clusters_number] times, and each call is followed by one
    selection before the next call. *)
Theorem partial_predict_terminates (fuel : nat) (o : HiPart) :
  splitter_keeps_budget split_function ->
  splitter_terminates split_function ->
  0 <= max_clusters_number o ->
  (Z.to_nat (max_clusters_number o) <= fuel)%nat ->
  let run := partial_predict select_kid split_function fuel o in
  fst (fst run) <> OutOfFuel
  /\ Z.of_nat (count_splits (snd run)) <= max_clusters_number o
  /\ well_sequenced (snd run) = true.
Proof.
  intros Hb Ht Hmax Hf run. subst run. unfold partial_predict.
  pose proof (predict_loop_bound select_kid split_function Hb Ht fuel
                (select_kid (leaves (tree o)))
                (Z.of_nat (length (leaves (tree o)))) o) as H.
  destruct (predict_loop _ _ _ _ _ _) as [[r o'] tr]. cbn in *.
  destruct H as (H1 & H2 & H3 & _); [lia|].
  repeat split; try assumption.
  unfold count_splits in *. cbn. lia.
Qed.

End LoopClaims.

Lemma index_error_iff_out_of_range_witness :
  let o := Examples.obj_7 4 in
  let len := Z.of_nat (length (internal_nodes_of (tree o))) in
  let run := recalculate_after_spchange Examples.select_kid
               Examples.split_function 4 o 3 42 in
  (fst (fst run) = Raise IndexError <-> ~ (- len <= 3 < len))
  /\ (~ (- len <= 3 < len) ->
      (2 <= length (nodes (tree o)))%nat -> snd (fst run) = o).
Proof.
  apply (index_error_iff_out_of_range Examples.select_kid
           Examples.split_function 4 (Examples.obj_7 4) 3 42).
  apply reference_no_index_error.
Defined.

(** C2 fails as stated: the index -1 is outside [0, len) and the call
    ends normally, editing the last internal node. *)
Lemma negative_index_counterexample :
  let o := Examples.obj_012 2 in
  ~ (0 <= -1 < Z.of_nat (length (internal_nodes_of (tree o))))
  /\ fst (fst (recalculate_after_spchange Examples.select_kid
                 Examples.split_function 4 o (-1) 42)) = Ok tt.
Proof. split; [cbn; lia | reflexivity]. Qed.

(** On a tree with a single node the index is looked up only at line 1018:
    the raise comes after the flags and the counters were written. *)
Lemma late_index_error_single_node :
  let run := recalculate_after_spchange Examples.select_kid
               Examples.split_function 4 Examples.obj_0 1 42 in
  fst (fst run) = Raise IndexError
  /\ node_ids Examples.obj_0 = 7 /\ node_ids (snd (fst run)) = 0
  /\ cluster_color Examples.obj_0 = 5 /\ cluster_color (snd (fst run)) = 2
  /\ get_node (tree (snd (fst run))) 0
     = Some (mkNode 0 None [] (mkData (Some 9) true None [10; 20; 30; 40])).
Proof. repeat split. Qed.

Lemma partial_predict_terminates_witness :
  let run := partial_predict Examples.select_kid Examples.split_function 4
               (Examples.obj_012 4) in
  fst (fst run) <> OutOfFuel
  /\ Z.of_nat (count_splits (snd run)) <= 4
  /\ well_sequenced (snd run) = true.
Proof.
  apply (partial_predict_terminates Examples.select_kid
           Examples.split_function 4 (Examples.obj_012 4)).
  - apply reference_keeps_budget.
  - apply reference_terminates.
  - cbn. lia.
  - cbn. lia.
Defined.

(** * The scenario of the root edit *)

Section RootEdit.

Context {value payload : Type}.
Local Abbreviation Node := (Node value payload).
Local Abbreviation Tree := (Tree value payload).
Local Abbreviation HiPart := (HiPart value payload).

Variable select_kid : list Node -> option Z.
Variable split_function : Z -> M HiPart unit.

(** C5.  Root 0 with the two leaves 1 and 2, budget 2, edit of split 0
    with any split point.  The selector and the splitter obey their
    contracts of sections 4.2 and 4.3, and the root, having been split
    once, has a split criterion.  Then the steps before the loop remove
    1 and 2 and write the split point on node 0, and the loop performs
    one split of node 0, which adds two leaves that were not in the
    pruned tree, and stops with as many leaves as the budget (ST1). *)
Theorem root_edit_resplits_once (fuel : nat) (d0 d1 d2 : NodeData value payload)
    (nid cc : Z) (v : value) :
  selector_picks_eligible select_kid ->
  selector_finds_eligible select_kid ->
  splitter_makes_two_leaves split_function ->
  splitter_keeps_budget split_function ->
  split_criterion d0 <> None ->
  (1 <= fuel)%nat ->
  let t := mkTree [ mkNode 0 None [1; 2] d0;
                    mkNode 1 (Some 0) [] d1;
                    mkNode 2 (Some 0) [] d2 ] (Some 0) in
  let o := mkHiPart t nid cc 2 in
  exists o1 o2 n0 n1 n2 s,
    prune_phase 0 v o = (Ok tt, o1)
    /\ nodes (tree o1) = [n0]
    /\ identifier n0 = 0
    /\ splitpoint (data n0) = Some v
    /\ recalculate_after_spchange select_kid split_function fuel o 0 v
       = ((Ok tt, o2), [EvSelect (Some 0); EvSplit 0; EvSelect s])
    /\ leaves (tree o2) = [n1; n2]
    /\ predecessor n1 = Some 0 /\ predecessor n2 = Some 0
    /\ identifier n1 < identifier n2
    /\ contains (tree o1) (identifier n1) = false
    /\ contains (tree o1) (identifier n2) = false
    /\ Z.of_nat (length (leaves (tree o2))) >= max_clusters_number o2.
Proof.
  intros Hpick Hfind Hsplit Hbudget Hcrit Hfuel t o.
  set (n0 := mkNode 0 None []
               (mkData (split_criterion d0) true (Some v) (other_data d0))
             : Node).
  set (o1 := mkHiPart (mkTree [n0] (Some 0)) 0 2 2 : HiPart).
  assert (Hprune : prune_phase 0 v o = (Ok tt, o1)).
  { subst o t o1 n0. destruct d0 as [c0 p0 s0 x0]. cbn in Hcrit.
    destruct c0 as [c|]; [|congruence]. reflexivity. }
  assert (Hel : eligible n0 = true).
  { subst n0. unfold eligible. cbn.
    destruct (split_criterion d0); [reflexivity | congruence]. }
  assert (Hsel : select_kid (leaves (tree o1)) = Some 0).
  { change (leaves (tree o1)) with [n0].
    destruct (select_kid [n0]) as [k|] eqn:Es.
    - destruct (Hpick _ _ Es) as (n & [<-|[]] & <- & _). reflexivity.
    - pose proof (Hfind _ Es n0 (or_introl eq_refl)). congruence. }
  destruct (Hsplit 0 o1 n0 eq_refl eq_refl Hel)
    as (o2 & c1 & c2 & n1 & n2 & g & Hrun & Hnodes & Hroot & Hg & Hn1 & Hn2
        & Hlt & Hc1 & Hc2).
  { intros j [<-|[]]. cbn. lia. }
  pose proof (Hbudget 0 o1 _ _ Hrun) as Hmax. cbn in Hmax.
  change (update_node 0 g (nodes (tree o1))) with [g n0] in Hnodes.
  assert (Hleaves : leaves (tree o2) = [n1; n2]).
  { unfold leaves. rewrite Hnodes. cbn [app filter].
    destruct (Hg n0) as (_ & _ & Hs).
    unfold is_leaf at 1. rewrite Hs. cbn [length app Nat.eqb].
    rewrite Hn1, Hn2. reflexivity. }
  exists o1, o2, n0, n1, n2, (select_kid (leaves (tree o2))).
  repeat split; try assumption; try reflexivity.
  - unfold recalculate_after_spchange. rewrite Hprune.
    unfold partial_predict. rewrite Hsel.
    change (Z.of_nat (length (leaves (tree o1)))) with 1.
    destruct fuel as [|fuel]; [lia|].
    rewrite (predict_loop_step _ _ fuel 0 1 o1 o2 eq_refl Hrun). cbv zeta.
    rewrite predict_loop_stop; [reflexivity|].
    rewrite Hmax. reflexivity.
  - rewrite Hn1. reflexivity.
  - rewrite Hn2. reflexivity.
  - rewrite Hn1, Hn2. exact Hlt.
  - rewrite Hn1. exact Hc1.
  - rewrite Hn2. exact Hc2.
  - rewrite Hleaves, Hmax. cbn. lia.
Qed.

End RootEdit.

Lemma root_edit_resplits_once_witness :
  let o := Examples.obj_012 2 in
  exists o1 o2 n0 n1 n2 s,
    prune_phase 0 25 o = (Ok tt, o1)
    /\ nodes (tree o1) = [n0]
    /\ identifier n0 = 0
    /\ splitpoint (data n0) = Some 25
    /\ recalculate_after_spchange Examples.select_kid Examples.split_function
         1 o 0 25
       = ((Ok tt, o2), [EvSelect (Some 0); EvSplit 0; EvSelect s])
    /\ leaves (tree o2) = [n1; n2]
    /\ predecessor n1 = Some 0 /\ predecessor n2 = Some 0
    /\ identifier n1 < identifier n2
    /\ contains (tree o1) (identifier n1) = false
    /\ contains (tree o1) (identifier n2) = false
    /\ Z.of_nat (length (leaves (tree o2))) >= max_clusters_number o2.
Proof.
  apply (root_edit_resplits_once Examples.select_kid Examples.split_function
           1 (Examples.inner_data 9 50 [10; 20; 30; 40])
           (Examples.leaf_data 3 [10; 20]) (Examples.leaf_data 4 [30; 40])
           2 3 25).
  - apply reference_picks_eligible.
  - apply reference_finds_eligible.
  - apply reference_makes_two_leaves.
  - apply reference_keeps_budget.
  - discriminate.
  - lia.
Defined.

(** * What an edit leaves in place *)

Section FrameClaims.

Context {value payload : Type}.
Local Abbreviation Node := (Node value payload).
Local Abbreviation Tree := (Tree value payload).
Local Abbreviation HiPart := (HiPart value payload).

Variable select_kid : list Node -> option Z.
Variable split_function : Z -> M HiPart unit.


End FrameClaims.



(** * Node ids over a session *)

Section IdClaims.

Context {value payload : Type}.
Local Abbreviation Node := (Node value payload).
Local Abbreviation Tree := (Tree value payload).
Local Abbreviation HiPart := (HiPart value payload).

(** C9, as amended.  Start from a HiPart tree (ids [0 .. n-1] in creation
    order) and apply any sequence of edits, with a selector that returns
    eligible leaves and the splitter that numbers the children
    [node_ids + 1] and [node_ids + 2].  Then the ids of the tree are still
    strictly increasing in creation order, hence unique, and they are
    again [0 .. n'-1]: the ids of removed nodes are handed out again. *)
Theorem ids_stay_ordered
    (calc : NodeData value payload -> bool -> Z -> NodeData value payload)
    (select_kid : list Node -> option Z) (fuel : nat)
    (edits : list (Z * value)) (o : HiPart) :
  selector_picks_eligible select_kid ->
  hipart_tree (tree o) = true ->
  let o' := apply_edits select_kid (split_function_spec calc) fuel edits o in
  ascending (keys (tree o')) = true
  /\ NoDup (keys (tree o'))
  /\ keys (tree o') = py_range (length (nodes (tree o'))).
Proof.
  intros Hpick H o'.
  pose proof (apply_edits_hipart calc select_kid Hpick fuel edits o H) as H'.
  fold o' in H'. apply hipart_tree_iff in H' as (W & Hk & _).
  pose proof W as (_ & Hasc & _).
  repeat split; [assumption | now apply ascending_NoDup | assumption].
Qed.

End IdClaims.

Lemma ids_stay_ordered_witness :
  let o' := apply_edits Examples.select_kid
              (split_function_spec Examples.calculate_node_data) 4
              [(1, 42); (0, 35)] (Examples.obj_7 4) in
  ascending (keys (tree o')) = true
  /\ NoDup (keys (tree o'))
  /\ keys (tree o') = py_range (length (nodes (tree o'))).
Proof.
  apply (ids_stay_ordered Examples.calculate_node_data Examples.select_kid 4
           [(1, 42); (0, 35)] (Examples.obj_7 4)).
  - apply reference_picks_eligible.
  - reflexivity.
Defined.

(** C9 fails as stated: editing the root of the three-node tree removes
    the nodes 1 and 2 and resets [node_ids] to 0, and the two leaves made
    by the next split are numbered 1 and 2 again. *)
Lemma removed_ids_reused_counterexample :
  let o := Examples.obj_012 2 in
  let pruned := snd (prune_phase 0 35 o) in
  let o' := snd (fst (recalculate_after_spchange Examples.select_kid
                        Examples.split_function 4 o 0 35)) in
  keys (tree o) = [0; 1; 2]
  /\ keys (tree pruned) = [0]
  /\ node_ids pruned = 0
  /\ keys (tree o') = [0; 1; 2]
  /\ option_map (fun n => other_data (data n)) (get_node (tree o) 1)
     = Some [10; 20]
  /\ option_map (fun n => other_data (data n)) (get_node (tree o') 1)
     = Some [10; 20; 30].
Proof. repeat split. Qed.

(** * The input check of [main] *)

Module EntryClaims.

Import Entry.
Import String.
Local Open Scope string_scope.
Local Open Scope list_scope.

(** C10.  [main] raises [TypeError] with no effect performed exactly when
    the input is an instance of none of the four classes; for an instance
    of one of them the check passes and the first thing [main] does is to
    create a temporary file. *)
Theorem main_type_check (served inputData : PyObject) (log : list effect) :
  (supported inputData = false ->
     main served inputData log = (Raise TypeError, log))
  /\ (supported inputData = true ->
        exists rest,
          main served inputData log =
          (Ok served, log ++ NamedTemporaryFile ".inv" :: rest)).
Proof.
  split; intros H; unfold main; rewrite H; cbn [negb].
  - reflexivity.
  - unfold bind, emit, modify, ret. cbn.
    repeat rewrite <- app_assoc. cbn. eexists. reflexivity.
Qed.

Lemma main_type_check_witness :
  main (mkPyObject ["dePDDP"; "Partition"; "object"] "edited")
       (mkPyObject ["KMeans"; "object"] "blob") []
  = (Raise TypeError, [])
  /\ exists rest,
       main (mkPyObject ["dePDDP"; "Partition"; "object"] "edited")
            (mkPyObject ["iPDDP"; "Partition"; "object"] "blob") []
       = (Ok (mkPyObject ["dePDDP"; "Partition"; "object"] "edited"),
          [] ++ NamedTemporaryFile ".inv" :: rest).
Proof.
  split.
  - apply (main_type_check
             (mkPyObject ["dePDDP"; "Partition"; "object"] "edited")
             (mkPyObject ["KMeans"; "object"] "blob") []).
    reflexivity.
  - apply (main_type_check
             (mkPyObject ["dePDDP"; "Partition"; "object"] "edited")
             (mkPyObject ["iPDDP"; "Partition"; "object"] "blob") []).
    reflexivity.
Defined.

Lemma isinstance_subclass :
  supported (mkPyObject ["MyPDDP"; "PDDP"; "Partition"; "object"] "blob") = true
  /\ supported (mkPyObject ["KMeans"; "object"] "blob") = false.
Proof. split; reflexivity. Qed.

End EntryClaims.

(** * Applying the same edit twice *)

Section Idempotence.

Context {value payload : Type}.
Local Abbreviation Node := (Node value payload).
Local Abbreviation Tree := (Tree value payload).
Local Abbreviation HiPart := (HiPart value payload).

(** C8, as amended.  On a HiPart tree, with a selector that returns
    eligible leaves and the splitter that closes the flag of the node it
    splits and numbers the children [node_ids + 1], [node_ids + 2]: when
    [split] still designates the same node after the first call, the
    second call with the same [split] and the same split point returns
    the same outcome, the same object and the same run of the loop. *)
Theorem second_edit_same_when_index_stable
    (calc : NodeData value payload -> bool -> Z -> NodeData value payload)
    (select_kid : list Node -> option Z) (fuel : nat) (o : HiPart)
    (split e : Z) (v : value) :
  selector_picks_eligible select_kid ->
  hipart_tree (tree o) = true ->
  py_index (internal_nodes_of (tree o)) split = Some e ->
  let first := recalculate_after_spchange select_kid
                 (split_function_spec calc) fuel o split v in
  py_index (internal_nodes_of (tree (snd (fst first)))) split = Some e ->
  recalculate_after_spchange select_kid (split_function_spec calc) fuel
    (snd (fst first)) split v = first.
Proof.
  intros Hpick H Hi first Hi1.
  destruct (prune_phase_hipart o split e v H Hi)
    as (t1 & ne & Ge & W1 & Hr & Hb & Hrun & Hok).
  set (P0 := after_prune o t1 e v) in *.
  pose proof H as H'. apply hipart_tree_iff in H' as (W & _).
  destruct (pruned_object_facts o t1 e v ne W Ge Hb) as [Hkept Hstable].
  fold P0 in Hkept, Hstable.
  destruct (get_node_In _ _ _ Ge) as [_ Hide].
  assert (Hkeep_e : negb (doomed e (predecessor ne) ne) = true).
  { unfold doomed. rewrite Hide.
    destruct (e >? e) eqn:E; [apply Z.gtb_lt in E; lia | reflexivity]. }
  destruct (after_prune_edited o (tree o) t1 e v ne _ W Ge Hkeep_e Hb)
    as (ne0 & _ & Ge0 & _ & _ & _ & Hpe0 & _).
  fold P0 in Ge0.
  assert (Hcc : cluster_color P0 = Z.of_nat (length (leaves (tree P0))) + 1).
  { assert (G1 : exists n1, get_node (reopen_leaves t1) e = Some n1).
    { unfold P0, after_prune, get_node in Ge0. cbn [tree nodes] in Ge0.
      rewrite find_update_node in Ge0 by reflexivity.
      unfold get_node. destruct (find (has_id e) (nodes (reopen_leaves t1)));
        [eauto | discriminate]. }
    destruct G1 as [n1 G1].
    now destruct (after_prune_facts o t1 e v n1 G1) as (_ & _ & Hc & _). }
  assert (Hfirst : first = partial_predict select_kid (split_function_spec calc)
                             fuel P0).
  { unfold first, recalculate_after_spchange. now rewrite Hrun. }
  assert (Hstate : snd (fst first) =
            snd (fst (predict_loop select_kid (split_function_spec calc) fuel
                        (select_kid (leaves (tree P0)))
                        (Z.of_nat (length (leaves (tree P0)))) P0))).
  { now rewrite Hfirst, partial_predict_state. }
  destruct (grown_loop calc select_kid Hpick P0 fuel Hok
              (select_kid (leaves (tree P0)))
              (Z.of_nat (length (leaves (tree P0)))) P0 [] []
              (grown_start P0 Hok)) as (S & extra & Hg).
  { intros k Hk. destruct (Hpick _ _ Hk) as (m & Hm & Hid & He). eauto. }
  rewrite <- Hstate in Hg.
  unfold recalculate_after_spchange at 1.
  rewrite (prune_grown P0 (snd (fst first)) S extra split e v
             (predecessor ne) ne0 Hok Hkept Hstable Hcc Ge0 Hpe0 Hg Hi1).
  now rewrite Hfirst.
Qed.

End Idempotence.

Lemma second_edit_same_when_index_stable_witness :
  let first := recalculate_after_spchange Examples.select_kid
                 (split_function_spec Examples.calculate_node_data) 4
                 (Examples.obj_7 4) 1 42 in
  recalculate_after_spchange Examples.select_kid
    (split_function_spec Examples.calculate_node_data) 4
    (snd (fst first)) 1 42 = first.
Proof.
  apply (second_edit_same_when_index_stable Examples.calculate_node_data
           Examples.select_kid 4 (Examples.obj_7 4) 1 1 42).
  - apply reference_picks_eligible.
  - reflexivity.
  - reflexivity.
  - reflexivity.
Defined.

(** C8 fails as stated.  Take the clustering built from the root alone,
    whose splits are the nodes 0, 1, 2, and edit split 2 with the split
    point 100.  The budget is then spent under node 2, node 1 stays a
    leaf, and the splits are the nodes 0, 2, 3: the same call now edits
    node 3 and yields another tree. *)
Lemma second_edit_differs_counterexample :
  let o := Examples.obj_built in
  let first := recalculate_after_spchange Examples.select_kid
                 Examples.split_function 4 o 2 100 in
  let second := recalculate_after_spchange Examples.select_kid
                  Examples.split_function 4 (snd (fst first)) 2 100 in
  fst (fst first) = Ok tt
  /\ fst (fst second) = Ok tt
  /\ internal_nodes_of (tree o) = [0; 1; 2]
  /\ internal_nodes_of (tree (snd (fst first))) = [0; 2; 3]
  /\ tree (snd (fst second)) <> tree (snd (fst first)).
Proof.
  repeat split.
  intros E.
  apply (f_equal (fun t => option_map (fun n => splitpoint (data n))
                             (get_node t 3))) in E.
  vm_compute in E. discriminate.
Qed.
(** * Further properties of the pruning steps *)

Section PruningFacts.

Context {value payload : Type}.
Local Abbreviation Node := (Node value payload).
Local Abbreviation Tree := (Tree value payload).
Local Abbreviation HiPart := (HiPart value payload).

Lemma keys_after_prune (o : HiPart) (t1 : Tree) (e : Z) (v : value) :
  keys (tree (after_prune o t1 e v)) = keys t1.
Proof.
  unfold after_prune, keys, reopen_leaves. cbn [tree nodes].
  rewrite keys_update_node by reflexivity.
  apply keys_map, same_shape_reopen.
Qed.

Lemma range_head (n : nat) : py_range (S n) = 0 :: map Z.of_nat (seq 1 n).
Proof. reflexivity. Qed.

(** A node above the edited one that the loop keeps is its sibling
    [e + 1]. *)
Lemma survivor_above (t : Tree) (e : Z) (ne nk : Node) :
  hipart_tree t = true -> get_node t e = Some ne -> In nk (nodes t) ->
  e < identifier nk ->
  negb (doomed e (predecessor ne) nk) = true ->
  identifier nk = e + 1
  /\ is_none (predecessor ne) = false
  /\ predecessor nk = predecessor ne.
Proof.
  intros H Ge Hk Hlt Hkeep.
  apply hipart_tree_iff in H as (W & _ & Hsib).
  destruct (get_node_In t e ne Ge) as [Hne Hide].
  apply negb_true_iff in Hkeep. unfold doomed in Hkeep.
  assert (Eg : (identifier nk >? e) = true) by (apply Z.gtb_lt; lia).
  rewrite Eg in Hkeep. cbn [andb] in Hkeep.
  apply orb_false_iff in Hkeep as [Hn Hp].
  apply negb_false_iff, opt_eqb_eq in Hp.
  pose proof (Hsib nk ne Hk Hne Hp) as Habs.
  repeat split; try assumption. lia.
Qed.

(** The number of nodes that the loop leaves on a HiPart tree. *)
Lemma pruned_count (t t1 : Tree) (e : Z) (ne : Node) :
  hipart_tree t = true -> get_node t e = Some ne -> WF t1 ->
  map bare (nodes t1) =
    map bare (filter (fun n => negb (doomed e (predecessor ne) n)) (nodes t)) ->
  0 <= e
  /\ length (nodes t1) =
     (Z.to_nat e + (if later_sibling t e ne then 2 else 1))%nat.
Proof.
  intros H Ge W1 Hb.
  pose proof (pruned_hipart t t1 e ne H Ge W1 Hb) as H1.
  pose proof H as H'. apply hipart_tree_iff in H' as (W & Hk & Hsib).
  apply hipart_tree_iff in H1 as (_ & Hk1 & _).
  destruct (get_node_In t e ne Ge) as [Hne Hide].
  assert (He : 0 <= e < Z.of_nat (length (nodes t))).
  { rewrite <- Hide. now apply node_id_range. }
  assert (Hin : forall k nk, get_node t k = Some nk ->
            (In k (keys t1) <-> negb (doomed e (predecessor ne) nk) = true)).
  { intros k nk Gk. rewrite <- contains_In.
    now rewrite (pruned_contains e (predecessor ne) t t1 k nk W Hb Gk). }
  assert (Hsub : forall k, In k (keys t1) -> exists nk, get_node t k = Some nk).
  { intros k Hk'. apply contains_get_node, contains_In.
    destruct (pruned_keys t t1 _ Hb) as [Ek _]. rewrite Ek in Hk'.
    apply in_map_iff in Hk' as (n & <- & Hn). apply filter_In in Hn as [Hn _].
    unfold keys. now apply in_map. }
  assert (Hein : In e (keys t1)).
  { apply (Hin e ne Ge). unfold doomed. rewrite Hide.
    assert (Eg : (e >? e) = false) by (rewrite Z.gtb_ltb; apply Z.ltb_ge; lia).
    now rewrite Eg. }
  assert (Hno : ~ In (e + 2) (keys t1)).
  { intros Hk2. destruct (Hsub _ Hk2) as (n2 & G2).
    destruct (get_node_In t _ n2 G2) as [Hn2 Hid2].
    apply (Hin _ n2 G2) in Hk2.
    destruct (survivor_above t e ne n2 H Ge Hn2 ltac:(lia) Hk2) as (Habs & _).
    lia. }
  assert (Hone : In (e + 1) (keys t1) <-> later_sibling t e ne = true).
  { unfold later_sibling. destruct (get_node t (e + 1)) as [n1|] eqn:G1.
    - rewrite (Hin _ n1 G1). destruct (get_node_In t _ n1 G1) as [_ Hid1].
      unfold doomed. rewrite Hid1.
      assert (Eg : (e + 1 >? e) = true) by (apply Z.gtb_lt; lia).
      rewrite Eg. cbn [andb]. rewrite negb_orb, negb_involutive. tauto.
    - split; [|discriminate]. intros Hk1'.
      destruct (Hsub _ Hk1') as (n1 & G1'). congruence. }
  rewrite Hk1 in Hein, Hno, Hone. rewrite In_range in Hein, Hno, Hone.
  split; [lia|].
  destruct (later_sibling t e ne).
  - assert (0 <= e + 1 < Z.of_nat (length (nodes t1))) by now apply Hone.
    lia.
  - assert (~ (0 <= e + 1 < Z.of_nat (length (nodes t1)))).
    { intros Habs. apply Hone in Habs. discriminate. }
    lia.
Qed.

(** On a HiPart tree the first entry of the list of internal nodes is
    the root, whose id is 0. *)
Lemma first_split_is_root (t : Tree) :
  hipart_tree t = true ->
  exists n0 rest,
    nodes t = n0 :: rest /\ identifier n0 = 0 /\ predecessor n0 = None
    /\ py_index (internal_nodes_of t) 0 = Some 0.
Proof.
  intros H. pose proof H as H'.
  apply hipart_tree_iff in H' as (W & Hk & _).
  pose proof W as ((n0 & rest & E & Hp0 & _ & Hrest) & _ & Hsucc).
  exists n0, rest.
  assert (Hid0 : identifier n0 = 0).
  { unfold keys in Hk. rewrite E in Hk. cbn [map length] in Hk.
    rewrite range_head in Hk. now injection Hk. }
  repeat split; try assumption.
  assert (Hc : contiguous t = true).
  { unfold hipart_tree in H. apply andb_true_iff in H as [H _].
    now apply andb_true_iff in H as [_ H]. }
  unfold internal_nodes_of. cbv zeta.
  rewrite (internal_nodes_of_contiguous t Hc).
  unfold non_leaf_ids. rewrite E. cbn [filter].
  destruct (is_leaf n0) eqn:El; cbn [negb map].
  - assert (Er : rest = []).
    { destruct rest as [|n1 rest']; [reflexivity|]. exfalso.
      assert (Hid1 : identifier n1 = 1).
      { unfold keys in Hk. rewrite E in Hk. cbn [map length] in Hk.
        rewrite range_head in Hk. cbn [seq map] in Hk. now injection Hk. }
      destruct (Hrest n1 (or_introl eq_refl)) as (p & Hp & Hlt & Hin).
      rewrite Hk, In_range in Hin.
      assert (p = 0) by lia. subst p.
      assert (Hs : successors n0 = children_ids (nodes t) (identifier n0)).
      { apply Hsucc. rewrite E. now left. }
      unfold is_leaf in El. apply Nat.eqb_eq in El.
      apply length_zero_iff_nil in El. rewrite El in Hs. symmetry in Hs.
      apply children_ids_nil with (m := n1) in Hs.
      - rewrite Hid0 in Hs. contradiction.
      - rewrite E. right. now left. }
    subst rest. reflexivity.
  - cbn [length Nat.eqb]. rewrite Hid0. reflexivity.
Qed.

Lemma other_data_reopen (n : Node) :
  other_data (data (reopen_leaf n)) = other_data (data n).
Proof.
  unfold reopen_leaf.
  destruct (is_leaf n); [|reflexivity].
  destruct (negb (is_none (split_criterion (data n)))); reflexivity.
Qed.

Lemma splitpoint_reopen (n : Node) :
  splitpoint (data (reopen_leaf n)) = splitpoint (data n).
Proof.
  unfold reopen_leaf.
  destruct (is_leaf n); [|reflexivity].
  destruct (negb (is_none (split_criterion (data n)))); reflexivity.
Qed.

Lemma permition_reopen (n : Node) :
  split_permition (data (reopen_leaf n)) <> split_permition (data n) ->
  is_leaf n = true /\ split_permition (data (reopen_leaf n)) = true.
Proof.
  unfold reopen_leaf.
  destruct (is_leaf n); [|congruence].
  destruct (negb (is_none (split_criterion (data n)))); [|congruence].
  intros _. split; reflexivity.
Qed.

(** A node found after the steps before the loop comes from a node that
    the loop kept. *)
Lemma after_prune_lookup (o : HiPart) (t1 : Tree) (e a : Z) (v : value)
    (na' : Node) :
  get_node (tree (after_prune o t1 e v)) a = Some na' ->
  exists n1,
    get_node t1 a = Some n1
    /\ na' = (if has_id e (reopen_leaf n1)
              then set_splitpoint v (reopen_leaf n1) else reopen_leaf n1).
Proof.
  unfold after_prune, get_node, reopen_leaves. cbn [tree nodes].
  rewrite find_update_node by reflexivity.
  rewrite find_map_shape by apply reopen_leaf_id.
  destruct (find (has_id a) (nodes t1)) as [n1|]; [|discriminate].
  cbn [option_map]. intros E. injection E as <-. now exists n1.
Qed.

(** The loop and the steps after it end normally on a well-formed tree
    that holds the edited node. *)
Lemma prune_phase_wf (o : HiPart) (split e : Z) (v : value) (ne : Node) :
  WF (tree o) ->
  py_index (internal_nodes_of (tree o)) split = Some e ->
  get_node (tree o) e = Some ne ->
  exists t1,
    WF t1
    /\ map bare (nodes t1) =
       map bare (filter (fun n => negb (doomed e (predecessor ne) n))
                        (nodes (tree o)))
    /\ prune_phase split v o = (Ok tt, after_prune o t1 e v).
Proof.
  intros W Hi Ge.
  destruct (prune_loop_wf _ split e (tree o) ne W Hi Ge)
    as (t1 & Hrun & W1 & _ & Hb).
  exists t1. split; [assumption|]. split; [assumption|].
  rewrite prune_phase_unfold, Hrun, Hi.
  assert (Hc : contains t1 e = true).
  { rewrite (pruned_contains e (predecessor ne) (tree o) t1 e ne W Hb Ge).
    destruct (get_node_In _ e ne Ge) as [_ Hid]. unfold doomed. rewrite Hid.
    assert (Eg : (e >? e) = false) by (rewrite Z.gtb_ltb; apply Z.ltb_ge; lia).
    now rewrite Eg. }
  destruct (contains_get_node t1 e Hc) as (n1 & G1).
  unfold get_node, reopen_leaves. cbn [nodes].
  rewrite find_map_shape by apply reopen_leaf_id.
  unfold get_node in G1. rewrite G1. reflexivity.
Qed.

(** X1.  On a HiPart tree (ids [0 .. n-1] in creation order, the two
    children of a split numbered consecutively) every split index inside
    the list of internal nodes makes the steps before the loop end
    normally, without [AttributeError] or [NodeIDAbsentError]; the tree
    they leave is a HiPart tree again, [node_ids] is its size minus one,
    and the root and the cluster budget are as before. *)
Theorem pruning_keeps_hipart_tree (o : HiPart) (split e : Z) (v : value) :
  hipart_tree (tree o) = true ->
  py_index (internal_nodes_of (tree o)) split = Some e ->
  exists o',
    prune_phase split v o = (Ok tt, o')
    /\ hipart_ok o' = true
    /\ root (tree o') = root (tree o)
    /\ max_clusters_number o' = max_clusters_number o.
Proof.
  intros H Hi.
  destruct (prune_phase_hipart o split e v H Hi)
    as (t1 & ne & Ge & W1 & Hr & Hb & Hrun & Hok).
  exists (after_prune o t1 e v).
  repeat split; try assumption.
Qed.

(** X2.  On a HiPart tree, once the steps before the loop have edited
    node [e], the ids of the tree are [0 .. e], followed by [e + 1] when
    that node is the sibling of [e] (it has the parent of [e]): every
    other node above [e] is gone. *)
Theorem pruning_keeps_ids_up_to_edited (o : HiPart) (split e : Z) (v : value)
    (ne : Node) :
  hipart_tree (tree o) = true ->
  py_index (internal_nodes_of (tree o)) split = Some e ->
  get_node (tree o) e = Some ne ->
  0 <= e
  /\ keys (tree (snd (prune_phase split v o))) =
     py_range (Z.to_nat e + (if later_sibling (tree o) e ne then 2 else 1)).
Proof.
  intros H Hi Ge.
  destruct (prune_phase_hipart o split e v H Hi)
    as (t1 & ne' & Ge' & W1 & Hr & Hb & Hrun & Hok).
  assert (ne' = ne) by congruence. subst ne'.
  destruct (pruned_count (tree o) t1 e ne H Ge W1 Hb) as [He Hlen].
  split; [assumption|].
  rewrite Hrun. cbn [snd]. rewrite keys_after_prune.
  pose proof (pruned_hipart (tree o) t1 e ne H Ge W1 Hb) as H1.
  apply hipart_tree_iff in H1 as (_ & Hk1 & _).
  now rewrite Hk1, Hlen.
Qed.

End PruningFacts.

Lemma pruning_keeps_hipart_tree_witness :
  exists o',
    prune_phase 1 42 (Examples.obj_7 4) = (Ok tt, o')
    /\ hipart_ok o' = true
    /\ root (tree o') = root (tree (Examples.obj_7 4))
    /\ max_clusters_number o' = max_clusters_number (Examples.obj_7 4).
Proof.
  apply (pruning_keeps_hipart_tree (Examples.obj_7 4) 1 1 42); reflexivity.
Defined.

Lemma pruning_keeps_ids_up_to_edited_witness :
  0 <= 1
  /\ keys (tree (snd (prune_phase 1 42 (Examples.obj_7 4)))) = [0; 1; 2].
Proof.
  apply (pruning_keeps_ids_up_to_edited (Examples.obj_7 4) 1 1 42
           (mkNode 1 (Some 0) [3; 4] (Examples.inner_data 3 15 [10; 20])));
    reflexivity.
Defined.


(** * What pruning leaves of the nodes it keeps *)

Section PruningFrame.

Context {value payload : Type}.
Local Abbreviation Node := (Node value payload).
Local Abbreviation Tree := (Tree value payload).
Local Abbreviation HiPart := (HiPart value payload).

Lemma children_ids_pruned (t t1 : Tree) (keep : Node -> bool) (a : Z) :
  map bare (nodes t1) = map bare (filter keep (nodes t)) ->
  incl (children_ids (nodes t1) a) (children_ids (nodes t) a).
Proof.
  intros Hb x Hx.
  rewrite <- children_ids_bare, Hb, children_ids_bare, children_ids_filter in Hx.
  apply in_map_iff in Hx as (n & <- & Hn). apply filter_In in Hn as [Hn _].
  unfold children_ids. now apply in_map.
Qed.

(** X3.  On a well-formed tree that holds the edited node, the steps
    before the loop end normally and keep every node up to the edited
    one.  A node that is still in the tree has the parent link, the split
    criterion and the samples it had, and no new children; its split
    point is the old one unless it is the edited node; and its permission
    flag changes only by being set on a node that is now a leaf. *)
Theorem pruning_keeps_node_data (o : HiPart) (split e : Z) (v : value)
    (ne : Node) :
  wf_tree (tree o) = true ->
  py_index (internal_nodes_of (tree o)) split = Some e ->
  get_node (tree o) e = Some ne ->
  exists o',
    prune_phase split v o = (Ok tt, o')
    /\ (forall a na, get_node (tree o) a = Some na -> a <= e ->
          contains (tree o') a = true)
    /\ forall a na', get_node (tree o') a = Some na' ->
         exists na,
           get_node (tree o) a = Some na
           /\ predecessor na' = predecessor na
           /\ incl (successors na') (successors na)
           /\ split_criterion (data na') = split_criterion (data na)
           /\ other_data (data na') = other_data (data na)
           /\ (a <> e -> splitpoint (data na') = splitpoint (data na))
           /\ (split_permition (data na') <> split_permition (data na) ->
               is_leaf na' = true /\ split_permition (data na') = true).
Proof.
  intros Hwf Hi Ge. apply wf_tree_WF in Hwf.
  destruct (prune_phase_wf o split e v ne Hwf Hi Ge) as (t1 & W1 & Hb & Hrun).
  exists (after_prune o t1 e v). split; [assumption|]. split.
  - intros a na Ga Hle. apply contains_In. rewrite keys_after_prune.
    apply contains_In.
    rewrite (pruned_contains e (predecessor ne) (tree o) t1 a na Hwf Hb Ga).
    destruct (get_node_In _ a na Ga) as [_ Hid]. unfold doomed. rewrite Hid.
    assert (Eg : (a >? e) = false) by (rewrite Z.gtb_ltb; apply Z.ltb_ge; lia).
    now rewrite Eg.
  - intros a na' Ga'.
    destruct (after_prune_lookup o t1 e a v na' Ga') as (n1 & G1 & Ena).
    destruct (get_node_In t1 a n1 G1) as [Hn1 Hid1].
    destruct (In_bare n1 (nodes t1) _ Hb Hn1) as (m & Hm & Hbm).
    apply filter_In in Hm as [Hm _].
    destruct (bare_eq_fields m n1 Hbm) as (Ei & Ep & Ed).
    assert (Gm : get_node (tree o) a = Some m).
    { rewrite <- Hid1, <- Ei. now apply WF_get_node. }
    exists m. split; [assumption|].
    destruct (same_shape_reopen n1) as (Ri & Rp & Rs).
    assert (Hs : incl (successors n1) (successors m)).
    { destruct W1 as (_ & _ & Hs1). destruct Hwf as (_ & _ & Hs0).
      rewrite (Hs1 n1 Hn1), (Hs0 m Hm), Ei.
      now apply children_ids_pruned with (keep :=
        fun n => negb (doomed e (predecessor ne) n)). }
    assert (Hleaf : is_leaf na' = is_leaf n1).
    { subst na'. rewrite (is_leaf_update e (set_splitpoint v)) by reflexivity.
      apply is_leaf_reopen. }
    assert (Hperm : split_permition (data na')
                    = split_permition (data (reopen_leaf n1))).
    { subst na'. destruct (has_id e (reopen_leaf n1)); reflexivity. }
    repeat split.
    + subst na'. destruct (has_id e (reopen_leaf n1)); cbn [predecessor set_splitpoint];
        congruence.
    + subst na'. destruct (has_id e (reopen_leaf n1)); cbn [successors set_splitpoint];
        now rewrite Rs.
    + subst na'. destruct (has_id e (reopen_leaf n1));
        cbn [data set_splitpoint split_criterion];
        rewrite split_criterion_reopen; congruence.
    + subst na'. destruct (has_id e (reopen_leaf n1));
        cbn [data set_splitpoint other_data];
        rewrite other_data_reopen; congruence.
    + intros Hae. subst na'.
      assert (Eh : has_id e (reopen_leaf n1) = false).
      { unfold has_id. rewrite Ri, Hid1. now apply Z.eqb_neq. }
      rewrite Eh, splitpoint_reopen. congruence.
    + rewrite Hleaf. rewrite Hperm, Ed in H.
      now apply permition_reopen in H.
    + rewrite Hperm in *. rewrite Ed in H.
      now apply permition_reopen in H.
Qed.

(** X4.  On a HiPart tree split 0 is the root.  Editing it ends the steps
    before the loop with the root alone in the tree: it has no children,
    its split criterion and samples are those of the old root, its split
    point is the new one, [node_ids] is 0 and [cluster_color] is 2. *)
Theorem first_split_edit_restarts_from_root (o : HiPart) (v : value) :
  hipart_tree (tree o) = true ->
  exists n0 rest o' n0',
    nodes (tree o) = n0 :: rest
    /\ py_index (internal_nodes_of (tree o)) 0 = Some 0
    /\ prune_phase 0 v o = (Ok tt, o')
    /\ nodes (tree o') = [n0']
    /\ identifier n0' = 0 /\ predecessor n0' = None /\ successors n0' = []
    /\ split_criterion (data n0') = split_criterion (data n0)
    /\ other_data (data n0') = other_data (data n0)
    /\ splitpoint (data n0') = Some v
    /\ node_ids o' = 0 /\ cluster_color o' = 2.
Proof.
  intros H.
  destruct (first_split_is_root (tree o) H) as (n0 & rest & E & Hid0 & Hp0 & Hi).
  pose proof H as H'. apply hipart_tree_iff in H' as (W & _ & _).
  assert (Hn0 : In n0 (nodes (tree o))) by (rewrite E; now left).
  assert (G0 : get_node (tree o) 0 = Some n0).
  { rewrite <- Hid0. now apply WF_get_node. }
  destruct (prune_phase_hipart o 0 0 v H Hi)
    as (t1 & ne & Ge & W1 & Hr & Hb & Hrun & Hok).
  assert (ne = n0) by congruence. subst ne.
  destruct (pruned_count (tree o) t1 0 n0 H G0 W1 Hb) as [_ Hlen].
  assert (Els : later_sibling (tree o) 0 n0 = false).
  { unfold later_sibling. destruct (get_node (tree o) (0 + 1)); [|reflexivity].
    now rewrite Hp0. }
  rewrite Els in Hlen. cbn in Hlen.
  assert (Hkeep : negb (doomed 0 (predecessor n0) n0) = true).
  { unfold doomed. now rewrite Hid0. }
  destruct (after_prune_edited o (tree o) t1 0 v n0 _ W G0 Hkeep Hb)
    as (ne1 & n1 & G1 & Gn1 & Hs1 & F1 & F2 & F3 & F4 & F5).
  pose proof (edited_node_loses_children (tree o) t1 0 n0 n1 W G0 W1 Hb Gn1)
    as Hnil.
  assert (Hnodes : nodes (tree (after_prune o t1 0 v)) = [ne1]).
  { assert (Hl : length (nodes (tree (after_prune o t1 0 v))) = 1%nat).
    { rewrite <- Hlen, <- (length_map identifier), <- (length_map identifier (nodes t1)).
      f_equal. apply keys_after_prune. }
    unfold get_node in G1.
    destruct (nodes (tree (after_prune o t1 0 v))) as [|x [|y l]];
      try discriminate.
    cbn [find] in G1. destruct (has_id 0 x); congruence. }
  exists n0, rest, (after_prune o t1 0 v), ne1.
  assert (Hfacts : node_ids (after_prune o t1 0 v) = 0
                   /\ cluster_color (after_prune o t1 0 v) = 2).
  { assert (Gr : get_node (reopen_leaves t1) 0 <> None).
    { unfold get_node, reopen_leaves. cbn [nodes].
      rewrite find_map_shape by apply reopen_leaf_id.
      unfold get_node in Gn1. now rewrite Gn1. }
    destruct (get_node (reopen_leaves t1) 0) as [nr|] eqn:Gr'; [|congruence].
    destruct (after_prune_facts o t1 0 v nr Gr') as (_ & Hni & Hcc & _).
    assert (El : is_leaf ne1 = true) by (unfold is_leaf; now rewrite Hs1, Hnil).
    rewrite Hni, Hcc. unfold leaves. rewrite Hnodes. cbn [filter].
    rewrite El. cbn. split; reflexivity. }
  destruct Hfacts as [Hni Hcc].
  repeat split; try assumption; try congruence.
Qed.

End PruningFrame.

Lemma pruning_keeps_node_data_witness :
  exists o',
    prune_phase 1 42 (Examples.obj_7 4) = (Ok tt, o')
    /\ (forall a na, get_node (tree (Examples.obj_7 4)) a = Some na -> a <= 1 ->
          contains (tree o') a = true)
    /\ forall a na', get_node (tree o') a = Some na' ->
         exists na,
           get_node (tree (Examples.obj_7 4)) a = Some na
           /\ predecessor na' = predecessor na
           /\ incl (successors na') (successors na)
           /\ split_criterion (data na') = split_criterion (data na)
           /\ other_data (data na') = other_data (data na)
           /\ (a <> 1 -> splitpoint (data na') = splitpoint (data na))
           /\ (split_permition (data na') <> split_permition (data na) ->
               is_leaf na' = true /\ split_permition (data na') = true).
Proof.
  apply (pruning_keeps_node_data (Examples.obj_7 4) 1 1 42
           (mkNode 1 (Some 0) [3; 4] (Examples.inner_data 3 15 [10; 20])));
    reflexivity.
Defined.

Lemma first_split_edit_restarts_from_root_witness :
  exists n0 rest o' n0',
    nodes (tree (Examples.obj_7 4)) = n0 :: rest
    /\ py_index (internal_nodes_of (tree (Examples.obj_7 4))) 0 = Some 0
    /\ prune_phase 0 42 (Examples.obj_7 4) = (Ok tt, o')
    /\ nodes (tree o') = [n0']
    /\ identifier n0' = 0 /\ predecessor n0' = None /\ successors n0' = []
    /\ split_criterion (data n0') = split_criterion (data n0)
    /\ other_data (data n0') = other_data (data n0)
    /\ splitpoint (data n0') = Some 42
    /\ node_ids o' = 0 /\ cluster_color o' = 2.
Proof.
  apply (first_split_edit_restarts_from_root (Examples.obj_7 4) 42).
  reflexivity.
Defined.

(** * Further properties of the split index and of the loop *)

Section IndexFacts.

Context {value payload : Type}.
Local Abbreviation Node := (Node value payload).
Local Abbreviation Tree := (Tree value payload).
Local Abbreviation HiPart := (HiPart value payload).

Variable select_kid : list Node -> option Z.
Variable split_function : Z -> M HiPart unit.

Lemma ascending_filter (P : Z -> bool) (l : list Z) :
  ascending l = true -> ascending (filter P l) = true.
Proof.
  induction l as [|x l IH]; intros H; [reflexivity|].
  apply ascending_cons in H as [Hx Hl]. cbn [filter].
  destruct (P x); [|now apply IH].
  apply ascending_cons. split; [|now apply IH].
  intros y Hy. apply filter_In in Hy as [Hy _]. now apply Hx.
Qed.

(** The list of internal nodes, whatever the tree. *)
Lemma internal_nodes_shape (t : Tree) :
  internal_nodes_of t <> []
  /\ ascending (internal_nodes_of t) = true
  /\ forall i, In i (internal_nodes_of t) ->
       0 <= i < Z.max 1 (Z.of_nat (length (nodes t))).
Proof.
  unfold internal_nodes_of. cbv zeta.
  set (f := filter _ (py_range (length (keys t)))).
  destruct (length f =? 0)%nat eqn:E.
  - split; [discriminate|]. split; [reflexivity|].
    intros i [<-|[]]. lia.
  - apply Nat.eqb_neq in E. split; [now destruct f|]. split.
    + apply ascending_filter, ascending_range.
    + intros i Hin. apply filter_In in Hin as [Hin _].
      apply In_range in Hin. unfold keys in Hin. rewrite length_map in Hin. lia.
Qed.

Lemma prune_key_same_index (inodes : list Z) (s1 s2 k : Z) (t : Tree) :
  py_index inodes s1 = py_index inodes s2 ->
  prune_key inodes s1 k t = prune_key inodes s2 k t.
Proof.
  intros H. unfold prune_key, bind, index. now rewrite H.
Qed.

(** The steps before the loop use the split index only through the entry
    it designates. *)
Lemma prune_phase_same_index (s1 s2 : Z) (v : value) (o : HiPart) :
  py_index (internal_nodes_of (tree o)) s1
  = py_index (internal_nodes_of (tree o)) s2 ->
  prune_phase s1 v o = prune_phase s2 v o.
Proof.
  intros H. rewrite !prune_phase_unfold, !prune_loop_keys, H.
  rewrite (for_each_ext _ (prune_key (internal_nodes_of (tree o)) s1)
             (prune_key (internal_nodes_of (tree o)) s2)); [reflexivity|].
  intros k s _. now apply prune_key_same_index.
Qed.

Lemma prune_key_absent (inodes : list Z) (split e k : Z) (t : Tree) :
  py_index inodes split = Some e -> get_node t e = None ->
  prune_key inodes split k t = (Ok tt, t)
  \/ prune_key inodes split k t = (Raise AttributeError, t).
Proof.
  intros Hi Ge. unfold prune_key, bind, index, get, ret. rewrite Hi. cbn.
  destruct (k >? e); [|now left]. cbn.
  destruct (get_node t k); cbn; [|now left].
  rewrite Ge. cbn. now right.
Qed.

Lemma for_each_absent (inodes : list Z) (split e : Z) (t : Tree) (l : list Z) :
  py_index inodes split = Some e -> get_node t e = None ->
  for_each l (prune_key inodes split) t = (Ok tt, t)
  \/ for_each l (prune_key inodes split) t = (Raise AttributeError, t).
Proof.
  intros Hi Ge. induction l as [|k l IH]; [now left|].
  cbn [for_each]. unfold bind.
  destruct (prune_key_absent inodes split e k t Hi Ge) as [-> | ->];
    [exact IH | now right].
Qed.

Lemma keys_reopen (t : Tree) : keys (reopen_leaves t) = keys t.
Proof. unfold keys, reopen_leaves. cbn [nodes]. apply keys_map, same_shape_reopen. Qed.

(** X5.  When the entry of the list of internal nodes that [split]
    designates is not an id of the tree (which the ids [0 .. n-1] of a
    HiPart tree exclude), the call raises [AttributeError]: no node has
    been removed, and the loop of [partial_predict] is not entered. *)
Theorem edit_of_absent_node_raises (fuel : nat) (o : HiPart) (split e : Z)
    (v : value) :
  py_index (internal_nodes_of (tree o)) split = Some e ->
  contains (tree o) e = false ->
  let run := recalculate_after_spchange select_kid split_function fuel o
               split v in
  fst (fst run) = Raise AttributeError
  /\ keys (tree (snd (fst run))) = keys (tree o)
  /\ snd run = [].
Proof.
  intros Hi Hc run. subst run. apply get_node_None in Hc.
  unfold recalculate_after_spchange.
  rewrite prune_phase_unfold, prune_loop_keys.
  destruct (for_each_absent (internal_nodes_of (tree o)) split e (tree o)
              (rev (tl (keys (tree o)))) Hi Hc) as [-> | ->].
  - rewrite Hi.
    assert (Gr : get_node (reopen_leaves (tree o)) e = None).
    { unfold get_node, reopen_leaves. cbn [nodes].
      rewrite find_map_shape by apply reopen_leaf_id.
      unfold get_node in Hc. now rewrite Hc. }
    rewrite Gr. cbn. repeat split. apply keys_reopen.
  - cbn. repeat split.
Qed.

(** X6.  The list of internal nodes is never empty, is strictly
    increasing, and holds numbers from 0 up to the number of nodes
    (excluded; 0 alone for a tree of at most one node).  Hence split 0 is
    always inside the list: with a splitter that raises no [IndexError]
    of its own, the call with split 0 raises none. *)
Theorem split_zero_always_in_range (fuel : nat) (o : HiPart) (v : value) :
  splitter_no_index_error split_function ->
  internal_nodes_of (tree o) <> []
  /\ ascending (internal_nodes_of (tree o)) = true
  /\ (forall i, In i (internal_nodes_of (tree o)) ->
        0 <= i < Z.max 1 (Z.of_nat (length (nodes (tree o)))))
  /\ fst (fst (recalculate_after_spchange select_kid split_function fuel
                 o 0 v)) <> Raise IndexError.
Proof.
  intros Hs.
  destruct (internal_nodes_shape (tree o)) as (Hne & Hasc & Hrange).
  repeat split; try assumption; try (now apply Hrange).
  destruct (internal_nodes_of (tree o)) as [|e l] eqn:E; [congruence|].
  assert (Hi : py_index (internal_nodes_of (tree o)) 0 = Some e)
    by (rewrite E; reflexivity).
  pose proof (prune_phase_in_range 0 e v o Hi) as Hp.
  unfold recalculate_after_spchange.
  destruct (prune_phase 0 v o) as [[[]|x|] o1]; cbn in *.
  - rewrite partial_predict_state.
    apply (predict_loop_no_index_error select_kid split_function Hs).
  - assumption.
  - discriminate.
Qed.

(** X7.  A negative split index counts from the end of the list of
    internal nodes, as Python list indexing does: for [split] inside
    [0, len), the call with [split - len] does what the call with
    [split] does. *)
Theorem negative_index_counts_from_end (fuel : nat) (o : HiPart) (split : Z)
    (v : value) :
  0 <= split < Z.of_nat (length (internal_nodes_of (tree o))) ->
  recalculate_after_spchange select_kid split_function fuel o
    (split - Z.of_nat (length (internal_nodes_of (tree o)))) v
  = recalculate_after_spchange select_kid split_function fuel o split v.
Proof.
  intros H. unfold recalculate_after_spchange.
  rewrite (prune_phase_same_index
             (split - Z.of_nat (length (internal_nodes_of (tree o)))) split);
    [reflexivity|].
  unfold py_index.
  destruct (0 <=? split - Z.of_nat (length (internal_nodes_of (tree o))))
    eqn:E1; [apply Z.leb_le in E1; lia|].
  destruct (- Z.of_nat (length (internal_nodes_of (tree o)))
            <=? split - Z.of_nat (length (internal_nodes_of (tree o))))
    eqn:E2; [|apply Z.leb_gt in E2; lia].
  destruct (0 <=? split) eqn:E3; [|apply Z.leb_gt in E3; lia].
  f_equal. lia.
Qed.

Lemma predict_loop_stop_reason :
  splitter_keeps_budget split_function ->
  forall fuel selected found o,
    let run := predict_loop select_kid split_function fuel selected found o in
    fst (fst run) = Ok tt ->
    (last_selection (snd run) selected = None
     \/ max_clusters_number o <= found + Z.of_nat (count_splits (snd run)))
    /\ Z.of_nat (count_splits (snd run))
       <= Z.max 0 (max_clusters_number o - found).
Proof.
  intros Hb. induction fuel as [|fuel IH]; intros selected found o;
    (destruct selected as [k|]; cbn;
     [|intros _; split; [now left | lia]]).
  - destruct (found <? max_clusters_number o) eqn:E; cbn; [discriminate|].
    apply Z.ltb_ge in E. intros _. split; [right|]; lia.
  - destruct (found <? max_clusters_number o) eqn:E; cbn;
      [|apply Z.ltb_ge in E; intros _; split; [right|]; lia].
    apply Z.ltb_lt in E.
    destruct (split_function k o) as [r o1] eqn:Es.
    pose proof (Hb k o r o1 Es) as Hmax.
    destruct r as [[]|x|]; cbn; try discriminate.
    specialize (IH (select_kid (leaves (tree o1))) (found + 1) o1).
    destruct (predict_loop select_kid split_function fuel
                (select_kid (leaves (tree o1))) (found + 1) o1)
      as [[r' o'] tr] eqn:Er.
    cbn in *. rewrite Hmax in IH. intros Hr.
    destruct (IH Hr) as [H1 H2].
    unfold count_splits in *. cbn [filter is_split length].
    split; [destruct H1 as [H1|H1]; [now left | right]|]; lia.
Qed.

(** X8.  With a splitter that leaves the budget alone, a normal return of
    [partial_predict] means that the loop was left for one of its two
    reasons: the last call of [select_kid] returned [None], or the number
    of leaves at entry plus the number of splits performed has reached
    [max_clusters_number].  The splits performed are at most the budget
    minus the number of leaves at entry: none when the tree already has
    that many leaves. *)
Theorem partial_predict_stop_reason (fuel : nat) (o : HiPart) :
  splitter_keeps_budget split_function ->
  let run := partial_predict select_kid split_function fuel o in
  let found := Z.of_nat (length (leaves (tree o))) in
  fst (fst run) = Ok tt ->
  (last_selection (snd run) None = None
   \/ max_clusters_number o <= found + Z.of_nat (count_splits (snd run)))
  /\ Z.of_nat (count_splits (snd run))
     <= Z.max 0 (max_clusters_number o - found).
Proof.
  intros Hb run found. subst run found. unfold partial_predict.
  pose proof (predict_loop_stop_reason Hb fuel (select_kid (leaves (tree o)))
                (Z.of_nat (length (leaves (tree o)))) o) as H.
  destruct (predict_loop select_kid split_function fuel
              (select_kid (leaves (tree o)))
              (Z.of_nat (length (leaves (tree o)))) o) as [[r o'] tr].
  cbn in *. exact H.
Qed.

End IndexFacts.

Lemma edit_of_absent_node_raises_witness :
  let o := mkHiPart Examples.tree_034 2 3 4 in
  let run := recalculate_after_spchange Examples.select_kid
               Examples.split_function 4 o 1 42 in
  fst (fst run) = Raise AttributeError
  /\ keys (tree (snd (fst run))) = keys (tree o)
  /\ snd run = [].
Proof.
  apply (edit_of_absent_node_raises Examples.select_kid
           Examples.split_function 4 (mkHiPart Examples.tree_034 2 3 4) 1 1 42);
    reflexivity.
Defined.

Lemma split_zero_always_in_range_witness :
  let o := Examples.obj_012 4 in
  internal_nodes_of (tree o) <> []
  /\ ascending (internal_nodes_of (tree o)) = true
  /\ (forall i, In i (internal_nodes_of (tree o)) ->
        0 <= i < Z.max 1 (Z.of_nat (length (nodes (tree o)))))
  /\ fst (fst (recalculate_after_spchange Examples.select_kid
                 Examples.split_function 4 o 0 42)) <> Raise IndexError.
Proof.
  apply (split_zero_always_in_range Examples.select_kid
           Examples.split_function 4 (Examples.obj_012 4) 42).
  apply reference_no_index_error.
Defined.

Lemma negative_index_counts_from_end_witness :
  let o := Examples.obj_7 4 in
  recalculate_after_spchange Examples.select_kid Examples.split_function 4 o
    (1 - Z.of_nat (length (internal_nodes_of (tree o)))) 42
  = recalculate_after_spchange Examples.select_kid Examples.split_function 4 o
      1 42.
Proof.
  apply (negative_index_counts_from_end Examples.select_kid
           Examples.split_function 4 (Examples.obj_7 4) 1 42).
  cbn. lia.
Defined.

Lemma partial_predict_stop_reason_witness :
  let o := Examples.obj_012 4 in
  let run := partial_predict Examples.select_kid Examples.split_function 4 o in
  (last_selection (snd run) None = None
   \/ max_clusters_number o
      <= Z.of_nat (length (leaves (tree o)))
         + Z.of_nat (count_splits (snd run)))
  /\ Z.of_nat (count_splits (snd run))
     <= Z.max 0 (max_clusters_number o - Z.of_nat (length (leaves (tree o)))).
Proof.
  apply (partial_predict_stop_reason Examples.select_kid
           Examples.split_function 4 (Examples.obj_012 4)).
  - apply reference_keeps_budget.
  - reflexivity.
Defined.

(** * [next_free_port] *)

Module PortFacts.

Import Port.

Section Facts.

Variable sock_bind : Z -> bind_outcome.

Lemma ports_from_S (port : Z) (n : nat) :
  ports_from port (S n) = port :: ports_from (port + 1) n.
Proof.
  unfold ports_from. cbn [seq map]. f_equal; [lia|].
  rewrite <- seq_shift, map_map. apply map_ext. intros i. lia.
Qed.

(** How a run of the loop with enough fuel ends: [n] ports were tried,
    in order; all but the last refused with [OSError]. *)
Lemma port_loop_run (max_port : Z) (fuel : nat) :
  forall port,
    (port_span port max_port <= fuel)%nat ->
    exists n : nat,
      (n <= port_span port max_port)%nat
      /\ (forall q, port <= q < port + Z.of_nat n - 1 ->
            sock_bind q = BindOSError)
      /\ ((exists p, port_loop sock_bind fuel port max_port =
                       (Returned p, map BindTried (ports_from port n)
                                      ++ [SocketClosed])
                     /\ p = port + Z.of_nat n - 1 /\ port <= p <= max_port
                     /\ sock_bind p = Bound)
          \/ (port_loop sock_bind fuel port max_port =
                (IOErrorNoFreePorts, map BindTried (ports_from port n))
              /\ n = port_span port max_port
              /\ forall q, port <= q <= max_port -> sock_bind q = BindOSError)
          \/ (exists p, port_loop sock_bind fuel port max_port =
                          (Propagated, map BindTried (ports_from port n))
                        /\ p = port + Z.of_nat n - 1 /\ port <= p <= max_port
                        /\ sock_bind p = BindOtherError)).
Proof.
  unfold port_span.
  induction fuel as [|fuel IH]; intros port Hf.
  - exists 0%nat. split; [lia|]. split; [intros q Hq; lia|].
    right. left. cbn [port_loop].
    destruct (port <=? max_port) eqn:E; [apply Z.leb_le in E; lia|].
    repeat split; [lia|]. intros q Hq. apply Z.leb_gt in E. lia.
  - cbn [port_loop].
    destruct (port <=? max_port) eqn:E.
    + apply Z.leb_le in E.
      destruct (sock_bind port) eqn:Eb.
      * exists 1%nat. split; [lia|]. split; [intros q Hq; lia|].
        left. exists port. unfold ports_from. cbn.
        rewrite Z.add_0_r. repeat split; try lia. assumption.
      * destruct (IH (port + 1)) as (n & Hn & Hos & Hcase); [lia|].
        exists (S n). split; [lia|]. split.
        { intros q Hq. destruct (Z.eq_dec q port) as [->|Hne]; [assumption|].
          apply Hos. lia. }
        rewrite ports_from_S. cbn [map app].
        destruct Hcase as [(p & -> & Hp & Hr & Hb)
                          |[(-> & Hn' & Hall)|(p & -> & Hp & Hr & Hb)]].
        -- left. exists p. repeat split; try lia. assumption.
        -- right. left. repeat split; [lia|].
           intros q Hq. destruct (Z.eq_dec q port) as [->|Hne]; [assumption|].
           apply Hall. lia.
        -- right. right. exists p. repeat split; try lia. assumption.
      * exists 1%nat. split; [lia|]. split; [intros q Hq; lia|].
        right. right. exists port. unfold ports_from. cbn.
        rewrite Z.add_0_r. repeat split; try lia. assumption.
    + apply Z.leb_gt in E.
      exists 0%nat. split; [lia|]. split; [intros q Hq; lia|].
      right. left. repeat split; [lia|]. intros q Hq. lia.
Qed.

(** X9.  With fuel for every port of the range, [next_free_port] returns
    [p] exactly when [p] is the first port from [port] up to [max_port]
    on which [bind] succeeds, every port below it having refused with
    [OSError]. *)
Theorem next_free_port_returns_first_free (fuel : nat) (port max_port p : Z) :
  (port_span port max_port <= fuel)%nat ->
  fst (next_free_port sock_bind fuel port max_port) = Returned p
  <-> (port <= p <= max_port
       /\ sock_bind p = Bound
       /\ forall q, port <= q < p -> sock_bind q = BindOSError).
Proof.
  intros Hf. unfold next_free_port.
  destruct (port_loop_run max_port fuel port Hf) as (n & Hn & Hos & Hcase).
  destruct Hcase as [(p' & -> & Hp & Hr & Hb)
                    |[(-> & Hn' & Hall)|(p' & -> & Hp & Hr & Hb)]]; cbn [fst].
  - split.
    + intros E. injection E as <-. repeat split; try lia; try assumption.
      intros q Hq. apply Hos. lia.
    + intros (Hr' & Hb' & Hlow). f_equal.
      destruct (Z.lt_trichotomy p p') as [Hlt|[Heq|Hgt]]; [|now symmetry|].
      * rewrite (Hos p) in Hb' by lia. discriminate.
      * rewrite (Hlow p') in Hb by lia. discriminate.
  - split; [discriminate|]. intros (Hr' & Hb' & _).
    rewrite (Hall p Hr') in Hb'. discriminate.
  - split; [discriminate|]. intros (Hr' & Hb' & Hlow).
    destruct (Z.lt_trichotomy p p') as [Hlt|[Heq|Hgt]].
    + rewrite (Hos p) in Hb' by lia. discriminate.
    + rewrite Heq, Hb in Hb'. discriminate.
    + rewrite (Hlow p') in Hb by lia. discriminate.
Qed.

(** X10.  With fuel for every port of the range, the loop ends, and
    [next_free_port] raises [IOError] exactly when [bind] refuses every
    port from [port] up to [max_port] with [OSError]; this is so at once,
    with no port tried, when [port] is above [max_port]. *)
Theorem next_free_port_ioerror_iff (fuel : nat) (port max_port : Z) :
  (port_span port max_port <= fuel)%nat ->
  fst (next_free_port sock_bind fuel port max_port) <> PortOutOfFuel
  /\ (fst (next_free_port sock_bind fuel port max_port) = IOErrorNoFreePorts
      <-> forall q, port <= q <= max_port -> sock_bind q = BindOSError)
  /\ (max_port < port ->
      next_free_port sock_bind fuel port max_port
      = (IOErrorNoFreePorts, [SocketCreated])).
Proof.
  intros Hf. split; [|split].
  - unfold next_free_port.
    destruct (port_loop_run max_port fuel port Hf) as (n & _ & _ & Hcase).
    destruct Hcase as [(p' & -> & _)|[(-> & _)|(p' & -> & _)]]; discriminate.
  - unfold next_free_port.
    destruct (port_loop_run max_port fuel port Hf) as (n & Hn & Hos & Hcase).
    destruct Hcase as [(p' & -> & Hp & Hr & Hb)
                      |[(-> & Hn' & Hall)|(p' & -> & Hp & Hr & Hb)]]; cbn [fst].
    + split; [discriminate|]. intros Hall.
      rewrite (Hall p' Hr) in Hb. discriminate.
    + split; [intros _; assumption | reflexivity].
    + split; [discriminate|]. intros Hall.
      rewrite (Hall p' Hr) in Hb. discriminate.
  - intros Hlt. unfold next_free_port.
    destruct fuel; cbn [port_loop];
      (destruct (port <=? max_port) eqn:E;
       [apply Z.leb_le in E; lia | reflexivity]).
Qed.

(** X11.  With fuel for every port of the range, [next_free_port]
    creates one socket and binds the ports [port, port + 1, ...] in this
    order, each once and no more of them than the range holds.  It closes
    the socket exactly when it returns a port, which is then the last one
    tried; when it raises, the socket is left open. *)
Theorem next_free_port_socket_use (fuel : nat) (port max_port : Z) :
  (port_span port max_port <= fuel)%nat ->
  exists n : nat,
    (n <= port_span port max_port)%nat
    /\ snd (next_free_port sock_bind fuel port max_port) =
       SocketCreated :: map BindTried (ports_from port n)
       ++ match fst (next_free_port sock_bind fuel port max_port) with
          | Returned _ => [SocketClosed]
          | _ => []
          end
    /\ forall p,
         fst (next_free_port sock_bind fuel port max_port) = Returned p ->
         p = port + Z.of_nat n - 1.
Proof.
  intros Hf. unfold next_free_port.
  destruct (port_loop_run max_port fuel port Hf) as (n & Hn & Hos & Hcase).
  exists n. split; [assumption|].
  destruct Hcase as [(p' & -> & Hp & Hr & Hb)
                    |[(-> & Hn' & Hall)|(p' & -> & Hp & Hr & Hb)]];
    cbn [fst snd].
  - split; [reflexivity|]. intros p E. congruence.
  - rewrite app_nil_r. split; [reflexivity|]. discriminate.
  - rewrite app_nil_r. split; [reflexivity|]. discriminate.
Qed.

End Facts.

Lemma next_free_port_returns_first_free_witness :
  fst (next_free_port two_taken 3 8050 8052) = Returned 8052
  <-> (8050 <= 8052 <= 8052
       /\ two_taken 8052 = Bound
       /\ forall q, 8050 <= q < 8052 -> two_taken q = BindOSError).
Proof.
  apply (next_free_port_returns_first_free two_taken 3 8050 8052 8052).
  cbn. lia.
Defined.

Lemma next_free_port_ioerror_iff_witness :
  fst (next_free_port two_taken 2 8050 8051) <> PortOutOfFuel
  /\ (fst (next_free_port two_taken 2 8050 8051) = IOErrorNoFreePorts
      <-> forall q, 8050 <= q <= 8051 -> two_taken q = BindOSError)
  /\ (8051 < 8050 ->
      next_free_port two_taken 2 8050 8051
      = (IOErrorNoFreePorts, [SocketCreated])).
Proof.
  apply (next_free_port_ioerror_iff two_taken 2 8050 8051).
  cbn. lia.
Defined.

Lemma next_free_port_socket_use_witness :
  exists n : nat,
    (n <= port_span 8050 8052)%nat
    /\ snd (next_free_port two_taken 3 8050 8052) =
       SocketCreated :: map BindTried (ports_from 8050 n)
       ++ match fst (next_free_port two_taken 3 8050 8052) with
          | Returned _ => [SocketClosed]
          | _ => []
          end
    /\ forall p,
         fst (next_free_port two_taken 3 8050 8052) = Returned p ->
         p = 8050 + Z.of_nat n - 1.
Proof.
  apply (next_free_port_socket_use two_taken 3 8050 8052).
  cbn. lia.
Defined.

End PortFacts.

(** * The callbacks and the temporary files *)

Module ServerFacts.

Import Ascii String.
Import Server.
Local Open Scope string_scope.
Local Open Scope list_scope.

Section Facts.

Context {value payload : Type} {lib : Library value payload}.
Local Abbreviation Stored := (Stored value payload).
Local Abbreviation Files := (Files value payload).
Local Abbreviation SM := (SM value payload).

Variable select_kid : list (Node value payload) -> option Z.
Variable split_function : Z -> M (HiPart value payload) unit.

Lemma reads_only_sret {A : Type} (a : A) : reads_only (sret (value := value) (payload := payload) a).
Proof. intros fs. reflexivity. Qed.

Lemma reads_only_or_fail {A : Type} (f : failure) (o : option A) :
  reads_only (or_fail (value := value) (payload := payload) f o).
Proof. intros fs. destruct o; reflexivity. Qed.

Lemma reads_only_item (d : Dict) (key : string) :
  reads_only (item (value := value) (payload := payload) d key).
Proof. apply reads_only_or_fail. Qed.

Lemma reads_only_pickle_load (path : string) :
  reads_only (pickle_load (value := value) (payload := payload) path).
Proof. intros fs. unfold pickle_load. apply reads_only_or_fail. Qed.

Lemma reads_only_sbind {A B : Type} (m : SM A) (k : A -> SM B) :
  reads_only m -> (forall a, reads_only (k a)) -> reads_only (sbind m k).
Proof.
  intros Hm Hk fs. unfold sbind. specialize (Hm fs).
  destruct (m fs) as [[a|f|] fs']; cbn in *; subst; auto.
  apply Hk.
Qed.

Lemma writes_only_reads {A : Type} (path : string) (m : SM A) :
  reads_only m -> writes_only path m.
Proof. intros H fs p _. now rewrite H. Qed.

Lemma writes_only_sbind {A B : Type} (path : string) (m : SM A)
    (k : A -> SM B) :
  writes_only path m -> (forall a, writes_only path (k a)) ->
  writes_only path (sbind m k).
Proof.
  intros Hm Hk fs p Hp. unfold sbind. specialize (Hm fs p Hp).
  destruct (m fs) as [[a|f|] fs']; cbn in *; auto.
  now rewrite Hk.
Qed.

Lemma writes_only_pickle_dump (path : string) (ob : Stored) :
  writes_only path (pickle_dump path ob).
Proof.
  intros fs p Hp. unfold pickle_dump. cbn.
  apply String.eqb_neq in Hp. now rewrite Hp.
Qed.

Lemma reads_only_data_preparation_at (path : string) (split : Z) :
  reads_only (data_preparation_at path split).
Proof.
  apply reads_only_sbind; [apply reads_only_pickle_load|].
  intros ob. apply reads_only_or_fail.
Qed.

Lemma reads_only_message_center_at (message_id path : string) :
  reads_only (message_center_at message_id path).
Proof.
  apply reads_only_sbind; [apply reads_only_pickle_load|].
  intros ob. apply reads_only_or_fail.
Qed.

Lemma reads_only_split_figure (ob : Stored) (dm : DataMatrix) (sp : value)
    (order : Order) (colours : Colours) :
  reads_only (split_figure ob dm sp order colours).
Proof.
  unfold split_figure. destruct (isinstance ob "dePDDP");
    apply reads_only_or_fail.
Qed.

Lemma reads_only_edit (fuel : nat) (ob : Stored) (split : Z) (v : value) :
  reads_only (edit select_kid split_function fuel ob split v).
Proof.
  intros fs. unfold edit.
  destruct (fst (recalculate_after_spchange _ _ _ _ _ _)) as [[u|e|] o'];
    reflexivity.
Qed.

Lemma reads_only_Cluster_Scatter_Plot (path : string) :
  reads_only (Cluster_Scatter_Plot path).
Proof.
  unfold Cluster_Scatter_Plot.
  apply reads_only_sbind; [apply reads_only_data_preparation_at|].
  intros [[[dm sp] inodes] n].
  apply reads_only_sbind; [apply reads_only_or_fail|]. intros fig.
  apply reads_only_sbind; [apply reads_only_message_center_at|]. intros desc.
  apply reads_only_sret.
Qed.

Lemma reads_only_Splitpoint_Manipulation (path : string) :
  reads_only (Splitpoint_Manipulation path).
Proof.
  unfold Splitpoint_Manipulation.
  apply reads_only_sbind; [apply reads_only_data_preparation_at|].
  intros [[[dm sp] inodes] n].
  apply reads_only_sbind; [apply reads_only_pickle_load|]. intros ob.
  apply reads_only_sbind; [apply reads_only_split_figure|]. intros fig.
  apply reads_only_sbind; [apply reads_only_message_center_at|]. intros desc.
  apply reads_only_sret.
Qed.

Lemma sbind_done {A B : Type} (m : SM A) (k : A -> SM B) (fs fs' : Files)
    (a : A) :
  m fs = (Done a, fs') -> sbind m k fs = k a fs'.
Proof. intros H. unfold sbind. now rewrite H. Qed.

Lemma sbind_failed {A B : Type} (m : SM A) (k : A -> SM B) (fs fs' : Files)
    (f : failure) :
  m fs = (Failed f, fs') -> sbind m k fs = (Failed f, fs').
Proof. intros H. unfold sbind. now rewrite H. Qed.

Lemma sbind_cut {A B : Type} (m : SM A) (k : A -> SM B) (fs fs' : Files) :
  m fs = (Cut, fs') -> sbind m k fs = (Cut, fs').
Proof. intros H. unfold sbind. now rewrite H. Qed.

Lemma item_found (d : Dict) (key x : string) (fs : Files) :
  dict_get key d = Some x -> item d key fs = (Done x, fs).
Proof. intros H. unfold item, or_fail. now rewrite H. Qed.

Lemma writes_only_item {B : Type} (d : Dict) (key x path : string)
    (k : string -> SM B) :
  dict_get key d = Some x -> writes_only path (k x) ->
  writes_only path (sbind (item d key) k).
Proof.
  intros H Hk fs p Hp. rewrite (sbind_done _ _ fs fs x) by now apply item_found.
  now apply Hk.
Qed.

Ltac reads_step :=
  first
    [ apply reads_only_sret
    | apply reads_only_or_fail
    | apply reads_only_item
    | apply reads_only_pickle_load
    | apply reads_only_data_preparation_at
    | apply reads_only_message_center_at
    | apply reads_only_split_figure
    | apply reads_only_edit
    | apply reads_only_Cluster_Scatter_Plot
    | apply reads_only_Splitpoint_Manipulation
    | apply reads_only_sbind; [|intros ?]
    | match goal with
      | |- reads_only (match ?p with _ => _ end) =>
          destruct p as [[[? ?] ?] ?]
      end ].

Ltac reads := repeat reads_step.

(** The split-point callback writes no file when the trigger is not the
    apply button. *)
Lemma callback_reads_only (fuel : nat) (prop_id data : string)
    (curent_figure : Figure) (split_number maximum_number_splits : Z)
    (split_marks : Dict) (pos mn mx : value) (clicks : Z) :
  before_dot prop_id <> "splitpoint_Man_apply" ->
  reads_only (Splitpoint_Manipulation_Callback select_kid split_function fuel
                prop_id data curent_figure split_number maximum_number_splits
                split_marks pos mn mx clicks).
Proof.
  intros Hid. unfold Splitpoint_Manipulation_Callback. cbv zeta.
  apply reads_only_sbind; [apply reads_only_or_fail|]. intros d.
  destruct (String.eqb (before_dot prop_id) "splitView"); [reads|].
  destruct (String.eqb (before_dot prop_id) "splitpoint_Manipulation"); [reads|].
  destruct (String.eqb (before_dot prop_id) "splitpoint_Man_apply") eqn:E;
    [|reads].
  apply String.eqb_eq in E. contradiction.
Qed.

(** Whatever the trigger, the split-point callback writes no file other
    than the one named [new_input_object]. *)
Lemma callback_writes_only (fuel : nat) (prop_id data : string)
    (curent_figure : Figure) (split_number maximum_number_splits : Z)
    (split_marks : Dict) (pos mn mx : value) (clicks : Z) (d : Dict)
    (pnew : string) :
  json_loads data = Some d ->
  dict_get "new_input_object" d = Some pnew ->
  writes_only pnew
    (Splitpoint_Manipulation_Callback select_kid split_function fuel
       prop_id data curent_figure split_number maximum_number_splits
       split_marks pos mn mx clicks).
Proof.
  intros Hj Hd.
  destruct (String.eqb (before_dot prop_id) "splitpoint_Man_apply") eqn:E.
  - apply String.eqb_eq in E.
    unfold Splitpoint_Manipulation_Callback. cbv zeta. rewrite E.
    intros fs p Hp.
    erewrite sbind_done by (unfold or_fail; rewrite Hj; reflexivity).
    rewrite (eq_refl : String.eqb "splitpoint_Man_apply" "splitView" = false).
    rewrite (eq_refl : String.eqb "splitpoint_Man_apply"
                         "splitpoint_Manipulation" = false).
    rewrite (eq_refl : String.eqb "splitpoint_Man_apply"
                         "splitpoint_Man_apply" = true).
    revert fs p Hp. change (writes_only pnew
      (path <- item d "new_input_object" ;;
       obj <- pickle_load path ;;
       obj <- edit select_kid split_function fuel obj split_number pos ;;
       path <- item d "new_input_object" ;;
       pickle_dump path obj ;;;
       path <- item d "new_input_object" ;;
       prepared <- data_preparation_at path split_number ;;
       let '(data_matrix, splitpoint, internal_nodes, number_of_nodes) :=
         prepared in
       path <- item d "new_input_object" ;;
       obj <- pickle_load path ;;
       fig <- split_figure obj data_matrix splitpoint
                (order_by_count data_matrix) (colour_list number_of_nodes) ;;
       sret (mkOutputs fig (Z.of_nat (List.length internal_nodes) - 1)
               (split_marks_of internal_nodes) splitpoint
               (pc1_min data_matrix) (pc1_max data_matrix)))%srv).
    apply writes_only_sbind; [apply writes_only_reads; reads|]. intros path.
    apply writes_only_sbind; [apply writes_only_reads; reads|]. intros ob.
    apply writes_only_sbind; [apply writes_only_reads; reads|]. intros ob'.
    apply (writes_only_item d _ pnew pnew _ Hd).
    apply writes_only_sbind; [apply writes_only_pickle_dump|]. intros _.
    apply writes_only_reads. reads.
  - apply writes_only_reads, callback_reads_only.
    now apply String.eqb_neq.
Qed.

(** X12.  When the apply button triggers the split-point callback and
    the file named [new_input_object] holds an object, the callback runs
    [recalculate_after_spchange] on that object with the split number and
    the split point of the sliders.  If the edit returns, its result is
    what the file holds afterwards, whatever happens while the figure is
    rebuilt, and no other file is written; if the edit raises, the
    callback raises the same exception and no file has changed. *)
Theorem apply_trigger_stores_the_edit (fuel : nat) (prop_id data : string)
    (curent_figure : Figure) (split_number maximum_number_splits : Z)
    (split_marks : Dict) (pos mn mx : value) (clicks : Z) (fs : Files)
    (d : Dict) (path : string) (ob : Stored) :
  before_dot prop_id = "splitpoint_Man_apply" ->
  json_loads data = Some d ->
  dict_get "new_input_object" d = Some path ->
  fs path = Some ob ->
  let edited := fst (recalculate_after_spchange select_kid split_function
                       fuel (model ob) split_number pos) in
  let run := Splitpoint_Manipulation_Callback select_kid split_function fuel
               prop_id data curent_figure split_number maximum_number_splits
               split_marks pos mn mx clicks fs in
  match fst edited with
  | Ok _ =>
      forall p, snd run p =
                if String.eqb p path then Some (with_model ob (snd edited))
                else fs p
  | Raise e => run = (Failed (EditRaised e), fs)
  | OutOfFuel => run = (Cut, fs)
  end.
Proof.
  intros Hid Hj Hd Hf edited run. subst edited run.
  destruct (fst (recalculate_after_spchange _ _ _ _ _ _)) as [[u|e|] o'] eqn:Er;
    cbn [fst snd]; [intros p| |];
    unfold Splitpoint_Manipulation_Callback; cbv zeta; rewrite Hid;
    (erewrite sbind_done by (unfold or_fail; rewrite Hj; reflexivity));
    rewrite (eq_refl : String.eqb "splitpoint_Man_apply" "splitView" = false);
    rewrite (eq_refl : String.eqb "splitpoint_Man_apply"
                         "splitpoint_Manipulation" = false);
    rewrite (eq_refl : String.eqb "splitpoint_Man_apply"
                         "splitpoint_Man_apply" = true);
    (erewrite sbind_done by (apply item_found; eassumption));
    (erewrite sbind_done
       by (unfold pickle_load, or_fail; rewrite Hf; reflexivity)).
  - erewrite sbind_done by (unfold edit; rewrite Er; reflexivity).
    erewrite sbind_done by (apply item_found; eassumption).
    erewrite sbind_done by (unfold pickle_dump; reflexivity).
    match goal with
    | |- snd (?m ?f) p = _ => assert (Hr : reads_only m) by reads; rewrite Hr
    end.
    reflexivity.
  - erewrite sbind_failed by (unfold edit; rewrite Er; reflexivity).
    reflexivity.
  - erewrite sbind_cut by (unfold edit; rewrite Er; reflexivity).
    reflexivity.
Qed.

(** X13.  A trigger of the split-point callback other than the apply
    button writes no file.  If it is not the split selector either and
    the cached paths parse, the callback returns the slider values it was
    given: the number of splits and its marks, the split point and its
    bounds. *)
Theorem other_triggers_write_nothing (fuel : nat) (prop_id data : string)
    (curent_figure : Figure) (split_number maximum_number_splits : Z)
    (split_marks : Dict) (pos mn mx : value) (clicks : Z) (fs : Files) :
  before_dot prop_id <> "splitpoint_Man_apply" ->
  let run := Splitpoint_Manipulation_Callback select_kid split_function fuel
               prop_id data curent_figure split_number maximum_number_splits
               split_marks pos mn mx clicks fs in
  snd run = fs
  /\ (before_dot prop_id <> "splitView" -> json_loads data <> None ->
      exists fig,
        fst run = Done (mkOutputs fig maximum_number_splits split_marks
                          pos mn mx)).
Proof.
  intros Hid run. subst run. split.
  - now apply callback_reads_only.
  - intros Hv Hj. destruct (json_loads data) as [d|] eqn:Ej; [|congruence].
    unfold Splitpoint_Manipulation_Callback. cbv zeta.
    erewrite sbind_done by (unfold or_fail; rewrite Ej; reflexivity).
    apply String.eqb_neq in Hv, Hid. rewrite Hv, Hid.
    destruct (String.eqb (before_dot prop_id) "splitpoint_Manipulation");
      eexists; reflexivity.
Qed.


Lemma reads_only_run {A : Type} (m : SM A) (fs fs' : Files) (r : result A) :
  reads_only m -> m fs = (r, fs') -> fs' = fs.
Proof. intros H E. specialize (H fs). rewrite E in H. exact H. Qed.

(** The menu callback writes no file other than the one named
    [new_input_object], unless it is asked to shut the server down. *)
Lemma display_menu_writes_only (pathname data : string) (d : Dict)
    (pnew : string) :
  json_loads data = Some d ->
  dict_get "new_input_object" d = Some pnew ->
  pathname <> "/shutdown" ->
  writes_only pnew (display_menu pathname data).
Proof.
  intros Hj Hd Hs fs p Hp. unfold display_menu.
  erewrite sbind_done by (unfold or_fail; rewrite Hj; reflexivity).
  apply String.eqb_neq in Hs. rewrite Hs.
  revert fs p Hp.
  match goal with |- forall fs p, p <> pnew -> snd (?m fs) p = fs p =>
    change (writes_only pnew m) end.
  destruct (String.eqb pathname "/clustering_results");
    [apply writes_only_reads; reads|].
  destruct (String.eqb pathname "/splitpoint_manipulation");
    [apply writes_only_reads; reads|].
  apply writes_only_sbind; [apply writes_only_reads; reads|]. intros path.
  apply writes_only_sbind; [apply writes_only_reads; reads|]. intros div.
  apply writes_only_sbind; [apply writes_only_reads; reads|]. intros path'.
  apply writes_only_sbind; [apply writes_only_reads; reads|]. intros ob.
  apply (writes_only_item d _ pnew pnew _ Hd).
  apply writes_only_sbind; [apply writes_only_pickle_dump|]. intros _.
  apply writes_only_reads. reads.
Qed.

(** The menu callback on a path that is none of the three it names. *)
Lemma display_menu_other_path (pathname data : string) (fs : Files)
    (d : Dict) (pin pnew : string) :
  json_loads data = Some d ->
  dict_get "input_object" d = Some pin ->
  dict_get "new_input_object" d = Some pnew ->
  pathname <> "/clustering_results" ->
  pathname <> "/splitpoint_manipulation" ->
  pathname <> "/shutdown" ->
  match fst (display_menu pathname data fs) with
  | Done _ =>
      forall p, snd (display_menu pathname data fs) p =
                if String.eqb p pnew then fs pin else fs p
  | _ => snd (display_menu pathname data fs) = fs
  end.
Proof.
  intros Hj Hin Hnew H1 H2 H3. unfold display_menu.
  erewrite sbind_done by (unfold or_fail; rewrite Hj; reflexivity).
  apply String.eqb_neq in H1, H2, H3. rewrite H1, H2, H3.
  erewrite sbind_done by (apply item_found; eassumption).
  destruct (Cluster_Scatter_Plot pin fs) as [r fs'] eqn:Ec.
  assert (fs' = fs)
    by (eapply reads_only_run; [apply reads_only_Cluster_Scatter_Plot | eassumption]).
  subst fs'.
  destruct r as [div|f|].
  - erewrite sbind_done by eassumption.
    erewrite sbind_done by (apply item_found; eassumption).
    destruct (fs pin) as [ob|] eqn:Ef.
    + erewrite sbind_done
        by (unfold pickle_load, or_fail; rewrite Ef; reflexivity).
      erewrite sbind_done by (apply item_found; eassumption).
      erewrite sbind_done by (unfold pickle_dump; reflexivity).
      cbn. intros p. reflexivity.
    + erewrite sbind_failed
        by (unfold pickle_load, or_fail; rewrite Ef; reflexivity).
      reflexivity.
  - erewrite sbind_failed by eassumption. reflexivity.
  - erewrite sbind_cut by eassumption. reflexivity.
Qed.

Lemma session_keeps_input (fuel : nat) (data : string) (d : Dict)
    (pin pnew : string) (rs : list request) :
  json_loads data = Some d ->
  dict_get "new_input_object" d = Some pnew ->
  pin <> pnew ->
  forallb (fun r => negb (is_shutdown r)) rs = true ->
  forall fs,
    session select_kid split_function fuel data rs fs pin = fs pin.
Proof.
  intros Hj Hd Hne. unfold session.
  induction rs as [|r rs IH]; intros Hall fs; [reflexivity|].
  cbn [forallb] in Hall. apply andb_true_iff in Hall as [Hr Hall].
  cbn [fold_left]. rewrite (IH Hall).
  destruct r as [pathname|prop_id fig sn mns marks pos mn mx clicks];
    cbn [serve].
  - apply (display_menu_writes_only pathname data d pnew Hj Hd); [|assumption].
    cbn in Hr. apply negb_true_iff in Hr. now apply String.eqb_neq.
  - now apply (callback_writes_only fuel prop_id data fig sn mns marks
                 pos mn mx clicks d pnew Hj Hd).
Qed.

(** X14.  The menu callback writes no file on the paths
    [/clustering_results] and [/splitpoint_manipulation].  On a path that
    is none of the three it names, if it returns a page, the file named
    [new_input_object] holds afterwards what the file named
    [input_object] holds and no other file has changed; if it raises, no
    file has changed. *)
Theorem display_menu_resets_on_other_paths (pathname data : string)
    (fs : Files) (d : Dict) (pin pnew : string) :
  json_loads data = Some d ->
  dict_get "input_object" d = Some pin ->
  dict_get "new_input_object" d = Some pnew ->
  let run := display_menu pathname data fs in
  (pathname = "/clustering_results" \/ pathname = "/splitpoint_manipulation" ->
   snd run = fs)
  /\ (pathname <> "/clustering_results" ->
      pathname <> "/splitpoint_manipulation" ->
      pathname <> "/shutdown" ->
      match fst run with
      | Done _ => forall p, snd run p = if String.eqb p pnew then fs pin else fs p
      | _ => snd run = fs
      end).
Proof.
  intros Hj Hin Hnew run. subst run. split.
  - intros Hp. unfold display_menu.
    erewrite sbind_done by (unfold or_fail; rewrite Hj; reflexivity).
    destruct Hp as [-> | ->].
    + rewrite (eq_refl : String.eqb "/clustering_results"
                           "/clustering_results" = true).
      match goal with |- snd (?m fs) = fs =>
        assert (Hr : reads_only m) by reads; apply Hr end.
    + rewrite (eq_refl : String.eqb "/splitpoint_manipulation"
                           "/clustering_results" = false).
      rewrite (eq_refl : String.eqb "/splitpoint_manipulation"
                           "/splitpoint_manipulation" = true).
      match goal with |- snd (?m fs) = fs =>
        assert (Hr : reads_only m) by reads; apply Hr end.
  - now apply (display_menu_other_path pathname data fs d pin pnew).
Qed.

(** X15.  When the two files have different names, no sequence of page
    visits and triggers of the split-point callback, short of
    [/shutdown], changes the file named [input_object]; and a visit of a
    path that is none of the three named ones, if it returns a page,
    leaves in the file named [new_input_object] the object that
    [input_object] held at the start: the edits are undone. *)
Theorem reset_restores_the_input_object (fuel : nat) (data pathname : string)
    (rs : list request) (fs : Files) (d : Dict) (pin pnew : string) :
  json_loads data = Some d ->
  dict_get "input_object" d = Some pin ->
  dict_get "new_input_object" d = Some pnew ->
  pin <> pnew ->
  forallb (fun r => negb (is_shutdown r)) rs = true ->
  pathname <> "/clustering_results" ->
  pathname <> "/splitpoint_manipulation" ->
  pathname <> "/shutdown" ->
  let fs1 := session select_kid split_function fuel data rs fs in
  let run := display_menu pathname data fs1 in
  fs1 pin = fs pin
  /\ forall page, fst run = Done page ->
       snd run pnew = fs pin /\ snd run pin = fs pin.
Proof.
  intros Hj Hin Hnew Hne Hall H1 H2 H3 fs1 run.
  assert (Hkeep : fs1 pin = fs pin)
    by (apply (session_keeps_input fuel data d pin pnew rs Hj Hnew Hne Hall)).
  split; [assumption|]. intros page Hrun. subst run.
  pose proof (display_menu_other_path pathname data fs1 d pin pnew
                Hj Hin Hnew H1 H2 H3) as H.
  rewrite Hrun in H. rewrite !H, String.eqb_refl, Hkeep.
  apply String.eqb_neq in Hne. now rewrite Hne.
Qed.

End Facts.

Import ServerExamples.

Lemma apply_trigger_stores_the_edit_witness :
  let edited := fst (recalculate_after_spchange Examples.select_kid
                       Examples.split_function 4 (model object) 1 42%Z) in
  let run := Splitpoint_Manipulation_Callback (lib := library)
               Examples.select_kid Examples.split_function 4
               "splitpoint_Man_apply.n_clicks" "tmp" ([], 0%Z) 1 2 []
               42%Z 0%Z 100%Z 1 files in
  match fst edited with
  | Ok _ =>
      forall p, snd run p =
                if String.eqb p "new.inv"
                then Some (with_model object (snd edited))
                else files p
  | Raise e => run = (Failed (EditRaised e), files)
  | OutOfFuel => run = (Cut, files)
  end.
Proof.
  apply (apply_trigger_stores_the_edit (lib := library) Examples.select_kid
           Examples.split_function 4 "splitpoint_Man_apply.n_clicks" "tmp"
           ([], 0%Z) 1 2 [] 42%Z 0%Z 100%Z 1 files paths "new.inv" object);
    reflexivity.
Defined.

Lemma other_triggers_write_nothing_witness :
  let run := Splitpoint_Manipulation_Callback (lib := library)
               Examples.select_kid Examples.split_function 4
               "splitpoint_Manipulation.value" "tmp" ([10%Z; 20%Z], 15%Z)
               1 2 [("0", "0"); ("1", "1"); ("2", "2")]
               17%Z 10%Z 20%Z 0 files in
  snd run = files
  /\ exists fig,
       fst run = Done (mkOutputs (lib := library) fig 2
                         [("0", "0"); ("1", "1"); ("2", "2")]
                         17%Z 10%Z 20%Z).
Proof.
  destruct (other_triggers_write_nothing (lib := library) Examples.select_kid
              Examples.split_function 4 "splitpoint_Manipulation.value" "tmp"
              ([10%Z; 20%Z], 15%Z) 1 2 [("0", "0"); ("1", "1"); ("2", "2")]
              17%Z 10%Z 20%Z 0 files) as [H1 H2].
  - cbn. discriminate.
  - split; [exact H1|]. apply H2; cbn; discriminate.
Defined.

Lemma display_menu_resets_on_other_paths_witness :
  let run := display_menu (lib := library) "/" "tmp" files in
  ("/" = "/clustering_results" \/ "/" = "/splitpoint_manipulation" ->
   snd run = files)
  /\ match fst run with
     | Done _ =>
         forall p, snd run p =
                   if String.eqb p "new.inv" then files "in.inv" else files p
     | _ => snd run = files
     end.
Proof.
  destruct (display_menu_resets_on_other_paths (lib := library) "/" "tmp"
              files paths "in.inv" "new.inv") as [H1 H2];
    try reflexivity.
  split; [exact H1|]. apply H2; discriminate.
Defined.

Lemma reset_restores_the_input_object_witness :
  let rs := [ Trigger (lib := library) "splitpoint_Man_apply.n_clicks"
                ([], 0%Z) 1 2 [] 42%Z 0%Z 100%Z 1;
              Visit "/clustering_results" ] in
  let fs1 := session (lib := library) Examples.select_kid
               Examples.split_function 4 "tmp" rs files in
  let run := display_menu (lib := library) "/" "tmp" fs1 in
  fs1 "in.inv" = files "in.inv"
  /\ forall page, fst run = Done page ->
       snd run "new.inv" = files "in.inv"
       /\ snd run "in.inv" = files "in.inv".
Proof.
  apply (reset_restores_the_input_object (lib := library) Examples.select_kid
           Examples.split_function 4 "tmp" "/"
           [ Trigger (lib := library) "splitpoint_Man_apply.n_clicks"
               ([], 0%Z) 1 2 [] 42%Z 0%Z 100%Z 1;
             Visit "/clustering_results" ]
           files paths "in.inv" "new.inv");
    try reflexivity; discriminate.
Defined.

End ServerFacts.

(** * Pruning adds nothing *)

Section Monotone.

Context {value payload : Type}.
Local Abbreviation Node := (Node value payload).
Local Abbreviation Tree := (Tree value payload).
Local Abbreviation HiPart := (HiPart value payload).

Lemma shrinks_pure {A : Type} (m : M Tree A) :
  (forall t, snd (m t) = t) -> shrinks m.
Proof.
  intros H t r t' E. specialize (H t). rewrite E in H. cbn in H. subst t'.
  apply incl_refl.
Qed.

Lemma shrinks_bind {A B : Type} (m : M Tree A) (k : A -> M Tree B) :
  shrinks m -> (forall a, shrinks (k a)) -> shrinks (bind m k).
Proof.
  intros Hm Hk t r t' E. unfold bind in E.
  destruct (m t) as [[a|x|] t1] eqn:Em.
  - eapply incl_tran; [eapply Hk; eassumption | eapply Hm; eassumption].
  - injection E as <- <-. eapply Hm; eassumption.
  - injection E as <- <-. eapply Hm; eassumption.
Qed.

Lemma shrinks_remove_node (k : Z) : shrinks (@remove_node value payload k).
Proof.
  intros t r t' E. unfold remove_node in E.
  destruct (get_node t k) as [n|]; [|injection E as <- <-; apply incl_refl].
  injection E as <- <-. unfold keys. cbn [nodes].
  intros x Hx. apply in_map_iff in Hx as (m & <- & Hm).
  apply filter_In in Hm as [Hm _].
  destruct (predecessor n) as [pid|].
  - rewrite <- (keys_update_node pid (drop_successor k)) by reflexivity.
    now apply in_map.
  - now apply in_map.
Qed.

Lemma shrinks_parent (k : Z) : shrinks (@parent value payload k).
Proof.
  apply shrinks_pure. intros t. unfold parent.
  destruct (get_node t k) as [n|]; [|reflexivity].
  destruct (predecessor n); reflexivity.
Qed.

Lemma shrinks_getattr {A : Type} (o : option A) :
  shrinks (getattr (S := Tree) o).
Proof. apply shrinks_pure. intros t. destruct o; reflexivity. Qed.

Lemma shrinks_ret {A : Type} (a : A) : shrinks (ret (S := Tree) a).
Proof. apply shrinks_pure. reflexivity. Qed.

Lemma shrinks_prune_key (inodes : list Z) (split k : Z) :
  shrinks (@prune_key value payload inodes split k).
Proof.
  unfold prune_key.
  apply shrinks_bind.
  { apply shrinks_pure. intros t. unfold index.
    destruct (py_index inodes split); reflexivity. }
  intros e. destruct (k >? e); [|apply shrinks_ret].
  apply shrinks_bind; [apply shrinks_pure; reflexivity|]. intros t.
  destruct (is_none (get_node t k)); [apply shrinks_ret|].
  apply shrinks_bind; [apply shrinks_getattr|]. intros ne.
  destruct (negb (is_root ne)); [|apply shrinks_remove_node].
  apply shrinks_bind.
  { apply shrinks_bind; [apply shrinks_parent | intros p; apply shrinks_getattr]. }
  intros pe. apply shrinks_bind.
  { apply shrinks_bind; [apply shrinks_parent | intros p; apply shrinks_getattr]. }
  intros pk.
  destruct (negb (identifier pe =? identifier pk));
    [apply shrinks_remove_node | apply shrinks_ret].
Qed.

Lemma shrinks_for_each {A : Type} (l : list A) (body : A -> M Tree unit) :
  (forall x, shrinks (body x)) -> shrinks (for_each l body).
Proof.
  intros H. induction l as [|x l IH]; [apply shrinks_ret|].
  cbn [for_each]. apply shrinks_bind; [apply H | intros _; exact IH].
Qed.

(** X16.  Whatever the tree, the split index and the outcome, the steps
    before the loop add no node: every id of the tree they leave was an
    id of the tree they were given, also when they raise. *)
Theorem pruning_never_adds_a_node (o : HiPart) (split : Z) (v : value) :
  incl (keys (tree (snd (prune_phase split v o)))) (keys (tree o)).
Proof.
  rewrite prune_phase_unfold.
  destruct (prune_loop (internal_nodes_of (tree o)) split (tree o))
    as [r t1] eqn:El.
  assert (Hs : incl (keys t1) (keys (tree o))).
  { rewrite prune_loop_keys in El.
    eapply (shrinks_for_each _ _ (shrinks_prune_key _ split)); eassumption. }
  destruct r as [[]|x|]; cbn [snd tree with_tree]; try assumption.
  destruct (py_index (internal_nodes_of (tree o)) split) as [e|].
  - destruct (get_node (reopen_leaves t1) e); cbn [snd].
    + now rewrite keys_after_prune.
    + unfold before_write. cbn [tree]. now rewrite keys_reopen.
  - cbn [snd]. unfold before_write. cbn [tree]. now rewrite keys_reopen.
Qed.

End Monotone.

(** * An edit starts the loop again *)

Section Resplit.

Context {value payload : Type}.
Local Abbreviation Node := (Node value payload).
Local Abbreviation Tree := (Tree value payload).
Local Abbreviation HiPart := (HiPart value payload).

Variable select_kid : list Node -> option Z.
Variable split_function : Z -> M HiPart unit.

(** On a HiPart tree the steps before the loop leave the edited node as
    a leaf that may be selected, when it has a split criterion. *)
Lemma edited_node_eligible (o : HiPart) (split e : Z) (v : value) (ne : Node) :
  hipart_tree (tree o) = true ->
  py_index (internal_nodes_of (tree o)) split = Some e ->
  get_node (tree o) e = Some ne ->
  split_criterion (data ne) <> None ->
  exists o1 ne1,
    prune_phase split v o = (Ok tt, o1)
    /\ max_clusters_number o1 = max_clusters_number o
    /\ In ne1 (leaves (tree o1))
    /\ identifier ne1 = e
    /\ eligible ne1 = true.
Proof.
  intros H Hi Ge Hc.
  destruct (prune_phase_hipart o split e v H Hi)
    as (t1 & ne' & Ge' & W1 & Hr & Hb & Hrun & Hok).
  assert (ne' = ne) by congruence. subst ne'.
  pose proof H as H'. apply hipart_tree_iff in H' as (W & _ & _).
  destruct (get_node_In _ e ne Ge) as [Hne Hide].
  assert (Hkeep : negb (doomed e (predecessor ne) ne) = true).
  { unfold doomed. rewrite Hide.
    assert (Eg : (e >? e) = false) by (rewrite Z.gtb_ltb; apply Z.ltb_ge; lia).
    now rewrite Eg. }
  destruct (after_prune_edited o (tree o) t1 e v ne _ W Ge Hkeep Hb)
    as (ne1 & n1 & G1 & Gn1 & Hs1 & F1 & F2 & F3 & F4 & F5).
  pose proof (edited_node_loses_children (tree o) t1 e ne n1 W Ge W1 Hb Gn1)
    as Hnil.
  assert (Gr : exists nr, get_node (reopen_leaves t1) e = Some nr).
  { unfold get_node, reopen_leaves. cbn [nodes].
    rewrite find_map_shape by apply reopen_leaf_id.
    unfold get_node in Gn1. rewrite Gn1. eexists. reflexivity. }
  destruct Gr as (nr & Gr).
  destruct (after_prune_facts o t1 e v nr Gr) as (Hopen & _ & _ & _ & Hmax).
  destruct (get_node_In _ e ne1 G1) as [Hin1 Hid1].
  assert (Hleaf : is_leaf ne1 = true)
    by (unfold is_leaf; now rewrite Hs1, Hnil).
  assert (Hl : In ne1 (leaves (tree (after_prune o t1 e v))))
    by (apply filter_In; now split).
  exists (after_prune o t1 e v), ne1.
  repeat split; try assumption.
  unfold eligible. rewrite (Hopen ne1 Hl) by congruence.
  rewrite F3. destruct (split_criterion (data ne)); [reflexivity|congruence].
Qed.

(** X17.  On a HiPart tree, with a selector that returns [None] only
    when no leaf can be selected: if the edited node has a split
    criterion and the tree left by the steps before the loop has fewer
    leaves than [max_clusters_number], the loop is entered: a node is
    selected and [split_function] is called on it. *)
Theorem edit_enters_the_loop (fuel : nat) (o : HiPart) (split e : Z)
    (v : value) (ne : Node) :
  selector_finds_eligible select_kid ->
  hipart_tree (tree o) = true ->
  py_index (internal_nodes_of (tree o)) split = Some e ->
  get_node (tree o) e = Some ne ->
  split_criterion (data ne) <> None ->
  Z.of_nat (length (leaves (tree (snd (prune_phase split v o)))))
    < max_clusters_number o ->
  (1 <= fuel)%nat ->
  exists k tr,
    snd (recalculate_after_spchange select_kid split_function fuel o split v)
    = EvSelect (Some k) :: EvSplit k :: tr.
Proof.
  intros Hsel H Hi Ge Hc Hbudget Hfuel.
  destruct (edited_node_eligible o split e v ne H Hi Ge Hc)
    as (o1 & ne1 & Hrun & Hmax & Hl & Hid & Hel).
  rewrite Hrun in Hbudget. cbn [snd] in Hbudget.
  unfold recalculate_after_spchange. rewrite Hrun. unfold partial_predict.
  destruct (select_kid (leaves (tree o1))) as [k|] eqn:Es.
  - exists k. destruct fuel as [|fuel]; [lia|]. cbn [predict_loop].
    assert (Eb : (Z.of_nat (length (leaves (tree o1)))
                  <? max_clusters_number o1) = true)
      by (apply Z.ltb_lt; lia).
    rewrite Eb.
    destruct (split_function k o1) as [[[]|x|] o2].
    + destruct (predict_loop _ _ _ _ _ _) as [r tr]. eexists. reflexivity.
    + eexists. reflexivity.
    + eexists. reflexivity.
  - pose proof (Hsel _ Es ne1 Hl) as Habs. congruence.
Qed.

End Resplit.

Lemma edit_enters_the_loop_witness :
  exists k tr,
    snd (recalculate_after_spchange Examples.select_kid
           Examples.split_function 4 (Examples.obj_7 4) 1 42)
    = EvSelect (Some k) :: EvSplit k :: tr.
Proof.
  apply (edit_enters_the_loop Examples.select_kid Examples.split_function 4
           (Examples.obj_7 4) 1 1 42
           (mkNode 1 (Some 0) [3; 4] (Examples.inner_data 3 15 [10; 20]))).
  - apply reference_finds_eligible.
  - reflexivity.
  - reflexivity.
  - reflexivity.
  - discriminate.
  - vm_compute. reflexivity.
  - lia.
Defined.

